(** * keras/backend/torch/nn.py: padding, layout and dispatch glue

    A shallow embedding of the torch backend shim of Keras
    ([src/keras/backend/torch/nn.py]) and the properties its specification
    states about it.

    Python integers are [Z]; [//] and [%] are [Z.div] and [Z.modulo] (both
    round towards minus infinity, as Python does) guarded by the
    [ZeroDivisionError] Python raises on a zero divisor.  Python exceptions are
    the [Raise] branch of [result]. *)

From Stdlib Require Import String ZArith QArith List Bool Lia Arith Lqa
  SpecFloat.
Import ListNotations.

Open Scope Z_scope.

(** ** Exceptions and the error monad *)

(** The exceptions the module can surface.  [EngineError] stands for whatever
    a native torch kernel raises: the module never raises it itself. *)
Inductive exn : Type :=
| ValueError (msg : string)
| IndexError
| ZeroDivisionError
| NotImplementedError (msg : string)
| EngineError (msg : string).

Inductive result (A : Type) : Type :=
| Ok (a : A)
| Raise (e : exn).

Arguments Ok {A} a.
Arguments Raise {A} e.

Definition bind {A B : Type} (m : result A) (k : A -> result B) : result B :=
  match m with
  | Ok a => k a
  | Raise e => Raise e
  end.

Notation "x <- m ;; k" := (bind m (fun x => k))
  (at level 61, m at next level, right associativity).
Notation "' p <- m ;; k" := (bind m (fun p => k))
  (at level 61, p pattern, m at next level, right associativity).

Definition is_value_error (e : exn) : bool :=
  match e with
  | ValueError _ => true
  | _ => false
  end.

(** ** Python values *)

(** An argument that is either one [int] or a tuple of them ([strides],
    [pool_size], [dilation_rate]). *)
Inductive int_or_tuple : Type :=
| PInt (v : Z)
| PTuple (t : list Z).

(** The [padding] variable: a mode string on entry, later rebound to the
    value handed to the native kernel (an [int] or a list of them). *)
Inductive padding_arg : Type :=
| PadStr (mode : string)
| PadInt (v : Z)
| PadList (t : list Z).

(** [a % b]. *)
Definition py_mod (a b : Z) : result Z :=
  if b =? 0 then Raise ZeroDivisionError else Ok (a mod b).

(** [a // b]. *)
Definition py_floordiv (a b : Z) : result Z :=
  if b =? 0 then Raise ZeroDivisionError else Ok (a / b).

(** [t[i]] on a tuple or list: a negative index counts from the end, an index
    out of range raises [IndexError]. *)
Definition py_index {A : Type} (t : list A) (i : Z) : result A :=
  let n := Z.of_nat (length t) in
  let j := if i <? 0 then i + n else i in
  if (j <? 0) || (n <=? j) then Raise IndexError
  else match nth_error t (Z.to_nat j) with
       | Some a => Ok a
       | None => Raise IndexError
       end.

(** [t[i] = v] on a list. *)
Fixpoint list_update {A : Type} (t : list A) (j : nat) (v : A) : list A :=
  match t, j with
  | [], _ => []
  | _ :: r, O => v :: r
  | a :: r, S j' => a :: list_update r j' v
  end.

Definition py_setitem {A : Type} (t : list A) (i : Z) (v : A) : result (list A) :=
  let n := Z.of_nat (length t) in
  let j := if i <? 0 then i + n else i in
  if (j <? 0) || (n <=? j) then Raise IndexError
  else Ok (list_update t (Z.to_nat j) v).

(** [range(a, b)]. *)
Definition py_range (a b : Z) : list Z :=
  map (fun k => a + Z.of_nat k) (seq 0 (Z.to_nat (b - a))).

(** ** Padding length (lines 110-119) *)

Definition _compute_padding_length
  (input_length kernel_length stride dilation_rate : Z) : result (Z * Z) :=
  r <- py_mod (input_length - 1) stride ;;
  let total_padding_length := dilation_rate * (kernel_length - 1) - r in
  let left_padding := total_padding_length / 2 in
  let right_padding := (total_padding_length + 1) / 2 in
  Ok (left_padding, right_padding).






(** ** Tensors *)

(** A torch tensor is a strided view of a flat storage: one (size, stride)
    pair per dimension.  Views ([permute], [expand]) share the storage and
    only change the pairs; kernels that produce fresh values lay them out
    contiguously (row-major). *)
Record tensor (A : Type) : Type := mkTensor {
  storage : list A;
  dims : list (nat * nat)
}.

Arguments mkTensor {A} storage dims.
Arguments storage {A} t.
Arguments dims {A} t.

Definition shape {A : Type} (t : tensor A) : list nat := map fst (dims t).

Definition ndim {A : Type} (t : tensor A) : Z := Z.of_nat (length (dims t)).

Definition numel_of (s : list nat) : nat := fold_right Nat.mul 1%nat s.

Fixpoint contiguous (s : list nat) : list (nat * nat) :=
  match s with
  | [] => []
  | n :: r => (n, numel_of r) :: contiguous r
  end.

Fixpoint offset (ds : list (nat * nat)) (idx : list nat) : nat :=
  match ds, idx with
  | (_, st) :: ds', i :: idx' => (i * st + offset ds' idx')%nat
  | _, _ => 0%nat
  end.

(** The element at a multi-index ([d] is returned out of the storage). *)
Definition get {A : Type} (d : A) (t : tensor A) (idx : list nat) : A :=
  nth (offset (dims t) idx) (storage t) d.

(** All multi-indices of a shape, in row-major order. *)
Fixpoint indices (s : list nat) : list (list nat) :=
  match s with
  | [] => [[]]
  | n :: r => flat_map (fun i => map (cons i) (indices r)) (seq 0 n)
  end.

Definition in_bounds (s idx : list nat) : Prop := Forall2 lt idx s.

(** A tensor is well formed when every index within its shape falls inside
    its storage. *)
Definition well_formed {A : Type} (t : tensor A) : Prop :=
  forall idx, in_bounds (shape t) idx ->
    (offset (dims t) idx < length (storage t))%nat.

(** A fresh contiguous tensor holding [f idx] at every index. *)
Definition tabulate {A : Type} (s : list nat) (f : list nat -> A) : tensor A :=
  mkTensor (map f (indices s)) (contiguous s).

(** The elements in logical (row-major) order. *)
Definition to_list {A : Type} (d : A) (t : tensor A) : list A :=
  map (get d t) (indices (shape t)).

(** A Python scalar converted to a tensor. *)
Definition scalar {A : Type} (v : A) : tensor A := mkTensor [v] [].

(** A flat Python list converted to a one-dimensional tensor. *)
Definition vector {A : Type} (l : list A) : tensor A :=
  mkTensor l (contiguous [length l]).

(** An elementwise kernel keeps the layout. *)
Definition tmap {A B : Type} (f : A -> B) (t : tensor A) : tensor B :=
  mkTensor (map f (storage t)) (dims t).

(** A dimension argument of a torch call: negative values count from the
    end. *)
Definition normalize_dim (n : nat) (d : Z) : option nat :=
  let d' := if d <? 0 then d + Z.of_nat n else d in
  if (0 <=? d') && (d' <? Z.of_nat n) then Some (Z.to_nat d') else None.

Fixpoint normalize_dims (n : nat) (ds : list Z) : option (list nat) :=
  match ds with
  | [] => Some []
  | d :: r =>
      match normalize_dim n d, normalize_dims n r with
      | Some d', Some r' => Some (d' :: r')
      | _, _ => None
      end
  end.

Definition is_permutation_of_range (p : list nat) (n : nat) : bool :=
  (length p =? n)%nat && forallb (fun i => existsb (Nat.eqb i) p) (seq 0 n).

(** [torch.permute(t, p)]: dimension [i] of the result is dimension [p[i]] of
    [t]; the storage is shared. *)
Definition permute {A : Type} (t : tensor A) (p : list Z) : result (tensor A) :=
  match normalize_dims (length (dims t)) p with
  | Some q =>
      if is_permutation_of_range q (length (dims t))
      then Ok (mkTensor (storage t) (map (fun i => nth i (dims t) (0, 0)%nat) q))
      else Raise (EngineError "permute: dims is not a permutation of the dimensions")
  | None => Raise (EngineError "permute: dimension out of range")
  end.

(** The shape argument of [torch.reshape]: at most one entry is [-1] and
    stands for whatever size makes the element counts agree. *)
Definition infer_shape (n : nat) (s : list Z) : option (list nat) :=
  if existsb (fun d => d <? -1) s then None
  else
    let known := filter (fun d => negb (d =? -1)) s in
    let p := numel_of (map Z.to_nat known) in
    match (length s - length known)%nat with
    | O => if (p =? n)%nat then Some (map Z.to_nat s) else None
    | S O =>
        if (p =? 0)%nat then None
        else if (n mod p =? 0)%nat
             then Some (map (fun d => if d =? -1 then (n / p)%nat else Z.to_nat d) s)
             else None
    | _ => None
    end.

(** [torch.reshape(t, s)]: the same elements in the same logical order. *)
Definition reshape {A : Type} (d : A) (t : tensor A) (s : list Z)
  : result (tensor A) :=
  match infer_shape (numel_of (shape t)) s with
  | Some s' => Ok (mkTensor (to_list d t) (contiguous s'))
  | None => Raise (EngineError "reshape: shape is invalid for the input size")
  end.

(** Broadcasting aligns shapes at their last dimension. *)
Fixpoint broadcast_rev (a b : list nat) : option (list nat) :=
  match a, b with
  | [], _ => Some b
  | _, [] => Some a
  | x :: a', y :: b' =>
      match broadcast_rev a' b' with
      | None => None
      | Some r =>
          if (x =? y)%nat then Some (x :: r)
          else if (x =? 1)%nat then Some (y :: r)
          else if (y =? 1)%nat then Some (x :: r)
          else None
      end
  end.

Definition broadcast_shapes (a b : list nat) : option (list nat) :=
  option_map (@rev nat) (broadcast_rev (rev a) (rev b)).

Fixpoint expand_rev (ds : list (nat * nat)) (s : list nat) : list (nat * nat) :=
  match s with
  | [] => []
  | n :: s' =>
      match ds with
      | [] => (n, 0%nat) :: expand_rev [] s'
      | (m, st) :: ds' =>
          (if (m =? n)%nat then (m, st) else (n, 0%nat)) :: expand_rev ds' s'
      end
  end.

(** The view of [t] at a shape it broadcasts to: new and stretched
    dimensions get stride 0. *)
Definition expand {A : Type} (t : tensor A) (s : list nat) : tensor A :=
  mkTensor (storage t) (rev (expand_rev (rev (dims t)) (rev s))).

(** [torch.unsqueeze(t, dim)]: a dimension of size 1 inserted at [dim]. *)
Definition unsqueeze {A : Type} (t : tensor A) (dim : Z) : result (tensor A) :=
  match normalize_dim (S (length (dims t))) dim with
  | Some k => Ok (mkTensor (storage t)
                    (firstn k (dims t) ++ (1, 1)%nat :: skipn k (dims t)))
  | None => Raise (EngineError "unsqueeze: dimension out of range")
  end.

(** [torch.where(c, a, b)]: elementwise selection over the common broadcast
    shape. *)
Definition torch_where {A : Type} (d : A)
  (c : tensor bool) (a b : tensor A) : result (tensor A) :=
  match broadcast_shapes (shape c) (shape a) with
  | None => Raise (EngineError "where: shapes do not broadcast")
  | Some s1 =>
      match broadcast_shapes s1 (shape b) with
      | None => Raise (EngineError "where: shapes do not broadcast")
      | Some s =>
          Ok (tabulate s (fun idx =>
                if get false (expand c s) idx
                then get d (expand a s) idx
                else get d (expand b s) idx))
      end
  end.

(** The values of one dimension through an index. *)
Definition fiber {A : Type} (d : A) (t : tensor A) (idx : list nat) (ax : nat)
  : list A :=
  map (fun j => get d t (list_update idx ax j)) (seq 0 (nth ax (shape t) 0%nat)).

(** A vector kernel applied along one dimension, as [tnn.softmax(x, dim)]
    applies the normalised exponential (a zero-dimensional tensor counts as
    one of a single element). *)
Definition along_axis {A : Type} (d : A) (f : list A -> list A)
  (t : tensor A) (dim : Z) : result (tensor A) :=
  match dims t with
  | [] =>
      if (dim =? -1) || (dim =? 0)
      then Ok (tabulate [] (fun _ => nth 0 (f [get d t []]) d))
      else Raise (EngineError "Dimension out of range")
  | _ :: _ =>
      match normalize_dim (length (dims t)) dim with
      | Some ax =>
          Ok (tabulate (shape t)
                (fun idx => nth (nth ax idx 0%nat) (f (fiber d t idx ax)) d))
      | None => Raise (EngineError "Dimension out of range")
      end
  end.

(** A sample element function: the entry at a multi-index is the sum of its
    coordinates weighted by position. *)
Definition offset_id (idx : list nat) : Z :=
  fold_left (fun acc i => 10 * acc + Z.of_nat i) idx 0.

(** ** Layout transposition helpers (lines 167-208) *)

Definition msg_inputs_ndim : string :=
  "Inputs must have ndim=3, 4 or 5, corresponding to 1D, 2D and 3D inputs.".

Definition _transpose_spatial_inputs {A : Type} (inputs : tensor A)
  : result (tensor A) :=
  let num_spatial_dims := ndim inputs - 2 in
  if num_spatial_dims =? 1 then permute inputs [0; 2; 1]
  else if num_spatial_dims =? 2 then permute inputs [0; 3; 1; 2]
  else if num_spatial_dims =? 3 then permute inputs [0; 4; 1; 2; 3]
  else Raise (ValueError msg_inputs_ndim).

Definition _transpose_spatial_outputs {A : Type} (outputs : tensor A)
  : result (tensor A) :=
  let num_spatial_dims := Z.of_nat (length (shape outputs)) - 2 in
  if num_spatial_dims =? 1 then permute outputs [0; 2; 1]
  else if num_spatial_dims =? 2 then permute outputs [0; 2; 3; 1]
  else if num_spatial_dims =? 3 then permute outputs [0; 2; 3; 4; 1]
  else Ok outputs.

Definition _transpose_conv_kernel {A : Type} (kernel : tensor A)
  : result (tensor A) :=
  let num_spatial_dims := Z.of_nat (length (shape kernel)) - 2 in
  if num_spatial_dims =? 1 then permute kernel [2; 1; 0]
  else if num_spatial_dims =? 2 then permute kernel [3; 2; 0; 1]
  else if num_spatial_dims =? 3 then permute kernel [4; 3; 0; 1; 2]
  else Ok kernel.

(** ** Collaborators from the sibling modules *)

(** [convert_to_tensor] is the identity on what already is a tensor, and the
    dtype it casts to does not change the integers 0 and 1 a one-hot tensor
    holds: both are left out below. *)

(** Modelled from the spec: [maximum] of keras.backend.torch.numpy is not in
    the sources; section 4.7 has it "clamp negatives to 0": the elementwise
    maximum of a tensor and a scalar. *)
Definition maximum (x : tensor Z) (v : Z) : tensor Z :=
  tmap (fun a => Z.max a v) x.

(** Modelled from the spec: [expand_dims] of keras.backend.torch.numpy is not
    in the sources; it inserts a dimension of size 1 at [axis]. *)
Definition expand_dims {A : Type} (x : tensor A) (axis : Z) : result (tensor A) :=
  unsqueeze x axis.

(** Modelled from the spec: [where] of keras.backend.torch.numpy is not in
    the sources; section 4.7 has it "an elementwise selection" keyed on its
    first argument, here with a scalar as the alternative. *)
Definition where_ (condition : tensor bool) (x1 : tensor Z) (x2 : Z)
  : result (tensor Z) :=
  torch_where 0 condition x1 (scalar x2).

(** Modelled from the spec: [standardize_tuple] of
    keras.utils.argument_validation is not in the sources; section 6 has it
    produce "a fixed-length tuple from a scalar or sequence, raising a value
    error on bad length".  A scalar is repeated [n] times (no times when [n]
    is not positive, as Python's tuple repetition). *)
Definition msg_tuple : string :=
  "The argument must be a tuple of the expected number of integers.".

Definition standardize_tuple (value : int_or_tuple) (n : Z) (name : string)
  : result (list Z) :=
  match value with
  | PInt v => Ok (repeat v (Z.to_nat n))
  | PTuple t =>
      if Z.of_nat (length t) =? n then Ok t else Raise (ValueError msg_tuple)
  end.

Definition channels_first : string := "channels_first".
Definition channels_last : string := "channels_last".

Definition msg_data_format : string :=
  "The data_format argument must be one of channels_first, channels_last.".

(** The process-wide configuration the module reads: the default data format
    ([standardize_data_format(None)]) and the device ([get_device()]). *)
Record config : Type := {
  image_data_format : string;
  device : string
}.

(** Modelled from the spec: [standardize_data_format] of keras.backend is not
    in the sources; section 6 has it map "None to the process-wide default,
    else validate against channels_first, channels_last". *)
Definition standardize_data_format (cfg : config) (data_format : option string)
  : result string :=
  match data_format with
  | None => Ok (image_data_format cfg)
  | Some f =>
      if String.eqb f channels_first || String.eqb f channels_last
      then Ok f else Raise (ValueError msg_data_format)
  end.

(** ** The engine *)

(** What a native kernel returns: a tensor, or the message of the error the
    engine raised. *)
Definition native (A : Type) : Type := (string + A)%type.

Definition call {A : Type} (r : native A) : result A :=
  match r with
  | inl msg => Raise (EngineError msg)
  | inr a => Ok a
  end.

(** The kernels whose mathematics the module delegates.  The pooling and
    convolution kernels are indexed by the number of spatial dimensions
    ([tnn_conv 2] is [tnn.conv2d]); [softmax1d] and [log_softmax1d] are the
    normalised exponentials on one vector. *)
Record engine (A : Type) : Type := {
  softmax1d : list A -> list A;
  log_softmax1d : list A -> list A;
  tnn_pad : tensor A -> list Z -> string -> native (tensor A);
  tnn_max_pool :
    Z -> tensor A -> list Z -> list Z -> padding_arg -> native (tensor A);
  tnn_avg_pool :
    Z -> tensor A -> list Z -> list Z -> padding_arg -> bool -> native (tensor A);
  tnn_conv :
    Z -> tensor A -> tensor A -> list Z -> int_or_tuple -> Z -> padding_arg ->
    native (tensor A);
  tnn_conv_transpose :
    Z -> tensor A -> tensor A -> list Z -> list Z -> list Z -> list Z ->
    native (tensor A);
  torch_empty : list nat -> tensor A;
  tensor_to : tensor A -> string -> native (tensor A);
  torch_sum : tensor A -> Z -> bool -> native (tensor A);
  torch_div : tensor A -> tensor A -> native (tensor A);
  torch_mul : tensor A -> tensor A -> native (tensor A);
  torch_clip : tensor A -> A -> A -> native (tensor A);
  torch_log : tensor A -> native (tensor A);
  torch_neg : tensor A -> native (tensor A)
}.

Arguments softmax1d {A} e.
Arguments log_softmax1d {A} e.
Arguments tnn_pad {A} e.
Arguments tnn_max_pool {A} e.
Arguments tnn_avg_pool {A} e.
Arguments tnn_conv {A} e.
Arguments tnn_conv_transpose {A} e.
Arguments torch_empty {A} e.
Arguments tensor_to {A} e.
Arguments torch_sum {A} e.
Arguments torch_div {A} e.
Arguments torch_mul {A} e.
Arguments torch_clip {A} e.
Arguments torch_log {A} e.
Arguments torch_neg {A} e.

(** An engine with no kernel available: every delegated call reports an
    engine error.  It evaluates the paths that end before the first kernel
    call. *)
Definition unavailable : string := "kernel not available".

Definition null_engine (A : Type) : engine A := {|
  softmax1d := fun l => l;
  log_softmax1d := fun l => l;
  tnn_pad := fun _ _ _ => inl unavailable;
  tnn_max_pool := fun _ _ _ _ _ => inl unavailable;
  tnn_avg_pool := fun _ _ _ _ _ _ => inl unavailable;
  tnn_conv := fun _ _ _ _ _ _ _ => inl unavailable;
  tnn_conv_transpose := fun _ _ _ _ _ _ _ => inl unavailable;
  torch_empty := fun s => mkTensor [] (contiguous s);
  tensor_to := fun _ _ => inl unavailable;
  torch_sum := fun _ _ _ => inl unavailable;
  torch_div := fun _ _ => inl unavailable;
  torch_mul := fun _ _ => inl unavailable;
  torch_clip := fun _ _ _ => inl unavailable;
  torch_log := fun _ => inl unavailable;
  torch_neg := fun _ => inl unavailable
|}.

(** An engine over the integers that shows what the average-pooling kernel is
    handed: its [tnn_pad] returns the input as it is, and its [tnn_avg_pool]
    answers with the padding argument it received, as a vector. *)
Definition echo_engine : engine Z := {|
  softmax1d := softmax1d (null_engine Z);
  log_softmax1d := log_softmax1d (null_engine Z);
  tnn_pad := fun x _ _ => inr x;
  tnn_max_pool := tnn_max_pool (null_engine Z);
  tnn_avg_pool := fun _ _ _ _ padding _ =>
    match padding with
    | PadList l => inr (vector l)
    | PadInt n => inr (vector [n])
    | PadStr _ => inl unavailable
    end;
  tnn_conv := tnn_conv (null_engine Z);
  tnn_conv_transpose := tnn_conv_transpose (null_engine Z);
  torch_empty := torch_empty (null_engine Z);
  tensor_to := tensor_to (null_engine Z);
  torch_sum := torch_sum (null_engine Z);
  torch_div := torch_div (null_engine Z);
  torch_mul := torch_mul (null_engine Z);
  torch_clip := torch_clip (null_engine Z);
  torch_log := torch_log (null_engine Z);
  torch_neg := torch_neg (null_engine Z)
|}.

(** An engine over the rationals for running the exponentials' glue: its two
    vector kernels normalise by the plain sum where torch uses the sum of
    exponentials (divide by it, subtract it), so each result depends on the
    whole vector, as softmax and log-softmax do. *)
Definition normalize1d (l : list Q) : list Q :=
  let total := fold_right Qplus 0%Q l in map (fun v => Qred (v / total)%Q) l.

Definition shift1d (l : list Q) : list Q :=
  let total := fold_right Qplus 0%Q l in map (fun v => Qred (v - total)%Q) l.

Definition rational_engine : engine Q := {|
  softmax1d := normalize1d;
  log_softmax1d := shift1d;
  tnn_pad := tnn_pad (null_engine Q);
  tnn_max_pool := tnn_max_pool (null_engine Q);
  tnn_avg_pool := tnn_avg_pool (null_engine Q);
  tnn_conv := tnn_conv (null_engine Q);
  tnn_conv_transpose := tnn_conv_transpose (null_engine Q);
  torch_empty := torch_empty (null_engine Q);
  tensor_to := tensor_to (null_engine Q);
  torch_sum := torch_sum (null_engine Q);
  torch_div := torch_div (null_engine Q);
  torch_mul := torch_mul (null_engine Q);
  torch_clip := torch_clip (null_engine Q);
  torch_log := torch_log (null_engine Q);
  torch_neg := torch_neg (null_engine Q)
|}.

(** ** The operations of the module *)

Definition same : string := "same".
Definition valid : string := "valid".
Definition pooling : string := "pooling".
Definition meta : string := "meta".

Definition msg_pool_ndim : string :=
  "Inputs to pooling op must have ndim=3, 4 or 5, corresponding to 1D, 2D and 3D inputs.".
Definition msg_conv_ndim : string :=
  "Inputs to conv operation should have ndim=3, 4, or 5,corresponding to 1D, 2D and 3D inputs.".
Definition msg_conv_transpose_ndim : string :=
  "Inputs to conv transpose operation should have ndim=3, 4, or 5,corresponding to 1D, 2D and 3D inputs.".
Definition msg_channels : string :=
  "The number of input channels must be evenly divisible by kernel.shape[1].".
Definition msg_same_shape : string :=
  "Arguments `target` and `output` must have the same shape.".
Definition msg_rank : string :=
  "Arguments `target` and `output` must be at least rank 1.".

Section Operations.

Context {A : Type}.

(** [d] is the element read outside a storage; [E] the engine; [cfg] the
    process-wide configuration; [epsilon], [float_one] and [float_sub] the
    fuzz factor of keras.backend.config and the float arithmetic of
    [1.0 - epsilon()]. *)
Variable d : A.
Variable E : engine A.
Variable cfg : config.
Variable epsilon : A.
Variable float_one : A.
Variable float_sub : A -> A -> A.

(** The shared helper of keras.backend.common.backend_utils that reconciles
    the padding arguments of a transposed convolution; the specification
    says nothing more of it, so it stays a parameter. *)
Variable compute_conv_transpose_padding_args_for_torch :
  list nat -> list nat -> list Z -> string -> option int_or_tuple ->
  int_or_tuple -> result (list Z * list Z).

Definition tnn_softmax (x : tensor A) (dim : Z) : result (tensor A) :=
  along_axis d (softmax1d E) x dim.

Definition tnn_log_softmax (x : tensor A) (dim : Z) : result (tensor A) :=
  along_axis d (log_softmax1d E) x dim.

(** Lines 88-96. *)
Definition softmax (x : tensor A) (axis : option Z) : result (tensor A) :=
  match axis with
  | None =>
      output <- reshape d x [-1] ;;
      output <- tnn_softmax output (-1) ;;
      reshape d output (map Z.of_nat (shape x))
  | Some axis => tnn_softmax x axis
  end.

(** Lines 99-107. *)
Definition log_softmax (x : tensor A) (axis : option Z) : result (tensor A) :=
  match axis with
  | None =>
      output <- reshape d x [-1] ;;
      output <- tnn_log_softmax output (-1) ;;
      reshape d output (map Z.of_nat (shape x))
  | Some axis => tnn_log_softmax x axis
  end.

(** The loop of lines 142-156: [padding] grows at its front, and the
    convolution branch rebinds [dilation_rate] to its standardized tuple. *)
Fixpoint same_padding_loop (spatial_shape kernel_size strides : list Z)
  (operation_type : string) (num_spatial_dims : Z) (range : list Z)
  (dilation_rate : int_or_tuple) (padding : list (Z * Z)) (mode : string)
  : result (list (Z * Z) * string) :=
  match range with
  | [] => Ok (padding, mode)
  | i :: rest =>
      if String.eqb operation_type pooling then
        a <- py_index spatial_shape i ;;
        k <- py_index kernel_size i ;;
        s <- py_index strides i ;;
        padding_size <- _compute_padding_length a k s 1 ;;
        same_padding_loop spatial_shape kernel_size strides operation_type
          num_spatial_dims rest dilation_rate (padding_size :: padding) "replicate"
      else
        dilation <- standardize_tuple dilation_rate num_spatial_dims "dilation_rate" ;;
        a <- py_index spatial_shape i ;;
        k <- py_index kernel_size i ;;
        s <- py_index strides i ;;
        dl <- py_index dilation i ;;
        padding_size <- _compute_padding_length a k s dl ;;
        same_padding_loop spatial_shape kernel_size strides operation_type
          num_spatial_dims rest (PTuple dilation) (padding_size :: padding) "constant"
  end.

(** Lines 122-164. *)
Definition _apply_same_padding (inputs : tensor A) (kernel_size strides : list Z)
  (operation_type : string) (dilation_rate : int_or_tuple)
  : result (tensor A * padding_arg) :=
  let spatial_shape := map Z.of_nat (skipn 2 (shape inputs)) in
  let num_spatial_dims := Z.of_nat (length spatial_shape) in
  '(padding, mode) <-
    same_padding_loop spatial_shape kernel_size strides operation_type
      num_spatial_dims (py_range 0 num_spatial_dims) dilation_rate [] "" ;;
  if forallb (fun lr => fst lr =? snd lr) padding
  then Ok (inputs, PadList (map fst padding))
  else
    let flattened_padding := flat_map (fun lr => [fst lr; snd lr]) padding in
    padded <- call (tnn_pad E inputs flattened_padding mode) ;;
    Ok (padded, PadInt 0).

(** The first lines of both pooling functions and of the convolutions:
    tuples standardized against the number of spatial dimensions. *)
Definition standardize_strides (pool_size : list Z) (strides : option int_or_tuple)
  (num_spatial_dims : Z) : result (list Z) :=
  match strides with
  | None => Ok pool_size
  | Some s => standardize_tuple s num_spatial_dims "strides"
  end.

Definition to_channels_first (data_format : string) (inputs : tensor A)
  : result (tensor A) :=
  if String.eqb data_format channels_last
  then _transpose_spatial_inputs inputs else Ok inputs.

Definition from_channels_first (data_format : string) (outputs : tensor A)
  : result (tensor A) :=
  if String.eqb data_format channels_last
  then _transpose_spatial_outputs outputs else Ok outputs.

(** Lines 211-269. *)
Definition max_pool (inputs : tensor A) (pool_size : int_or_tuple)
  (strides : option int_or_tuple) (padding : string)
  (data_format : option string) : result (tensor A) :=
  let num_spatial_dims := ndim inputs - 2 in
  pool_size <- standardize_tuple pool_size num_spatial_dims "pool_size" ;;
  strides <- standardize_strides pool_size strides num_spatial_dims ;;
  data_format <- standardize_data_format cfg data_format ;;
  inputs <- to_channels_first data_format inputs ;;
  '(inputs, padding) <-
    (if String.eqb padding same
     then _apply_same_padding inputs pool_size strides pooling (PInt 1)
     else Ok (inputs, PadInt 0)) ;;
  let inputs :=
    if String.eqb (device cfg) meta then torch_empty E (shape inputs) else inputs in
  outputs <-
    (if num_spatial_dims =? 1
     then call (tnn_max_pool E 1 inputs pool_size strides padding)
     else if num_spatial_dims =? 2
     then call (tnn_max_pool E 2 inputs pool_size strides padding)
     else if num_spatial_dims =? 3
     then call (tnn_max_pool E 3 inputs pool_size strides padding)
     else Raise (ValueError msg_pool_ndim)) ;;
  outputs <- call (tensor_to E outputs (device cfg)) ;;
  from_channels_first data_format outputs.

(** The loop of lines 297-308: the left padding of every dimension is
    collected, and each dimension with unequal sides adds the pair [0, 1] at
    the front of the explicit padding. *)
Fixpoint average_pool_padding_loop (spatial_shape pool_size strides : list Z)
  (range : list Z) (padding_value uneven_padding : list Z)
  : result (list Z * list Z) :=
  match range with
  | [] => Ok (padding_value, uneven_padding)
  | i :: rest =>
      a <- py_index spatial_shape i ;;
      k <- py_index pool_size i ;;
      s <- py_index strides i ;;
      padding_size <- _compute_padding_length a k s 1 ;;
      average_pool_padding_loop spatial_shape pool_size strides rest
        (padding_value ++ [fst padding_size])
        (if negb (fst padding_size =? snd padding_size)
         then [0; 1] ++ uneven_padding else uneven_padding)
  end.

(** Lines 272-345. *)
Definition average_pool (inputs : tensor A) (pool_size : int_or_tuple)
  (strides : option int_or_tuple) (padding : string)
  (data_format : option string) : result (tensor A) :=
  let num_spatial_dims := ndim inputs - 2 in
  pool_size <- standardize_tuple pool_size num_spatial_dims "pool_size" ;;
  strides <- standardize_strides pool_size strides num_spatial_dims ;;
  data_format <- standardize_data_format cfg data_format ;;
  inputs <- to_channels_first data_format inputs ;;
  '(inputs, num_spatial_dims, padding_value) <-
    (if String.eqb padding same then
       let spatial_shape := map Z.of_nat (skipn 2 (shape inputs)) in
       let num_spatial_dims := Z.of_nat (length spatial_shape) in
       '(padding_value, uneven_padding) <-
         average_pool_padding_loop spatial_shape pool_size strides
           (py_range 0 num_spatial_dims) [] [] ;;
       inputs <-
         (if (0 <? Z.of_nat (length uneven_padding))
          then call (tnn_pad E inputs uneven_padding "constant")
          else Ok inputs) ;;
       Ok (inputs, num_spatial_dims, PadList padding_value)
     else Ok (inputs, num_spatial_dims, PadInt 0)) ;;
  outputs <-
    (if num_spatial_dims =? 1
     then call (tnn_avg_pool E 1 inputs pool_size strides padding_value false)
     else if num_spatial_dims =? 2
     then call (tnn_avg_pool E 2 inputs pool_size strides padding_value false)
     else if num_spatial_dims =? 3
     then call (tnn_avg_pool E 3 inputs pool_size strides padding_value false)
     else Raise (ValueError msg_pool_ndim)) ;;
  from_channels_first data_format outputs.

(** Lines 348-421. *)
Definition conv (inputs kernel : tensor A) (strides : int_or_tuple)
  (padding : string) (data_format : option string)
  (dilation_rate : int_or_tuple) : result (tensor A) :=
  let num_spatial_dims := ndim inputs - 2 in
  strides <- standardize_tuple strides num_spatial_dims "strides" ;;
  data_format <- standardize_data_format cfg data_format ;;
  inputs <- to_channels_first data_format inputs ;;
  kernel <- _transpose_conv_kernel kernel ;;
  '(inputs, padding) <-
    (if String.eqb padding same && existsb (fun s => negb (s =? 1)) strides
     then _apply_same_padding inputs (map Z.of_nat (skipn 2 (shape kernel)))
            strides "conv" dilation_rate
     else Ok (inputs, PadStr padding)) ;;
  channels <- py_index (shape inputs) 1 ;;
  kernel_in_channels <- py_index (shape kernel) 1 ;;
  remainder <- py_mod (Z.of_nat channels) (Z.of_nat kernel_in_channels) ;;
  if 0 <? remainder then Raise (ValueError msg_channels)
  else
    groups <- py_floordiv (Z.of_nat channels) (Z.of_nat kernel_in_channels) ;;
    outputs <-
      (if num_spatial_dims =? 1
       then call (tnn_conv E 1 inputs kernel strides dilation_rate groups padding)
       else if num_spatial_dims =? 2
       then call (tnn_conv E 2 inputs kernel strides dilation_rate groups padding)
       else if num_spatial_dims =? 3
       then call (tnn_conv E 3 inputs kernel strides dilation_rate groups padding)
       else Raise (ValueError msg_conv_ndim)) ;;
    from_channels_first data_format outputs.

(** Lines 424-436. *)
Definition depthwise_conv (inputs kernel : tensor A) (strides : int_or_tuple)
  (padding : string) (data_format : option string)
  (dilation_rate : int_or_tuple) : result (tensor A) :=
  let s := shape kernel in
  k2 <- py_index s (-2) ;;
  k1 <- py_index s (-1) ;;
  kernel <- reshape d kernel
              (map Z.of_nat (firstn (length s - 2) s ++ [1%nat; (k2 * k1)%nat])) ;;
  conv inputs kernel strides padding data_format dilation_rate.

(** Lines 439-463. *)
Definition separable_conv (inputs depthwise_kernel pointwise_kernel : tensor A)
  (strides : int_or_tuple) (padding : string) (data_format : option string)
  (dilation_rate : int_or_tuple) : result (tensor A) :=
  depthwise_conv_output <-
    depthwise_conv inputs depthwise_kernel strides padding data_format
      dilation_rate ;;
  conv depthwise_conv_output pointwise_kernel (PInt 1) valid data_format
    dilation_rate.

(** Lines 466-535. *)
Definition conv_transpose (inputs kernel : tensor A) (strides : int_or_tuple)
  (padding : string) (output_padding : option int_or_tuple)
  (data_format : option string) (dilation_rate : int_or_tuple)
  : result (tensor A) :=
  let num_spatial_dims := ndim inputs - 2 in
  strides <- standardize_tuple strides num_spatial_dims "strides" ;;
  data_format <- standardize_data_format cfg data_format ;;
  '(torch_padding, torch_output_padding) <-
    compute_conv_transpose_padding_args_for_torch (shape inputs) (shape kernel)
      strides padding output_padding dilation_rate ;;
  inputs <- to_channels_first data_format inputs ;;
  kernel <- _transpose_conv_kernel kernel ;;
  let kernel_spatial_shape := skipn 2 (shape kernel) in
  let dilation_rate :=
    match dilation_rate with
    | PInt v => repeat v (length kernel_spatial_shape)
    | PTuple t => t
    end in
  outputs <-
    (if num_spatial_dims =? 1
     then call (tnn_conv_transpose E 1 inputs kernel strides torch_padding
                  torch_output_padding dilation_rate)
     else if num_spatial_dims =? 2
     then call (tnn_conv_transpose E 2 inputs kernel strides torch_padding
                  torch_output_padding dilation_rate)
     else if num_spatial_dims =? 3
     then call (tnn_conv_transpose E 3 inputs kernel strides torch_padding
                  torch_output_padding dilation_rate)
     else Raise (ValueError msg_conv_transpose_ndim)) ;;
  from_channels_first data_format outputs.

(** Lines 570-593. *)
Definition categorical_crossentropy (target output : tensor A)
  (from_logits : bool) (axis : Z) : result (tensor A) :=
  if negb (if list_eq_dec Nat.eq_dec (shape target) (shape output)
           then true else false)
  then Raise (ValueError msg_same_shape)
  else if Z.of_nat (length (shape target)) <? 1
  then Raise (ValueError msg_rank)
  else
    log_prob <-
      (if from_logits then tnn_log_softmax output axis
       else
         total <- call (torch_sum E output axis true) ;;
         output <- call (torch_div E output total) ;;
         output <- call (torch_clip E output epsilon (float_sub float_one epsilon)) ;;
         call (torch_log E output)) ;;
    weighted <- call (torch_mul E target log_prob) ;;
    summed <- call (torch_sum E weighted axis false) ;;
    call (torch_neg E summed).

(** Section 4.8 in its own words: the log-probabilities are the native
    log-softmax of the logits, or else the log of the output renormalised
    along [axis] and clamped into [epsilon, 1 - epsilon]; the loss is minus
    the sum along [axis] of target times log-probability. *)
Definition log_probabilities (output : tensor A) (from_logits : bool) (axis : Z)
  : result (tensor A) :=
  if from_logits then tnn_log_softmax output axis
  else
    total <- call (torch_sum E output axis true) ;;
    renormalised <- call (torch_div E output total) ;;
    clamped <- call (torch_clip E renormalised epsilon
                       (float_sub float_one epsilon)) ;;
    call (torch_log E clamped).

Definition crossentropy_formula (target output : tensor A) (from_logits : bool)
  (axis : Z) : result (tensor A) :=
  log_prob <- log_probabilities output from_logits axis ;;
  weighted <- call (torch_mul E target log_prob) ;;
  summed <- call (torch_sum E weighted axis false) ;;
  call (torch_neg E summed).

(** A padding pair whose two sides differ. *)
Definition uneven (p : Z * Z) : bool := negb (fst p =? snd p).

(** The padding pairs the loop of [average_pool] computes, one
    [_compute_padding_length] call per spatial dimension (lines 297-300). *)
Fixpoint computed_paddings (spatial_shape pool_size strides : list Z)
  (range : list Z) : result (list (Z * Z)) :=
  match range with
  | [] => Ok []
  | i :: rest =>
      a <- py_index spatial_shape i ;;
      k <- py_index pool_size i ;;
      s <- py_index strides i ;;
      padding_size <- _compute_padding_length a k s 1 ;;
      others <- computed_paddings spatial_shape pool_size strides rest ;;
      Ok (padding_size :: others)
  end.

End Operations.

(** ** One-hot encoding (lines 538-558) *)

(** [new_axes_order[ax] -= 1] for every [ax] of a range. *)
Fixpoint shift_axes (new_axes_order : list Z) (axs : list Z) : result (list Z) :=
  match axs with
  | [] => Ok new_axes_order
  | ax :: rest =>
      v <- py_index new_axes_order ax ;;
      l <- py_setitem new_axes_order ax (v - 1) ;;
      shift_axes l rest
  end.

Section OneHot.

(** [tnn.one_hot], the engine's kernel. *)
Variable tnn_one_hot : tensor Z -> Z -> result (tensor Z).

Definition one_hot (x : tensor Z) (num_classes : Z) (axis : Z)
  : result (tensor Z) :=
  output <- tnn_one_hot (maximum x 0) num_classes ;;
  expanded <- expand_dims x (-1) ;;
  output <- where_ (tmap (fun v => 0 <=? v) expanded) output 0 ;;
  let dims := ndim output in
  if negb (axis =? -1) && negb (axis =? dims) then
    new_axes_order <- py_setitem (py_range 0 dims) axis (-1) ;;
    new_axes_order <- shift_axes new_axes_order (py_range (axis + 1) dims) ;;
    permute output new_axes_order
  else Ok output.

End OneHot.

(** What the encoding relies on from the kernel: on class values within
    [0, C) it returns the indicator rows of length [C]. *)
Definition one_hot_kernel (k : tensor Z -> Z -> result (tensor Z)) : Prop :=
  forall (t : tensor Z) (C : nat),
    (0 < C)%nat ->
    (forall idx, in_bounds (shape t) idx -> 0 <= get 0 t idx < Z.of_nat C) ->
    exists out,
      k t (Z.of_nat C) = Ok out /\
      shape out = shape t ++ [C] /\
      forall idx c, in_bounds (shape t) idx -> (c < C)%nat ->
        get 0 out (idx ++ [c]) = if get 0 t idx =? Z.of_nat c then 1 else 0.

(** The kernel as torch runs it on the CPU (aten/native/Onehot.cpp): class
    values are checked against [0, num_classes) before the rows are
    written, and [num_classes = -1] infers the count from the largest value. *)
Definition tnn_one_hot_cpu (t : tensor Z) (num_classes : Z) : result (tensor Z) :=
  let entries := to_list 0 t in
  let rows (C : Z) :=
    tabulate (shape t ++ [Z.to_nat C])
      (fun idx => if get 0 t (removelast idx) =? Z.of_nat (last idx 0%nat)
                  then 1 else 0) in
  match entries with
  | [] =>
      if num_classes <=? 0
      then Raise (EngineError "Can not infer total number of classes from empty tensor.")
      else Ok (rows num_classes)
  | _ :: _ =>
      if existsb (fun v => v <? 0) entries
      then Raise (EngineError "Class values must be non-negative.")
      else
        let largest := fold_right Z.max 0 entries in
        if num_classes =? -1 then Ok (rows (largest + 1))
        else if num_classes <=? largest
             then Raise (EngineError "Class values must be smaller than num_classes.")
             else Ok (rows num_classes)
  end.

(** The rows of a two-dimensional tensor. *)
Definition rows_of (t : tensor Z) : list (list Z) :=
  match shape t with
  | [n; m] => map (fun i => map (fun j => get 0 t [i; j]) (seq 0 m)) (seq 0 n)
  | _ => []
  end.

(** ** Sparse and binary cross-entropy (lines 596-643) *)

(** [torch.squeeze(t, dim)]: dimension [dim] is dropped when its size is 1,
    and the tensor comes back as it is otherwise; the storage is shared. *)
Definition squeeze {A : Type} (t : tensor A) (dim : Z) : result (tensor A) :=
  match dims t with
  | [] =>
      if (dim =? -1) || (dim =? 0) then Ok t
      else Raise (EngineError "Dimension out of range")
  | _ :: _ =>
      match normalize_dim (length (dims t)) dim with
      | Some k =>
          if (nth k (shape t) 0%nat =? 1)%nat
          then Ok (mkTensor (storage t) (firstn k (dims t) ++ skipn (S k) (dims t)))
          else Ok t
      | None => Raise (EngineError "Dimension out of range")
      end
  end.

Definition msg_output_rank : string :=
  "Argument `output` must be at least rank 1.".
Definition msg_same_shape_until_last : string :=
  "Arguments `target` and `output` must have the same shape up until the last dimension:".

(** [a != b] on two shapes. *)
Definition shape_differs (a b : list nat) : bool :=
  if list_eq_dec Nat.eq_dec a b then false else true.

Section Losses.

Context {A : Type}.

(** [d], [E], [epsilon], [float_one] and [float_sub] are as in the operations
    above.  [tnn_one_hot] is the engine's one-hot kernel and [of_long] the
    conversion of its integers to the float dtype [one_hot] returns (line
    549; an elementwise conversion keeps the layout, so it is applied to the
    result of [one_hot]).  The last two are the native binary cross-entropy
    kernels, whose string argument is the [reduction]. *)
Variable d : A.
Variable E : engine A.
Variable epsilon : A.
Variable float_one : A.
Variable float_sub : A -> A -> A.
Variable tnn_one_hot : tensor Z -> Z -> result (tensor Z).
Variable of_long : Z -> A.
Variable tnn_binary_cross_entropy_with_logits :
  tensor A -> tensor A -> string -> native (tensor A).
Variable tnn_binary_cross_entropy :
  tensor A -> tensor A -> string -> native (tensor A).

(** Lines 596-622.  Without logits [output] is rebound to its renormalised
    and clipped value, and that is the tensor whose [shape[axis]] gives the
    number of classes. *)
Definition sparse_categorical_crossentropy (target : tensor Z)
  (output : tensor A) (from_logits : bool) (axis : Z) : result (tensor A) :=
  target <-
    (if (length (shape target) =? length (shape output))%nat then
       last_size <- py_index (shape target) (-1) ;;
       if (last_size =? 1)%nat then squeeze target (-1) else Ok target
     else Ok target) ;;
  if Z.of_nat (length (shape output)) <? 1
  then Raise (ValueError msg_output_rank)
  else if shape_differs (shape target) (removelast (shape output))
  then Raise (ValueError msg_same_shape_until_last)
  else
    '(output, log_prob) <-
      (if from_logits then
         log_prob <- tnn_log_softmax d E output axis ;;
         Ok (output, log_prob)
       else
         total <- call (torch_sum E output axis true) ;;
         output <- call (torch_div E output total) ;;
         output <- call (torch_clip E output epsilon (float_sub float_one epsilon)) ;;
         log_prob <- call (torch_log E output) ;;
         Ok (output, log_prob)) ;;
    num_classes <- py_index (shape output) axis ;;
    target <- one_hot tnn_one_hot target (Z.of_nat num_classes) axis ;;
    weighted <- call (torch_mul E (tmap of_long target) log_prob) ;;
    summed <- call (torch_sum E weighted axis false) ;;
    call (torch_neg E summed).

(** Lines 625-643. *)
Definition binary_crossentropy (target output : tensor A) (from_logits : bool)
  : result (tensor A) :=
  if shape_differs (shape target) (shape output)
  then Raise (ValueError msg_same_shape)
  else if from_logits
  then call (tnn_binary_cross_entropy_with_logits output target "none")
  else
    output <- call (torch_clip E output epsilon (float_sub float_one epsilon)) ;;
    call (tnn_binary_cross_entropy output target "none").

End Losses.

(** ** Multi-hot encoding (lines 561-567) *)

(** A cast to [int32] as torch performs it on an integer tensor: the values
    are reduced to the 32-bit two's-complement range, elementwise. *)
Definition wrap_int32 (v : Z) : Z := (v + 2147483648) mod 4294967296 - 2147483648.

Definition cast_int32 (x : tensor Z) (dtype : string) : tensor Z :=
  tmap wrap_int32 x.

Definition int32 : string := "int32".

(** What the encoding needs from the cast: on [x] it returns a well-formed
    tensor of the same shape and entries. *)
Definition cast_keeps (cast : tensor Z -> string -> tensor Z) (x : tensor Z)
  : Prop :=
  well_formed (cast x int32) /\
  shape (cast x int32) = shape x /\
  forall idx, in_bounds (shape x) idx -> get 0 (cast x int32) idx = get 0 x idx.

(** The largest element of a non-empty list. *)
Definition list_max (l : list Z) : Z :=
  match l with
  | [] => 0
  | a :: r => fold_right Z.max a r
  end.

Definition remove_nth {X : Type} (k : nat) (l : list X) : list X :=
  firstn k l ++ skipn (S k) l.

Definition insert_nth {X : Type} (k : nat) (v : X) (l : list X) : list X :=
  firstn k l ++ v :: skipn k l.

(** [torch.amax(t, dim)]: the maximum along one dimension, which the result
    no longer has; a dimension of size 0 has no maximum. *)
Definition amax (t : tensor Z) (dim : Z) : result (tensor Z) :=
  match dims t with
  | [] =>
      if (dim =? -1) || (dim =? 0) then Ok (tabulate [] (fun _ => get 0 t []))
      else Raise (EngineError "Dimension out of range")
  | _ :: _ =>
      match normalize_dim (length (dims t)) dim with
      | Some ax =>
          if (nth ax (shape t) 0%nat =? 0)%nat
          then Raise (EngineError "amax(): Expected reduction dim to have non-zero size.")
          else Ok (tabulate (remove_nth ax (shape t))
                     (fun idx => list_max (fiber 0 t (insert_nth ax 0%nat idx) ax)))
      | None => Raise (EngineError "Dimension out of range")
      end
  end.

Section MultiHot.

(** Modelled from the spec: [cast] of keras.backend.torch.core is not in the
    sources; section 6 lists it as "a dtype-cast function" the module
    consumes, so it is a parameter here, next to the engine's one-hot
    kernel. *)
Variable cast : tensor Z -> string -> tensor Z.
Variable tnn_one_hot : tensor Z -> Z -> result (tensor Z).

Definition multi_hot (x : tensor Z) (num_classes : Z) (axis : Z)
  : result (tensor Z) :=
  let reduction_axis := if 1 <? Z.of_nat (length (shape x)) then 1 else 0 in
  encoded <- one_hot tnn_one_hot (cast x int32) num_classes axis ;;
  amax encoded reduction_axis.

End MultiHot.

(** ** The padding pairs of a convolution (lines 149-154) *)

(** The padding pairs the convolution branch of [_apply_same_padding]
    computes, one [_compute_padding_length] call per spatial dimension with
    the dilation of that dimension. *)
Fixpoint dilated_paddings (spatial_shape kernel_size strides dilation : list Z)
  (range : list Z) : result (list (Z * Z)) :=
  match range with
  | [] => Ok []
  | i :: rest =>
      a <- py_index spatial_shape i ;;
      k <- py_index kernel_size i ;;
      s <- py_index strides i ;;
      dl <- py_index dilation i ;;
      padding_size <- _compute_padding_length a k s dl ;;
      others <- dilated_paddings spatial_shape kernel_size strides dilation rest ;;
      Ok (padding_size :: others)
  end.

(** ** Constant padding, as torch documents it *)

(** [torch.nn.functional.pad] reads its flat list as (left, right) pairs: the
    first pair is for the last dimension, the second for the one before it,
    and so on. *)
Fixpoint pad_pairs (pad : list Z) : option (list (Z * Z)) :=
  match pad with
  | [] => Some []
  | l :: r :: rest => option_map (cons (l, r)) (pad_pairs rest)
  | _ => None
  end.

(** The (left, right) amounts of each of [n] dimensions, first dimension
    first; the dimensions the list does not reach get (0, 0). *)
Definition dimension_pads (n : nat) (pad : list Z) : option (list (Z * Z)) :=
  match pad_pairs pad with
  | Some ps =>
      if (length ps <=? n)%nat
      then Some (repeat (0, 0) (n - length ps) ++ rev ps)
      else None
  | None => None
  end.

Definition padded_size (n : nat) (p : Z * Z) : Z := fst p + Z.of_nat n + snd p.

(** The cell of the input that a cell of the output copies, if there is
    one: the output index shifted back by the left amounts. *)
Fixpoint source_index (s : list nat) (ps : list (Z * Z)) (idx : list nat)
  : option (list nat) :=
  match s, ps, idx with
  | [], [], [] => Some []
  | n :: s', p :: ps', i :: idx' =>
      let j := Z.of_nat i - fst p in
      if (0 <=? j) && (j <? Z.of_nat n)
      then option_map (cons (Z.to_nat j)) (source_index s' ps' idx')
      else None
  | _, _, _ => None
  end.

Definition msg_pad_length : string := "padding list does not fit the input".
Definition msg_pad_negative : string := "padding leaves a negative size".

(** Constant-mode padding with fill value [value]: every dimension grows by
    its two amounts (a negative amount crops), the cells that come from the
    input keep their values and the others hold [value]. *)
Definition constant_pad {A : Type} (d value : A) (x : tensor A) (pad : list Z)
  : native (tensor A) :=
  match dimension_pads (length (dims x)) pad with
  | None => inl msg_pad_length
  | Some ps =>
      let sizes :=
        map (fun np => padded_size (fst np) (snd np)) (combine (shape x) ps) in
      if forallb (fun n => 0 <=? n) sizes
      then inr (tabulate (map Z.to_nat sizes)
                  (fun idx =>
                     match source_index (shape x) ps idx with
                     | Some j => get d x j
                     | None => value
                     end))
      else inl msg_pad_negative
  end.

(** What the module relies on when it calls [tnn.pad] in constant mode with
    the default fill value: the kernel returns a tensor with the shape and the
    entries of [constant_pad], in whatever layout. *)
Definition zero_fill_kernel {A : Type} (d zero : A)
  (k : tensor A -> list Z -> string -> native (tensor A)) : Prop :=
  forall x pad r,
    constant_pad d zero x pad = inr r ->
    exists out,
      k x pad "constant"%string = inr out /\
      shape out = shape r /\
      forall idx, in_bounds (shape r) idx -> get d out idx = get d r idx.

(** An engine over the integers whose [tnn_pad] is [constant_pad] with fill
    value 0 and whose average-pooling kernel returns the tensor it is handed,
    so that a run shows what the explicit padding did to the input. *)
Definition zero_fill_engine : engine Z := {|
  softmax1d := softmax1d (null_engine Z);
  log_softmax1d := log_softmax1d (null_engine Z);
  tnn_pad := fun x pad mode =>
    if String.eqb mode "constant" then constant_pad 0 0 x pad
    else inl unavailable;
  tnn_max_pool := tnn_max_pool (null_engine Z);
  tnn_avg_pool := fun _ x _ _ _ _ => inr x;
  tnn_conv := tnn_conv (null_engine Z);
  tnn_conv_transpose := tnn_conv_transpose (null_engine Z);
  torch_empty := torch_empty (null_engine Z);
  tensor_to := tensor_to (null_engine Z);
  torch_sum := torch_sum (null_engine Z);
  torch_div := torch_div (null_engine Z);
  torch_mul := torch_mul (null_engine Z);
  torch_clip := torch_clip (null_engine Z);
  torch_log := torch_log (null_engine Z);
  torch_neg := torch_neg (null_engine Z)
|}.

(** Padding sides that only add cells at the end of a dimension. *)
Definition trailing_only (p : Z * Z) : Prop := fst p = 0 /\ 0 <= snd p.

(** ** Moments (lines 646-688) *)

Definition msg_synchronized : string :=
  "Argument synchronized=True is not supported with PyTorch.".

Definition float16 : string := "float16".
Definition float32 : string := "float32".

Section Moments.

Context {A : Type}.

(** The torch calls of the function: [torch.mean(t, dim, keepdim)],
    [torch.square], the subtraction of two tensors and
    [torch.squeeze(t, dim)]; the clip is [torch_clip] of the engine [E], and
    [float16_min], [float16_max] are the two bounds that
    [torch.finfo(torch.float16)] gives. *)
Variable torch_mean : tensor A -> list Z -> bool -> native (tensor A).
Variable torch_square : tensor A -> native (tensor A).
Variable torch_sub : tensor A -> tensor A -> native (tensor A).
Variable torch_squeeze : tensor A -> list Z -> native (tensor A).
Variable E : engine A.
Variable float16_min : A.
Variable float16_max : A.

(** Modelled from the spec: [cast] of keras.backend.torch.core and
    [standardize_dtype] of keras.backend are not in the sources; section 4.9
    has the function upcast a half-precision input and cast the results
    back, so both are parameters. *)
Variable cast : tensor A -> string -> tensor A.
Variable standardize_dtype : string -> string.

(** Lines 646-688.  The tensor record carries no dtype: [x_dtype] is
    [x.dtype].  [mean.detach()] changes no value. *)
Definition moments (x : tensor A) (x_dtype : string) (axes : list Z)
  (keepdims synchronized : bool) : result (tensor A * tensor A) :=
  if synchronized then Raise (NotImplementedError msg_synchronized)
  else
    let ori_dtype := standardize_dtype x_dtype in
    let need_cast := String.eqb ori_dtype float16 in
    let x := if need_cast then cast x float32 else x in
    mean <- call (torch_mean x axes true) ;;
    squares <- call (torch_square x) ;;
    mean_of_squares <- call (torch_mean squares axes true) ;;
    square_of_mean <- call (torch_square mean) ;;
    variance <- call (torch_sub mean_of_squares square_of_mean) ;;
    '(mean, variance) <-
      (if negb keepdims then
         mean <- call (torch_squeeze mean axes) ;;
         variance <- call (torch_squeeze variance axes) ;;
         Ok (mean, variance)
       else Ok (mean, variance)) ;;
    if need_cast then
      mean <- call (torch_clip E mean float16_min float16_max) ;;
      variance <- call (torch_clip E variance float16_min float16_max) ;;
      Ok (cast mean ori_dtype, cast variance ori_dtype)
    else Ok (mean, variance).

End Moments.

(** ** Reductions over a set of axes *)

Definition reduced (axs : list nat) (k : nat) : bool := existsb (Nat.eqb k) axs.

(** The shape a reduction with [keepdim=True] leaves: size 1 on every reduced
    axis. *)
Definition reduced_shape (s : list nat) (axs : list nat) : list nat :=
  map (fun k => if reduced axs k then 1%nat else nth k s 0%nat)
    (seq 0 (length s)).

(** [idx'] agrees with [idx] on every axis that is not reduced. *)
Definition agrees_off (axs : list nat) (idx idx' : list nat) : bool :=
  forallb (fun k => reduced axs k || (nth k idx 0 =? nth k idx' 0)%nat)
    (seq 0 (length idx')).

(** The entries of [x] that the cell [idx] of a reduction gathers, in
    row-major order. *)
Definition fiber_over {A : Type} (d : A) (x : tensor A) (axs idx : list nat)
  : list A :=
  map (get d x) (filter (agrees_off axs idx) (indices (shape x))).

(** [x] takes one value (up to [eqv]) along the reduced axes. *)
Definition constant_along {A : Type} (eqv : A -> A -> Prop) (d : A)
  (x : tensor A) (axs : list nat) : Prop :=
  forall idx, in_bounds (reduced_shape (shape x) axs) idx ->
    forall v w, In v (fiber_over d x axs idx) -> In w (fiber_over d x axs idx) ->
      eqv v w.

(** The sizes [torch.squeeze(t, dim)] keeps: a listed axis goes when its
    size is 1. *)
Definition squeezed_shape (s : list nat) (axs : list nat) : list nat :=
  map snd
    (filter (fun kn => negb (reduced axs (fst kn) && (snd kn =? 1)%nat))
       (combine (seq 0 (length s)) s)).

(** ** Reference kernels over an arithmetic *)

(** The operations a reduction needs from its number type; [ar_count] turns
    an element count into a number. *)
Record arithmetic (A : Type) : Type := {
  ar_zero : A;
  ar_add : A -> A -> A;
  ar_sub : A -> A -> A;
  ar_mul : A -> A -> A;
  ar_div : A -> A -> A;
  ar_count : nat -> A
}.

Arguments ar_zero {A} a.
Arguments ar_add {A} a.
Arguments ar_sub {A} a.
Arguments ar_mul {A} a.
Arguments ar_div {A} a.
Arguments ar_count {A} a.

(** The mean of a list: the sum, accumulated from left to right, over the
    count. *)
Definition mean_of {A : Type} (F : arithmetic A) (l : list A) : A :=
  ar_div F (fold_left (ar_add F) l (ar_zero F)) (ar_count F (length l)).

Definition msg_dim : string := "Dimension out of range".
Definition msg_dim_twice : string :=
  "dim appears multiple times in the list of dims".
Definition msg_sizes : string := "The sizes of the tensors must match".

Fixpoint has_duplicates (l : list nat) : bool :=
  match l with
  | [] => false
  | a :: r => existsb (Nat.eqb a) r || has_duplicates r
  end.

(** The axes a list of dims names: torch rejects a dim out of range and a
    dimension named twice. *)
Definition named_axes (n : nat) (dim : list Z) : native (list nat) :=
  match normalize_dims n dim with
  | None => inl msg_dim
  | Some axs => if has_duplicates axs then inl msg_dim_twice else inr axs
  end.

(** [torch.squeeze(t, dim)] with a list of axes; the reference returns a
    contiguous copy where torch returns a view of the same entries. *)
Definition squeeze_dims {A : Type} (d : A) (t : tensor A) (dim : list Z)
  : native (tensor A) :=
  match named_axes (length (dims t)) dim with
  | inl msg => inl msg
  | inr axs =>
      inr (mkTensor (to_list d t) (contiguous (squeezed_shape (shape t) axs)))
  end.

(** [torch.mean(x, dim, keepdim)]; an empty list of dims reduces over every
    dimension. *)
Definition mean_over {A : Type} (F : arithmetic A) (d : A) (x : tensor A)
  (dim : list Z) (keepdim : bool) : native (tensor A) :=
  match named_axes (length (dims x)) dim with
  | inl msg => inl msg
  | inr axs =>
      let axs :=
        match dim with
        | [] => seq 0 (length (dims x))
        | _ :: _ => axs
        end in
      let kept :=
        tabulate (reduced_shape (shape x) axs)
          (fun idx => mean_of F (fiber_over d x axs idx)) in
      if keepdim then inr kept else squeeze_dims d kept dim
  end.

(** [torch.square]. *)
Definition square {A : Type} (F : arithmetic A) (x : tensor A)
  : native (tensor A) :=
  inr (tmap (fun v => ar_mul F v v) x).

(** The subtraction of two tensors of one shape (the reference does not
    broadcast: [moments] subtracts two results of the same reduction). *)
Definition subtract {A : Type} (F : arithmetic A) (d : A) (a b : tensor A)
  : native (tensor A) :=
  if shape_differs (shape a) (shape b) then inl msg_sizes
  else inr (tabulate (shape a)
              (fun idx => ar_sub F (get d a idx) (get d b idx))).

(** Exact arithmetic: the rationals. *)
Definition rationals : arithmetic Q := {|
  ar_zero := 0%Q;
  ar_add := Qplus;
  ar_sub := Qminus;
  ar_mul := Qmult;
  ar_div := Qdiv;
  ar_count := fun n => inject_Z (Z.of_nat n)
|}.

(** IEEE 754 binary arithmetic with round-to-nearest-even, of precision
    [prec] and exponent bound [emax]. *)
Definition floating (prec emax : Z) : arithmetic spec_float := {|
  ar_zero := S754_zero false;
  ar_add := SFadd prec emax;
  ar_sub := SFsub prec emax;
  ar_mul := SFmul prec emax;
  ar_div := SFdiv prec emax;
  ar_count := fun n => binary_normalize prec emax (Z.of_nat n) 0 false
|}.

Definition binary32 : arithmetic spec_float := floating 24 128.
Definition binary64 : arithmetic spec_float := floating 53 1024.

(** The float32 nearest to one tenth, 13421773 * 2^-27, and the binary64
    one, 7205759403792794 * 2^-56. *)
Definition tenth32 : spec_float := S754_finite false 13421773 (-27).
Definition tenth64 : spec_float := S754_finite false 7205759403792794 (-56).

(** ** What exact kernels do *)

(** A mean kernel over the rationals that is exact wherever a cell gathers
    at least one entry, on a non-empty list of distinct dims. *)
Definition exact_mean (k : tensor Q -> list Z -> bool -> native (tensor Q))
  : Prop :=
  forall x dim axs,
    dim <> [] ->
    normalize_dims (length (dims x)) dim = Some axs ->
    NoDup axs ->
    exists out,
      k x dim true = inr out /\
      shape out = reduced_shape (shape x) axs /\
      forall idx, in_bounds (shape out) idx ->
        fiber_over 0%Q x axs idx <> [] ->
        (get 0 out idx == mean_of rationals (fiber_over 0 x axs idx))%Q.

Definition exact_square (k : tensor Q -> native (tensor Q)) : Prop :=
  forall x,
    exists out,
      k x = inr out /\
      shape out = shape x /\
      forall idx, in_bounds (shape x) idx ->
        (get 0 out idx == get 0 x idx * get 0 x idx)%Q.

Definition exact_sub (k : tensor Q -> tensor Q -> native (tensor Q)) : Prop :=
  forall a b,
    shape a = shape b ->
    exists out,
      k a b = inr out /\
      shape out = shape a /\
      forall idx, in_bounds (shape a) idx ->
        (get 0 out idx == get 0 a idx - get 0 b idx)%Q.

(** A squeeze keeps the entries and their order. *)
Definition keeps_entries {A : Type} (d : A)
  (k : tensor A -> list Z -> native (tensor A)) : Prop :=
  forall t dim axs,
    normalize_dims (length (dims t)) dim = Some axs ->
    NoDup axs ->
    exists out, k t dim = inr out /\ to_list d out = to_list d t.

(** * Properties *)

(** ** Padding length *)












(** ** Layout transposition *)

Section Layout.
Context {A : Type}.

Ltac by_rank t :=
  destruct t as [st ds];
  destruct ds as [|d0 [|d1 [|d2 [|d3 [|d4 [|d5 ds]]]]]];
  unfold ndim in *; cbn [dims length] in *.

Lemma permute_ndim (t t' : tensor A) (p : list Z) :
  permute t p = Ok t' -> ndim t' = ndim t.
Proof.
  unfold permute.
  destruct (normalize_dims (length (dims t)) p) as [q|]; [|discriminate].
  destruct (is_permutation_of_range q (length (dims t))) eqn:Hp; [|discriminate].
  intros [= <-]. unfold ndim; cbn [dims]. rewrite length_map.
  unfold is_permutation_of_range in Hp.
  apply andb_true_iff in Hp as [Hlen _].
  apply Nat.eqb_eq in Hlen. now rewrite Hlen.
Qed.

Lemma transpose_spatial_inputs_ndim (t t' : tensor A) :
  _transpose_spatial_inputs t = Ok t' -> ndim t' = ndim t.
Proof.
  unfold _transpose_spatial_inputs.
  repeat (match goal with |- context [if ?b then _ else _] => destruct b end);
    try discriminate; apply permute_ndim.
Qed.

Lemma transpose_spatial_outputs_total (t : tensor A) :
  exists t', _transpose_spatial_outputs t = Ok t' /\ ndim t' = ndim t.
Proof.
  by_rank t; try (eexists; split; reflexivity).
  unfold _transpose_spatial_outputs, shape; cbn [dims map length].
  repeat (match goal with
          | |- context [?a =? ?b] => destruct (Z.eqb_spec a b); [lia|]
          end).
  eexists; split; reflexivity.
Qed.

(** Outside ranks 3 to 5 the output helper is the identity and the input
    helper raises. *)
Lemma transpose_spatial_outside (t : tensor A) :
  ~ 3 <= ndim t <= 5 ->
  _transpose_spatial_outputs t = Ok t /\
  _transpose_spatial_inputs t = Raise (ValueError msg_inputs_ndim).
Proof.
  intros Hr. by_rank t; try lia; try (split; reflexivity).
  unfold _transpose_spatial_outputs, _transpose_spatial_inputs, shape, ndim.
  cbn [dims map length].
  repeat (match goal with
          | |- context [?a =? ?b] => destruct (Z.eqb_spec a b); [lia|]
          end).
  split; reflexivity.
Qed.

(** C10: on ranks 3 to 5 the output permutation undoes the input one and both
    keep the rank; on any other rank the output helper returns its argument
    and the input helper raises [ValueError]. *)
Theorem transpose_spatial_roundtrip (t : tensor A) :
  (3 <= ndim t <= 5 ->
   exists t', _transpose_spatial_inputs t = Ok t' /\ ndim t' = ndim t /\
              _transpose_spatial_outputs t' = Ok t) /\
  (exists t', _transpose_spatial_outputs t = Ok t' /\ ndim t' = ndim t) /\
  (~ 3 <= ndim t <= 5 ->
   _transpose_spatial_outputs t = Ok t /\
   _transpose_spatial_inputs t = Raise (ValueError msg_inputs_ndim)).
Proof.
  split; [|split].
  - intros Hr. by_rank t; try lia;
      (eexists; split; [reflexivity|split; reflexivity]).
  - apply transpose_spatial_outputs_total.
  - apply transpose_spatial_outside.
Qed.

(** What the permutation means on elements: channels-last entry
    [n, h, w, c] is channels-first entry [n, c, h, w]. *)
Lemma transpose_spatial_inputs_get (d : A) (t t' : tensor A) (n h w c : nat) :
  ndim t = 4 ->
  _transpose_spatial_inputs t = Ok t' ->
  get d t' [n; c; h; w] = get d t [n; h; w; c].
Proof.
  intros Hr. by_rank t; try lia. intros [= <-].
  destruct d0, d1, d2, d3. unfold get; cbn. f_equal. lia.
Qed.

End Layout.

Lemma transpose_spatial_roundtrip_witness :
  exists t', _transpose_spatial_inputs (tabulate [1; 2; 2; 3]%nat offset_id) = Ok t' /\
             ndim t' = 4 /\
             _transpose_spatial_outputs t' = Ok (tabulate [1; 2; 2; 3]%nat offset_id).
Proof.
  apply (proj1 (transpose_spatial_roundtrip (tabulate [1; 2; 2; 3]%nat offset_id))).
  vm_compute. split; discriminate.
Defined.

(** ** Tensor facts *)

Lemma in_bounds_length (s idx : list nat) :
  in_bounds s idx -> length idx = length s.
Proof. apply Forall2_length. Qed.

Lemma in_indices (s idx : list nat) :
  In idx (indices s) <-> in_bounds s idx.
Proof.
  revert idx. induction s as [|n r IH]; intros idx; cbn [indices].
  - split.
    + intros [<-|[]]. constructor.
    + intros H. inversion H. now left.
  - rewrite in_flat_map. split.
    + intros (i & Hi & Hin). apply in_map_iff in Hin as (tl & <- & Htl).
      apply in_seq in Hi. constructor; [lia|now apply IH].
    + intros H. inversion H as [|i n' tl r' Hlt Htl]; subst.
      exists i. split; [apply in_seq; lia|].
      apply in_map, IH, Htl.
Qed.

Lemma length_indices (s : list nat) : length (indices s) = numel_of s.
Proof.
  induction s as [|n r IH]; [reflexivity|].
  cbn [indices numel_of fold_right]. fold (numel_of r). rewrite <- IH.
  generalize 0%nat. induction n as [|n IHn]; intros a; [reflexivity|].
  cbn [seq flat_map]. rewrite length_app, length_map, IHn. reflexivity.
Qed.

Lemma shape_contiguous (s : list nat) : map fst (contiguous s) = s.
Proof. induction s as [|n r IH]; cbn; [|rewrite IH]; reflexivity. Qed.

Lemma shape_tabulate {A : Type} (s : list nat) (f : list nat -> A) :
  shape (tabulate s f) = s.
Proof. apply shape_contiguous. Qed.

Lemma offset_lt (s idx : list nat) :
  in_bounds s idx -> (offset (contiguous s) idx < numel_of s)%nat.
Proof.
  intros H. induction H as [|i n tl r Hlt _ IH]; cbn; [lia|].
  fold (numel_of r). nia.
Qed.

(** Entry [i * m + j] of [n] blocks of length [m] is entry [j] of block [i]. *)
Lemma nth_error_blocks {B : Type} (g : nat -> list B) (m n a i j : nat) :
  (forall k, length (g k) = m) -> (i < n)%nat -> (j < m)%nat ->
  nth_error (flat_map g (seq a n)) (i * m + j) = nth_error (g (a + i)%nat) j.
Proof.
  intros Hlen. revert a i. induction n as [|n IH]; intros a i Hi Hj; [lia|].
  cbn [seq flat_map]. destruct i as [|i].
  - rewrite nth_error_app1 by (rewrite Hlen; lia).
    now rewrite Nat.add_0_r.
  - rewrite nth_error_app2 by (rewrite Hlen; lia).
    rewrite Hlen. replace (S i * m + j - m)%nat with (i * m + j)%nat by lia.
    rewrite IH by lia. f_equal. f_equal. lia.
Qed.

Lemma nth_error_indices (s idx : list nat) :
  in_bounds s idx ->
  nth_error (indices s) (offset (contiguous s) idx) = Some idx.
Proof.
  intros H. induction H as [|i n tl r Hlt Htl IH]; [reflexivity|].
  cbn [indices contiguous offset].
  rewrite (nth_error_blocks _ (numel_of r)).
  - cbn [Nat.add]. rewrite nth_error_map, IH. reflexivity.
  - intros k. now rewrite length_map, length_indices.
  - exact Hlt.
  - now apply offset_lt.
Qed.

Lemma get_tabulate {A : Type} (d : A) (s idx : list nat) (f : list nat -> A) :
  in_bounds s idx -> get d (tabulate s f) idx = f idx.
Proof.
  intros H. unfold get, tabulate; cbn [storage dims].
  apply nth_error_nth. rewrite nth_error_map, nth_error_indices by assumption.
  reflexivity.
Qed.

Lemma get_tmap {A B : Type} (f : A -> B) (d : A) (t : tensor A) (idx : list nat) :
  get (f d) (tmap f t) idx = f (get d t idx).
Proof. unfold get, tmap; cbn [storage dims]. apply map_nth. Qed.

Lemma well_formed_tabulate {A : Type} (s : list nat) (f : list nat -> A) :
  well_formed (tabulate s f).
Proof.
  intros idx H. rewrite shape_tabulate in H. cbn [tabulate dims storage].
  rewrite length_map, length_indices. now apply offset_lt.
Qed.

Lemma well_formed_vector {A : Type} (l : list A) : well_formed (vector l).
Proof.
  intros idx H. unfold vector, shape in *. cbn [dims storage] in *.
  rewrite shape_contiguous in H. apply offset_lt in H.
  cbn in H |- *. lia.
Qed.

Lemma get_tmap_in {A B : Type} (f : A -> B) (d : A) (e : B)
  (t : tensor A) (idx : list nat) :
  well_formed t -> in_bounds (shape t) idx ->
  get e (tmap f t) idx = f (get d t idx).
Proof.
  intros Hwf Hin. transitivity (get (f d) (tmap f t) idx); [|apply get_tmap].
  unfold get, tmap; cbn [storage dims].
  apply nth_indep. rewrite length_map. now apply Hwf.
Qed.

Lemma offset_snoc (ds : list (nat * nat)) (idx : list nat) (n st c : nat) :
  length idx = length ds ->
  offset (ds ++ [(n, st)]) (idx ++ [c]) = (offset ds idx + c * st)%nat.
Proof.
  revert idx. induction ds as [|[m s] ds IH]; intros [|i idx] Hlen;
    try discriminate; cbn in *; [lia|].
  rewrite IH by lia. lia.
Qed.

Lemma offset_stride_zero (ds : list (nat * nat)) (idx : list nat) :
  Forall (fun p => snd p = 0%nat) ds -> offset ds idx = 0%nat.
Proof.
  intros H. revert idx. induction H as [|[m s] ds Hs _ IH]; intros [|i idx];
    cbn in *; try reflexivity.
  rewrite IH, Hs. lia.
Qed.

Lemma expand_rev_same (ds : list (nat * nat)) : expand_rev ds (map fst ds) = ds.
Proof.
  induction ds as [|[m s] ds IH]; cbn; [reflexivity|].
  now rewrite Nat.eqb_refl, IH.
Qed.

Lemma expand_rev_nil (s : list nat) :
  Forall (fun p => snd p = 0%nat) (expand_rev [] s).
Proof. induction s as [|n s IH]; cbn; constructor; auto. Qed.

Lemma dims_expand_same {A : Type} (t : tensor A) :
  dims (expand t (shape t)) = dims t.
Proof.
  unfold expand, shape; cbn [dims].
  now rewrite <- map_rev, expand_rev_same, rev_involutive.
Qed.

Lemma get_expand_same {A : Type} (d : A) (t : tensor A) (s idx : list nat) :
  shape t = s -> get d (expand t s) idx = get d t idx.
Proof.
  intros <-. unfold get. now rewrite dims_expand_same.
Qed.

Lemma get_expand_scalar {A : Type} (d v : A) (s idx : list nat) :
  get d (expand (scalar v) s) idx = v.
Proof.
  unfold get, expand, scalar; cbn [dims storage rev].
  rewrite offset_stride_zero; [reflexivity|].
  apply Forall_rev, expand_rev_nil.
Qed.

(** A trailing dimension of size 1 stretched to [C] reads the same element
    at every position. *)
Lemma get_expand_last {A : Type} (d : A) (t : tensor A) (st C c : nat)
  (idx : list nat) :
  length idx = length (dims t) -> (c < C)%nat ->
  get d (expand (mkTensor (storage t) (dims t ++ [(1, st)%nat]))
           (shape t ++ [C])) (idx ++ [c]) = get d t idx.
Proof.
  intros Hlen Hc. unfold get, expand, shape; cbn [dims storage].
  rewrite !rev_app_distr; cbn [rev app expand_rev].
  rewrite <- map_rev, expand_rev_same, rev_involutive.
  destruct (Nat.eqb_spec 1 C) as [<-|_]; rewrite offset_snoc by assumption;
    f_equal; lia.
Qed.

Lemma broadcast_rev_refl (l : list nat) : broadcast_rev l l = Some l.
Proof.
  induction l as [|x l IH]; cbn; [reflexivity|].
  now rewrite IH, Nat.eqb_refl.
Qed.

Lemma broadcast_shapes_last (s : list nat) (C : nat) :
  broadcast_shapes (s ++ [1%nat]) (s ++ [C]) = Some (s ++ [C]).
Proof.
  unfold broadcast_shapes. rewrite !rev_app_distr; cbn [rev app broadcast_rev].
  rewrite broadcast_rev_refl.
  destruct (Nat.eqb_spec 1 C) as [<-|_]; cbn [option_map rev Nat.eqb];
    now rewrite rev_involutive.
Qed.

Lemma broadcast_shapes_scalar (s : list nat) : broadcast_shapes s [] = Some s.
Proof.
  unfold broadcast_shapes; cbn [rev].
  destruct (rev s) as [|x l] eqn:E.
  - apply (f_equal (@rev nat)) in E. rewrite rev_involutive in E. now subst.
  - cbn [broadcast_rev option_map]. now rewrite <- E, rev_involutive.
Qed.

Lemma in_bounds_snoc (s idx : list nat) (C c : nat) :
  in_bounds s idx -> (c < C)%nat -> in_bounds (s ++ [C]) (idx ++ [c]).
Proof.
  intros H Hc. apply Forall2_app; [assumption|]. constructor; [assumption|constructor].
Qed.

(** ** One-hot encoding *)

Lemma unsqueeze_last {A : Type} (t : tensor A) :
  unsqueeze t (-1) = Ok (mkTensor (storage t) (dims t ++ [(1, 1)%nat])).
Proof.
  unfold unsqueeze, normalize_dim.
  replace (if -1 <? 0 then -1 + Z.of_nat (S (length (dims t))) else -1)
    with (Z.of_nat (length (dims t))) by (cbn [Z.ltb Z.compare]; lia).
  destruct (Z.leb_spec 0 (Z.of_nat (length (dims t)))); [|lia].
  destruct (Z.ltb_spec (Z.of_nat (length (dims t)))
              (Z.of_nat (S (length (dims t))))); [|lia].
  cbn [andb]. rewrite Nat2Z.id, firstn_all, skipn_all. reflexivity.
Qed.

(** The selection of line 548: rows of non-negative entries are kept, the
    others are overwritten with zeros. *)
Lemma where_nonnegative_rows (x out0 : tensor Z) (C : nat) :
  well_formed x ->
  shape out0 = shape x ++ [C] ->
  exists out,
    (expanded <- expand_dims x (-1) ;;
     where_ (tmap (fun v => 0 <=? v) expanded) out0 0) = Ok out /\
    shape out = shape x ++ [C] /\
    dims out = contiguous (shape x ++ [C]) /\
    forall idx c, in_bounds (shape x) idx -> (c < C)%nat ->
      get 0 out (idx ++ [c]) =
        if 0 <=? get 0 x idx then get 0 out0 (idx ++ [c]) else 0.
Proof.
  intros Hwf Hshape.
  unfold expand_dims. rewrite unsqueeze_last. cbn [bind].
  unfold where_, torch_where.
  assert (shape (tmap (fun v => 0 <=? v)
                   (mkTensor (storage x) (dims x ++ [(1, 1)%nat])))
          = shape x ++ [1%nat]) as ->
    by (unfold shape, tmap; cbn [dims]; now rewrite map_app).
  rewrite Hshape, broadcast_shapes_last.
  change (shape (scalar 0)) with (@nil nat).
  rewrite broadcast_shapes_scalar.
  eexists. split; [reflexivity|]. split; [apply shape_tabulate|].
  split; [reflexivity|].
  intros idx c Hidx Hc.
  rewrite get_tabulate by (now apply in_bounds_snoc).
  change (tmap (fun v => 0 <=? v) (mkTensor (storage x) (dims x ++ [(1, 1)%nat])))
    with (mkTensor (storage (tmap (fun v => 0 <=? v) x))
            (dims (tmap (fun v => 0 <=? v) x) ++ [(1, 1)%nat])).
  change (shape x) with (shape (tmap (fun v => 0 <=? v) x)) at 1.
  rewrite get_expand_last.
  - rewrite (get_tmap_in _ 0) by assumption.
    rewrite get_expand_same by assumption.
    now rewrite get_expand_scalar.
  - apply in_bounds_length in Hidx. unfold shape in Hidx.
    now rewrite length_map in Hidx.
  - exact Hc.
Qed.

Section OneHotFacts.

Variable tnn_one_hot : tensor Z -> Z -> result (tensor Z).
Hypothesis kernel_ok : one_hot_kernel tnn_one_hot.

Lemma one_hot_rows (x : tensor Z) (C : nat) :
  well_formed x -> (0 < C)%nat ->
  (forall idx, in_bounds (shape x) idx -> get 0 x idx < Z.of_nat C) ->
  exists out,
    one_hot tnn_one_hot x (Z.of_nat C) (-1) = Ok out /\
    shape out = shape x ++ [C] /\
    forall idx c, in_bounds (shape x) idx -> (c < C)%nat ->
      get 0 out (idx ++ [c]) =
        if (0 <=? get 0 x idx) && (get 0 x idx =? Z.of_nat c) then 1 else 0.
Proof.
  intros Hwf HC Hlt.
  assert (forall idx, get 0 (maximum x 0) idx = Z.max (get 0 x idx) 0) as Hmax
    by (intros idx; apply (get_tmap (fun a => Z.max a 0) 0)).
  destruct (kernel_ok (maximum x 0) C HC) as (out0 & Hk & Hs0 & Hg0).
  { intros idx Hidx. rewrite Hmax. specialize (Hlt idx Hidx). lia. }
  destruct (where_nonnegative_rows x out0 C Hwf Hs0) as (out & Hw & Hs & _ & Hg).
  exists out. split; [|split; [exact Hs|]].
  - unfold one_hot. rewrite Hk. cbn [bind].
    unfold bind in Hw |- *.
    destruct (expand_dims x (-1)) as [xe|e]; [|discriminate].
    rewrite Hw. reflexivity.
  - intros idx c Hidx Hc. rewrite Hg by assumption.
    destruct (Z.leb_spec 0 (get 0 x idx)) as [Hpos|Hneg]; [|reflexivity].
    change (shape x) with (shape (maximum x 0)) in Hidx.
    rewrite Hg0, Hmax by assumption.
    rewrite Z.max_l by lia. reflexivity.
Qed.

End OneHotFacts.

Lemma entries_in_range (l : list Z) (C : Z) :
  0 < C -> Forall (fun v => 0 <= v < C) l ->
  existsb (fun v => v <? 0) l = false /\ fold_right Z.max 0 l < C.
Proof.
  intros HC H. induction H as [|v l Hv _ [IH1 IH2]]; cbn; [split; [reflexivity|lia]|].
  rewrite IH1. split; [|lia].
  destruct (Z.ltb_spec v 0); [lia|reflexivity].
Qed.

(** The CPU kernel meets the contract the encoding relies on. *)
Lemma tnn_one_hot_cpu_kernel : one_hot_kernel tnn_one_hot_cpu.
Proof.
  intros t C HC Hrange.
  assert (Forall (fun v => 0 <= v < Z.of_nat C) (to_list 0 t)) as Hall.
  { apply Forall_forall. intros v Hv. unfold to_list in Hv.
    apply in_map_iff in Hv as (idx & <- & Hidx).
    apply Hrange, in_indices, Hidx. }
  destruct (entries_in_range _ (Z.of_nat C) ltac:(lia) Hall) as [Hneg Hmax].
  exists (tabulate (shape t ++ [C])
            (fun idx => if get 0 t (removelast idx) =? Z.of_nat (last idx 0%nat)
                        then 1 else 0)).
  split; [|split].
  - unfold tnn_one_hot_cpu. rewrite Nat2Z.id.
    destruct (to_list 0 t) as [|v l] eqn:E.
    + destruct (Z.leb_spec (Z.of_nat C) 0); [lia|reflexivity].
    + rewrite Hneg.
      destruct (Z.eqb_spec (Z.of_nat C) (-1)); [lia|].
      destruct (Z.leb_spec (Z.of_nat C) (fold_right Z.max 0 (v :: l))); [lia|].
      reflexivity.
  - apply shape_tabulate.
  - intros idx c Hidx Hc.
    rewrite get_tabulate by (now apply in_bounds_snoc).
    now rewrite removelast_last, last_last.
Qed.

(** C2, as the code has it: given a kernel that encodes class values within
    [0, num_classes), every entry [k] of [x] below [num_classes] yields a row
    of length [num_classes] that is all zero when [k] is negative and has its
    single one at position [k] otherwise; in particular
    [one_hot([-1, 0, 2], 3)] is [[0,0,0],[1,0,0],[0,0,1]]. *)
Theorem one_hot_masks_negatives
  (tnn_one_hot : tensor Z -> Z -> result (tensor Z)) (x : tensor Z) (C : nat) :
  one_hot_kernel tnn_one_hot ->
  well_formed x -> (0 < C)%nat ->
  (forall idx, in_bounds (shape x) idx -> get 0 x idx < Z.of_nat C) ->
  (exists out,
     one_hot tnn_one_hot x (Z.of_nat C) (-1) = Ok out /\
     shape out = shape x ++ [C] /\
     forall idx c, in_bounds (shape x) idx -> (c < C)%nat ->
       get 0 out (idx ++ [c]) =
         if (0 <=? get 0 x idx) && (get 0 x idx =? Z.of_nat c) then 1 else 0) /\
  (exists out,
     one_hot tnn_one_hot (vector [-1; 0; 2]) 3 (-1) = Ok out /\
     rows_of out = [[0; 0; 0]; [1; 0; 0]; [0; 0; 1]]).
Proof.
  intros Hk Hwf HC Hlt. split; [now apply one_hot_rows|].
  destruct (one_hot_rows tnn_one_hot Hk (vector [-1; 0; 2]) 3) as (out & Ho & Hs & Hg).
  - apply well_formed_vector.
  - lia.
  - intros idx Hidx. inversion Hidx as [|i n tl r Hi Htl]; subst.
    inversion Htl; subst.
    destruct i as [|[|[|i]]]; cbn; lia.
  - exists out. split; [exact Ho|].
    unfold rows_of. rewrite Hs. cbn [shape vector dims contiguous map fst app length].
    assert (forall i c, (i < 3)%nat -> (c < 3)%nat ->
              get 0 out [i; c] =
                if (0 <=? get 0 (vector [-1; 0; 2]) [i])
                   && (get 0 (vector [-1; 0; 2]) [i] =? Z.of_nat c)
                then 1 else 0) as Hrow.
    { intros i c Hi Hc. apply (Hg [i] c); [|exact Hc].
      constructor; [exact Hi|constructor]. }
    cbn [seq map]. rewrite !Hrow by lia. reflexivity.
Qed.

Lemma one_hot_masks_negatives_witness :
  (exists out,
     one_hot tnn_one_hot_cpu (tabulate [2; 2]%nat (fun idx => offset_id idx - 1))
       (Z.of_nat 11) (-1) = Ok out /\
     shape out = shape (tabulate [2; 2]%nat (fun idx => offset_id idx - 1)) ++ [11%nat] /\
     forall idx c,
       in_bounds (shape (tabulate [2; 2]%nat (fun idx => offset_id idx - 1))) idx ->
       (c < 11)%nat ->
       get 0 out (idx ++ [c]) =
         if (0 <=? get 0 (tabulate [2; 2]%nat (fun idx => offset_id idx - 1)) idx)
            && (get 0 (tabulate [2; 2]%nat (fun idx => offset_id idx - 1)) idx
                =? Z.of_nat c)
         then 1 else 0) /\
  (exists out,
     one_hot tnn_one_hot_cpu (vector [-1; 0; 2]) 3 (-1) = Ok out /\
     rows_of out = [[0; 0; 0]; [1; 0; 0]; [0; 0; 1]]).
Proof.
  apply (one_hot_masks_negatives tnn_one_hot_cpu
           (tabulate [2; 2]%nat (fun idx => offset_id idx - 1)) 11).
  - exact tnn_one_hot_cpu_kernel.
  - apply well_formed_tabulate.
  - lia.
  - intros idx Hidx. rewrite shape_tabulate in Hidx.
    rewrite get_tabulate by assumption.
    inversion Hidx as [|i n tl r Hi Htl]; subst.
    inversion Htl as [|j m tl' r' Hj Htl']; subst. inversion Htl'; subst.
    destruct i as [|[|i]]; destruct j as [|[|j]]; cbn; lia.
Defined.

(** C2 as stated fails: an entry equal to [num_classes] is not negative, the
    code passes it on unchanged, and the CPU kernel rejects it; no row of
    length 3 has a position 3 either. *)
Lemma one_hot_rejects_large_class :
  one_hot tnn_one_hot_cpu (vector [3]) 3 (-1) =
    Raise (EngineError "Class values must be smaller than num_classes.").
Proof. vm_compute. reflexivity. Qed.

(** ** Normalised exponentials *)

Lemma length_to_list {A : Type} (d : A) (t : tensor A) :
  length (to_list d t) = numel_of (shape t).
Proof. unfold to_list. now rewrite length_map, length_indices. Qed.

Lemma flat_map_cons_seq (m a n : nat) :
  flat_map (fun i => seq (i * m) m) (seq a n) = seq (a * m) (n * m).
Proof.
  revert a. induction n as [|n IH]; intros a; [reflexivity|].
  cbn [seq flat_map]. rewrite IH. cbn [Nat.mul].
  rewrite seq_app. f_equal. f_equal. lia.
Qed.

Lemma seq_as_map (a m : nat) : seq a m = map (Nat.add a) (seq 0 m).
Proof.
  revert a. induction m as [|m IH]; intros a; [reflexivity|].
  cbn [seq map]. rewrite Nat.add_0_r. f_equal.
  rewrite <- (seq_shift m 0), map_map, (IH (S a)).
  apply map_ext. intros j. lia.
Qed.

Lemma map_flat_map {X Y W : Type} (f : Y -> W) (g : X -> list Y) (l : list X) :
  map f (flat_map g l) = flat_map (fun x => map f (g x)) l.
Proof.
  induction l as [|x l IH]; [reflexivity|].
  cbn [flat_map]. now rewrite map_app, IH.
Qed.

(** The offsets of a contiguous layout enumerate the storage in order. *)
Lemma offsets_contiguous (s : list nat) :
  map (offset (contiguous s)) (indices s) = seq 0 (numel_of s).
Proof.
  induction s as [|n r IH]; [reflexivity|].
  cbn [indices contiguous numel_of fold_right]. fold (numel_of r).
  change (seq 0 (n * numel_of r)) with (seq (0 * numel_of r) (n * numel_of r)).
  rewrite <- flat_map_cons_seq, map_flat_map.
  apply flat_map_ext. intros i.
  rewrite map_map. cbn [offset].
  rewrite (seq_as_map (i * numel_of r)), <- IH, map_map. reflexivity.
Qed.

Lemma map_nth_seq {A : Type} (d : A) (l : list A) :
  map (fun k => nth k l d) (seq 0 (length l)) = l.
Proof.
  induction l as [|a l IH]; [reflexivity|].
  cbn [length seq map nth]. f_equal.
  rewrite <- (seq_shift (length l) 0), map_map. exact IH.
Qed.

Lemma to_list_contiguous {A : Type} (d : A) (data : list A) (s : list nat) :
  length data = numel_of s ->
  to_list d (mkTensor data (contiguous s)) = data.
Proof.
  intros Hlen. unfold to_list, shape, get; cbn [dims storage].
  rewrite shape_contiguous.
  rewrite <- (map_map (offset (contiguous s)) (fun k => nth k data d)).
  rewrite offsets_contiguous, <- Hlen. apply map_nth_seq.
Qed.

Lemma numel_of_single (n : nat) : numel_of [n] = n.
Proof. cbn. lia. Qed.

Lemma infer_shape_flat (n : nat) : infer_shape n [-1] = Some [n].
Proof.
  unfold infer_shape. cbn.
  change (fst (Nat.divmod n 0 0 0)) with (n / 1)%nat.
  now rewrite Nat.div_1_r.
Qed.

Lemma infer_shape_exact (s : list nat) :
  infer_shape (numel_of s) (map Z.of_nat s) = Some s.
Proof.
  unfold infer_shape.
  assert (existsb (fun d => d <? -1) (map Z.of_nat s) = false) as ->.
  { induction s as [|n s IH]; [reflexivity|]. cbn [map existsb].
    rewrite IH. destruct (Z.ltb_spec (Z.of_nat n) (-1)); [lia|reflexivity]. }
  assert (filter (fun d => negb (d =? -1)) (map Z.of_nat s) = map Z.of_nat s) as ->.
  { induction s as [|n s IH]; [reflexivity|]. cbn [map filter].
    destruct (Z.eqb_spec (Z.of_nat n) (-1)); [lia|]. cbn [negb]. now rewrite IH. }
  assert (map Z.to_nat (map Z.of_nat s) = s) as ->.
  { rewrite map_map. rewrite <- (map_id s) at 2. apply map_ext.
    intros n. apply Nat2Z.id. }
  rewrite Nat.sub_diag, Nat.eqb_refl. reflexivity.
Qed.

Lemma indices_single (n : nat) : indices [n] = map (fun i => [i]) (seq 0 n).
Proof.
  cbn [indices]. generalize 0%nat.
  induction n as [|n IH]; intros a; [reflexivity|].
  cbn [seq flat_map map app]. now rewrite IH.
Qed.

(** Along the only dimension of a contiguous vector the kernel sees the
    whole storage. *)
Lemma along_axis_vector {A : Type} (d : A) (f : list A -> list A) (l : list A) :
  length (f l) = length l ->
  along_axis d f (mkTensor l (contiguous [length l])) (-1) =
    Ok (mkTensor (f l) (contiguous [length l])).
Proof.
  intros Hlen. unfold along_axis; cbn [dims contiguous].
  cbn [normalize_dim length Z.ltb Z.compare Z.of_nat Z.add Z.leb andb Z.to_nat
       Pos.compare Z.pos_sub Pos.of_succ_nat Pos.succ].
  unfold normalize_dim. cbn. unfold tabulate. f_equal. f_equal.
  change (flat_map (fun i => [[i]]) (seq 0 (length l))) with (indices [length l]).
  rewrite indices_single, map_map.
  rewrite <- (map_nth_seq d (f l)), Hlen.
  apply map_ext. intros i. cbn [nth].
  f_equal. f_equal. unfold fiber, shape, get; cbn [dims storage map fst nth list_update offset].
  rewrite <- (map_nth_seq d l) at 2.
  apply map_ext. intros j. f_equal. lia.
Qed.

Lemma reshape_flat {A : Type} (d : A) (x : tensor A) :
  reshape d x [-1] =
    Ok (mkTensor (to_list d x) (contiguous [length (to_list d x)])).
Proof.
  unfold reshape. rewrite infer_shape_flat, length_to_list. reflexivity.
Qed.

(** Flatten, apply a vector kernel, restore the shape: the kernel runs once,
    over all the elements in their logical order. *)
Lemma flatten_apply_restore {A : Type} (d : A) (f : list A -> list A)
  (x : tensor A) :
  (forall l, length (f l) = length l) ->
  exists out,
    (output <- reshape d x [-1] ;;
     output <- along_axis d f output (-1) ;;
     reshape d output (map Z.of_nat (shape x))) = Ok out /\
    shape out = shape x /\
    to_list d out = f (to_list d x).
Proof.
  intros Hlen.
  rewrite reshape_flat. cbn [bind].
  rewrite along_axis_vector by apply Hlen. cbn [bind].
  assert (length (f (to_list d x)) = numel_of (shape x)) as Hn
    by (now rewrite Hlen, length_to_list).
  unfold reshape at 1.
  assert (shape (mkTensor (f (to_list d x)) (contiguous [length (to_list d x)]))
          = [length (to_list d x)]) as -> by apply shape_contiguous.
  rewrite numel_of_single, length_to_list, infer_shape_exact.
  rewrite to_list_contiguous by (now rewrite numel_of_single).
  eexists. split; [reflexivity|]. split; [apply shape_contiguous|].
  now apply to_list_contiguous.
Qed.

(** C7: with [axis=None], softmax and log-softmax are "flatten, reduce the
    one dimension, reshape back", so the result has the shape of [x] and its
    elements are the vector kernel applied once to all the elements of [x]. *)
Theorem softmax_axis_none {A : Type} (d : A) (E : engine A) (x : tensor A) :
  (forall l, length (softmax1d E l) = length l) ->
  (forall l, length (log_softmax1d E l) = length l) ->
  (softmax d E x None =
     (flat <- reshape d x [-1] ;;
      reduced <- tnn_softmax d E flat (-1) ;;
      reshape d reduced (map Z.of_nat (shape x))) /\
   exists out,
     softmax d E x None = Ok out /\ shape out = shape x /\
     to_list d out = softmax1d E (to_list d x)) /\
  (log_softmax d E x None =
     (flat <- reshape d x [-1] ;;
      reduced <- tnn_log_softmax d E flat (-1) ;;
      reshape d reduced (map Z.of_nat (shape x))) /\
   exists out,
     log_softmax d E x None = Ok out /\ shape out = shape x /\
     to_list d out = log_softmax1d E (to_list d x)).
Proof.
  intros Hs Hl. split; (split; [reflexivity|]).
  - apply (flatten_apply_restore d (softmax1d E) x Hs).
  - apply (flatten_apply_restore d (log_softmax1d E) x Hl).
Qed.

Lemma softmax_axis_none_witness :
  (softmax 0%Q rational_engine (tabulate [2; 2]%nat (fun _ => 1%Q)) None =
     (flat <- reshape 0%Q (tabulate [2; 2]%nat (fun _ => 1%Q)) [-1] ;;
      reduced <- tnn_softmax 0%Q rational_engine flat (-1) ;;
      reshape 0%Q reduced
        (map Z.of_nat (shape (tabulate [2; 2]%nat (fun _ => 1%Q))))) /\
   exists out,
     softmax 0%Q rational_engine (tabulate [2; 2]%nat (fun _ => 1%Q)) None = Ok out /\
     shape out = shape (tabulate [2; 2]%nat (fun _ => 1%Q)) /\
     to_list 0%Q out =
       softmax1d rational_engine
         (to_list 0%Q (tabulate [2; 2]%nat (fun _ => 1%Q)))) /\
  (log_softmax 0%Q rational_engine (tabulate [2; 2]%nat (fun _ => 1%Q)) None =
     (flat <- reshape 0%Q (tabulate [2; 2]%nat (fun _ => 1%Q)) [-1] ;;
      reduced <- tnn_log_softmax 0%Q rational_engine flat (-1) ;;
      reshape 0%Q reduced
        (map Z.of_nat (shape (tabulate [2; 2]%nat (fun _ => 1%Q))))) /\
   exists out,
     log_softmax 0%Q rational_engine (tabulate [2; 2]%nat (fun _ => 1%Q)) None = Ok out /\
     shape out = shape (tabulate [2; 2]%nat (fun _ => 1%Q)) /\
     to_list 0%Q out =
       log_softmax1d rational_engine
         (to_list 0%Q (tabulate [2; 2]%nat (fun _ => 1%Q)))).
Proof.
  apply (softmax_axis_none 0%Q rational_engine (tabulate [2; 2]%nat (fun _ => 1%Q)));
    intros l; cbn [softmax1d log_softmax1d rational_engine];
    unfold normalize1d, shift1d; apply length_map.
Defined.

(** The difference the flattening makes, on a 2 x 2 tensor of ones: over the
    whole tensor every entry is a quarter, along the last axis a half. *)
Example softmax_whole_tensor :
  (exists out,
     softmax 0%Q rational_engine (tabulate [2; 2]%nat (fun _ => 1%Q)) None = Ok out /\
     to_list 0%Q out = [1 # 4; 1 # 4; 1 # 4; 1 # 4]%Q) /\
  (exists out,
     softmax 0%Q rational_engine (tabulate [2; 2]%nat (fun _ => 1%Q)) (Some (-1))
       = Ok out /\
     to_list 0%Q out = [1 # 2; 1 # 2; 1 # 2; 1 # 2]%Q).
Proof. split; eexists; split; vm_compute; reflexivity. Qed.

(** ** Average pooling *)

(** What the loop of lines 297-308 leaves: the left paddings in dimension
    order, and one pair [0, 1] for each dimension with unequal sides. *)
Lemma average_pool_padding_loop_spec (sp ps ss range : list Z) :
  forall pv0 un0,
    average_pool_padding_loop sp ps ss range pv0 un0 =
      (pads <- computed_paddings sp ps ss range ;;
       Ok (pv0 ++ map fst pads,
           flat_map (fun _ => [0; 1]) (filter uneven pads) ++ un0)).
Proof.
  induction range as [|i rest IH]; intros pv0 un0.
  - cbn. now rewrite app_nil_r.
  - cbn [average_pool_padding_loop computed_paddings].
    destruct (py_index sp i) as [a|e]; [|reflexivity]. cbn [bind].
    destruct (py_index ps i) as [k|e]; [|reflexivity]. cbn [bind].
    destruct (py_index ss i) as [s|e]; [|reflexivity]. cbn [bind].
    destruct (_compute_padding_length a k s 1) as [p|e]; [|reflexivity].
    cbn [bind]. rewrite IH.
    destruct (computed_paddings sp ps ss rest) as [pads|e]; [|reflexivity].
    cbn [bind map filter]. rewrite <- app_assoc. cbn [app].
    f_equal. f_equal.
    unfold uneven at 2. destruct (negb (fst p =? snd p)) eqn:Hp.
    + cbn [flat_map].
      generalize (filter uneven pads). intros l.
      induction l as [|q l IHl]; [reflexivity|].
      cbn [flat_map app]. cbn [flat_map app] in IHl.
      now rewrite IHl.
    + reflexivity.
Qed.

Lemma to_channels_first_ndim {A : Type} (fmt : string) (x x' : tensor A) :
  to_channels_first fmt x = Ok x' -> ndim x' = ndim x.
Proof.
  unfold to_channels_first. destruct (String.eqb fmt channels_last).
  - apply transpose_spatial_inputs_ndim.
  - now intros [= <-].
Qed.

Lemma spatial_rank {A : Type} (x : tensor A) :
  2 <= ndim x ->
  Z.of_nat (length (map Z.of_nat (skipn 2 (shape x)))) = ndim x - 2.
Proof.
  unfold ndim, shape. rewrite length_map, length_skipn, length_map. lia.
Qed.

Lemma uneven_padding_nonempty (pads : list (Z * Z)) :
  existsb uneven pads = true ->
  (0 <? Z.of_nat (length (flat_map (fun _ : Z * Z => [0; 1])
                            (filter uneven pads)))) = true.
Proof.
  induction pads as [|p pads IH]; [discriminate|].
  cbn [existsb filter]. destruct (uneven p); [reflexivity|exact IH].
Qed.

(** C3 as stated fails: on a spatial length of 4 with pool size 4 and stride
    1 the computed padding is (1, 2), what the loop prepares for the kernel
    is the padding list [1] (with [0, 1] for [tnn.pad]), and the pooling
    kernel of [echo_engine] reports having received [1], not zero. *)
Lemma average_pool_passes_left_padding :
  _compute_padding_length 4 4 1 1 = Ok (1, 2) /\
  average_pool_padding_loop [4] [4] [1] (py_range 0 1) [] [] =
    Ok ([1], [0; 1]) /\
  average_pool echo_engine
    {| image_data_format := channels_last; device := "cpu" |}
    (tabulate [1; 1; 4]%nat offset_id) (PInt 4) (Some (PInt 1)) same
    (Some channels_first) = Ok (vector [1]) /\
  average_pool echo_engine
    {| image_data_format := channels_last; device := "cpu" |}
    (tabulate [1; 1; 4]%nat offset_id) (PInt 4) (Some (PInt 1)) same
    (Some channels_first) <> Ok (vector [0]).
Proof. repeat split; try reflexivity. vm_compute. discriminate. Qed.

(** ** Convolution *)

Lemma call_not_value_error {A : Type} (r : native A) (e : exn) :
  call r = Raise e -> is_value_error e = false.
Proof. destruct r; cbn; [intros [= <-]; reflexivity|discriminate]. Qed.

Lemma permute_not_value_error {A : Type} (t : tensor A) (p : list Z) (e : exn) :
  permute t p = Raise e -> is_value_error e = false.
Proof.
  unfold permute.
  destruct (normalize_dims (length (dims t)) p) as [q|];
    [destruct (is_permutation_of_range q (length (dims t)))|];
    try discriminate; intros [= <-]; reflexivity.
Qed.

Lemma from_channels_first_not_value_error {A : Type} (fmt : string)
  (t : tensor A) (e : exn) :
  from_channels_first fmt t = Raise e -> is_value_error e = false.
Proof.
  unfold from_channels_first, _transpose_spatial_outputs.
  repeat (match goal with |- context [if ?b then _ else _] => destruct b end);
    try discriminate; apply permute_not_value_error.
Qed.

Lemma dispatch_not_value_error {A : Type} (r : native (tensor A)) (fmt : string)
  (e : exn) :
  (outputs <- call r ;; from_channels_first fmt outputs) = Raise e ->
  is_value_error e = false.
Proof.
  destruct (call r) as [t|e'] eqn:Hc; cbn [bind].
  - apply from_channels_first_not_value_error.
  - intros [= <-]. now apply call_not_value_error in Hc.
Qed.

(** C5, as the code has it: on an input of rank 3 to 5 whose preceding steps
    succeed, [conv] raises a [ValueError] exactly when the channel count left
    by the layout normalisation is not a multiple of [kernel.shape[1]]; when
    it is, the quotient is the [groups] argument of the native convolution. *)
Theorem conv_channel_check {A : Type} (E : engine A) (cfg : config)
  (inputs kernel x k x' : tensor A) (strides dilation_rate : int_or_tuple)
  (padding : string) (data_format : option string)
  (ss : list Z) (fmt : string) (pad : padding_arg) (channels kin : nat) :
  3 <= ndim inputs <= 5 ->
  standardize_tuple strides (ndim inputs - 2) "strides" = Ok ss ->
  standardize_data_format cfg data_format = Ok fmt ->
  to_channels_first fmt inputs = Ok x ->
  _transpose_conv_kernel kernel = Ok k ->
  (if String.eqb padding same && existsb (fun s => negb (s =? 1)) ss
   then _apply_same_padding E x (map Z.of_nat (skipn 2 (shape k))) ss "conv"
          dilation_rate
   else Ok (x, PadStr padding)) = Ok (x', pad) ->
  py_index (shape x') 1 = Ok channels ->
  py_index (shape k) 1 = Ok kin ->
  kin <> 0%nat ->
  ((exists msg,
      conv E cfg inputs kernel strides padding data_format dilation_rate =
        Raise (ValueError msg)) <-> (channels mod kin)%nat <> 0%nat) /\
  ((channels mod kin)%nat <> 0%nat ->
   conv E cfg inputs kernel strides padding data_format dilation_rate =
     Raise (ValueError msg_channels)) /\
  ((channels mod kin)%nat = 0%nat ->
   conv E cfg inputs kernel strides padding data_format dilation_rate =
     (outputs <- call (tnn_conv E (ndim inputs - 2) x' k ss dilation_rate
                         (Z.of_nat (channels / kin)) pad) ;;
      from_channels_first fmt outputs)).
Proof.
  intros Hrank Hss Hfmt Hx Hk Hpad Hch Hkin Hnz.
  assert (conv E cfg inputs kernel strides padding data_format dilation_rate =
          if 0 <? Z.of_nat (channels mod kin)
          then Raise (ValueError msg_channels)
          else (outputs <- call (tnn_conv E (ndim inputs - 2) x' k ss
                                   dilation_rate (Z.of_nat (channels / kin)) pad) ;;
                from_channels_first fmt outputs)) as Hconv.
  { unfold conv. rewrite Hss; cbn [bind]. rewrite Hfmt; cbn [bind].
    rewrite Hx; cbn [bind]. rewrite Hk; cbn [bind]. rewrite Hpad; cbn [bind].
    rewrite Hch; cbn [bind]. rewrite Hkin; cbn [bind].
    unfold py_mod, py_floordiv.
    destruct (Z.eqb_spec (Z.of_nat kin) 0) as [|_]; [lia|]. cbn [bind].
    rewrite <- Nat2Z.inj_mod, <- Nat2Z.inj_div.
    destruct (0 <? Z.of_nat (channels mod kin)); [reflexivity|].
    assert (ndim inputs - 2 = 1 \/ ndim inputs - 2 = 2 \/ ndim inputs - 2 = 3)
      as Hcases by lia.
    destruct Hcases as [-> | [-> | ->]]; reflexivity. }
  split; [|split].
  - split.
    + intros [msg Hraise] Hzero. rewrite Hconv, Hzero in Hraise.
      cbn [Z.of_nat Z.ltb Z.compare] in Hraise.
      apply dispatch_not_value_error in Hraise. discriminate.
    + intros Hne. exists msg_channels. rewrite Hconv.
      destruct (Z.ltb_spec 0 (Z.of_nat (channels mod kin))); [reflexivity|lia].
  - intros Hne. rewrite Hconv.
    destruct (Z.ltb_spec 0 (Z.of_nat (channels mod kin))); [reflexivity|lia].
  - intros Hzero. rewrite Hconv, Hzero. reflexivity.
Qed.

Lemma conv_channel_check_witness :
  ((exists msg,
      conv (null_engine Z) {| image_data_format := channels_last; device := "cpu" |}
        (tabulate [1; 4; 5]%nat offset_id) (tabulate [3; 2; 6]%nat offset_id)
        (PInt 1) valid (Some channels_first) (PInt 1) = Raise (ValueError msg))
   <-> (4 mod 2)%nat <> 0%nat) /\
  ((4 mod 2)%nat <> 0%nat ->
   conv (null_engine Z) {| image_data_format := channels_last; device := "cpu" |}
     (tabulate [1; 4; 5]%nat offset_id) (tabulate [3; 2; 6]%nat offset_id)
     (PInt 1) valid (Some channels_first) (PInt 1) =
     Raise (ValueError msg_channels)) /\
  ((4 mod 2)%nat = 0%nat ->
   conv (null_engine Z) {| image_data_format := channels_last; device := "cpu" |}
     (tabulate [1; 4; 5]%nat offset_id) (tabulate [3; 2; 6]%nat offset_id)
     (PInt 1) valid (Some channels_first) (PInt 1) =
     (outputs <- call (tnn_conv (null_engine Z)
                         (ndim (tabulate [1; 4; 5]%nat offset_id) - 2)
                         (tabulate [1; 4; 5]%nat offset_id)
                         (mkTensor (storage (tabulate [3; 2; 6]%nat offset_id))
                            [(6, 1); (2, 6); (3, 12)]%nat)
                         [1] (PInt 1) (Z.of_nat (4 / 2)) (PadStr valid)) ;;
      from_channels_first channels_first outputs)).
Proof.
  apply (conv_channel_check (null_engine Z)
           {| image_data_format := channels_last; device := "cpu" |}
           (tabulate [1; 4; 5]%nat offset_id) (tabulate [3; 2; 6]%nat offset_id)
           (tabulate [1; 4; 5]%nat offset_id)
           (mkTensor (storage (tabulate [3; 2; 6]%nat offset_id))
              [(6, 1); (2, 6); (3, 12)]%nat)
           (tabulate [1; 4; 5]%nat offset_id)
           (PInt 1) (PInt 1) valid (Some channels_first) [1] channels_first
           (PadStr valid) 4 2);
    try reflexivity.
  - vm_compute. split; discriminate.
  - discriminate.
Defined.

(** C5 as stated fails in its "only if": a rank-2 channels-first input with 4
    channels and a kernel of 2 input channels divides evenly, and [conv]
    still raises a [ValueError], the one of the rank dispatch. *)
Lemma conv_value_error_when_divisible :
  conv (null_engine Z) {| image_data_format := channels_last; device := "cpu" |}
    (tabulate [1; 4]%nat offset_id) (tabulate [2; 2]%nat offset_id)
    (PInt 1) valid (Some channels_first) (PInt 1) =
    Raise (ValueError msg_conv_ndim) /\
  py_index (shape (tabulate [1; 4]%nat offset_id)) 1 = Ok 4%nat /\
  py_index (shape (tabulate [2; 2]%nat offset_id)) 1 = Ok 2%nat /\
  (4 mod 2 = 0)%nat.
Proof. repeat split; reflexivity. Qed.

(** ** The rank guard *)

Lemma standardize_tuple_raises (v : int_or_tuple) (n : Z) (name : string) (e : exn) :
  standardize_tuple v n name = Raise e -> e = ValueError msg_tuple.
Proof.
  destruct v as [v|t]; cbn; [discriminate|].
  destruct (Z.of_nat (length t) =? n); [discriminate|now intros [= <-]].
Qed.

Lemma standardize_strides_raises (ps : list Z) (s : option int_or_tuple) (n : Z)
  (e : exn) :
  standardize_strides ps s n = Raise e -> e = ValueError msg_tuple.
Proof.
  destruct s as [s|]; cbn; [apply standardize_tuple_raises|discriminate].
Qed.

Lemma standardize_data_format_raises (cfg : config) (f : option string) (e : exn) :
  standardize_data_format cfg f = Raise e -> e = ValueError msg_data_format.
Proof.
  destruct f as [f|]; cbn; [|discriminate].
  destruct (String.eqb f channels_first || String.eqb f channels_last);
    [discriminate|now intros [= <-]].
Qed.

(** Outside ranks 3 to 5 the layout step either leaves a channels-first
    input alone or raises the [ValueError] of [_transpose_spatial_inputs]. *)
Lemma to_channels_first_outside {A : Type} (fmt : string) (x : tensor A) :
  ~ 3 <= ndim x <= 5 ->
  (String.eqb fmt channels_last = false /\ to_channels_first fmt x = Ok x) \/
  (String.eqb fmt channels_last = true /\
   to_channels_first fmt x = Raise (ValueError msg_inputs_ndim)).
Proof.
  intros Hr. unfold to_channels_first.
  destruct (String.eqb fmt channels_last); [right|left]; split; try reflexivity.
  now apply transpose_spatial_outside.
Qed.

Ltac step_value_error :=
  match goal with
  | |- exists msg, bind ?m _ = Raise (ValueError msg) =>
      let H := fresh "Hstep" in
      destruct m eqn:H; cbn [bind];
      [| first
           [ apply standardize_tuple_raises in H
           | apply standardize_strides_raises in H
           | apply standardize_data_format_raises in H ];
         subst; eexists; reflexivity ]
  end.

Ltac off_rank :=
  repeat (match goal with
          | |- context [?a =? ?b] => destruct (Z.eqb_spec a b); [lia|]
          end).

(** X10: with a padding other than "same" both pooling functions raise a
    [ValueError] on every input whose rank is outside 3 to 5, under either
    data format. *)
Lemma pool_rank_guard {A : Type} (E : engine A) (cfg : config)
  (inputs : tensor A) (pool_size : int_or_tuple) (strides : option int_or_tuple)
  (padding : string) (data_format : option string) :
  ~ 3 <= ndim inputs <= 5 ->
  String.eqb padding same = false ->
  (exists msg, max_pool E cfg inputs pool_size strides padding data_format =
                 Raise (ValueError msg)) /\
  (exists msg, average_pool E cfg inputs pool_size strides padding data_format =
                 Raise (ValueError msg)).
Proof.
  intros Hr Hvalid. split.
  - unfold max_pool. do 3 step_value_error. rewrite Hvalid.
    destruct (to_channels_first_outside a1 inputs Hr) as [[Hf ->] | [_ ->]];
      cbn [bind]; [|eexists; reflexivity].
    off_rank. eexists; reflexivity.
  - unfold average_pool. do 3 step_value_error. rewrite Hvalid.
    destruct (to_channels_first_outside a1 inputs Hr) as [[Hf ->] | [_ ->]];
      cbn [bind]; [|eexists; reflexivity].
    off_rank. eexists; reflexivity.
Qed.

(** X12: under [channels_last] the convolution raises a [ValueError] on
    every input whose rank is outside 3 to 5: the layout step comes first. *)
Lemma conv_rank_guard_channels_last {A : Type} (E : engine A) (cfg : config)
  (inputs kernel : tensor A) (strides dilation_rate : int_or_tuple)
  (padding : string) :
  ~ 3 <= ndim inputs <= 5 ->
  exists msg,
    conv E cfg inputs kernel strides padding (Some channels_last) dilation_rate =
      Raise (ValueError msg).
Proof.
  intros Hr. unfold conv. step_value_error.
  cbn [standardize_data_format channels_last channels_first String.eqb
       Ascii.eqb Bool.eqb orb bind].
  destruct (to_channels_first_outside channels_last inputs Hr)
    as [[Hf _] | [_ Hraise]]; [discriminate|].
  rewrite Hraise. eexists; reflexivity.
Qed.

(** C8 fails on the code: under [channels_first] a rank-1 input reaches
    [inputs.shape[1]] before the rank dispatch, and [conv], [depthwise_conv]
    and [separable_conv] raise [IndexError], not [ValueError]. *)
Theorem conv_rank_one_index_error (E : engine Z) (cfg : config) :
  conv E cfg (vector [1; 2; 3; 4]) (tabulate [3; 1; 1]%nat offset_id)
    (PInt 1) valid (Some channels_first) (PInt 1) = Raise IndexError /\
  depthwise_conv 0 E cfg (vector [1; 2; 3; 4]) (tabulate [3; 4; 1]%nat offset_id)
    (PInt 1) valid (Some channels_first) (PInt 1) = Raise IndexError /\
  separable_conv 0 E cfg (vector [1; 2; 3; 4])
    (tabulate [3; 4; 1]%nat offset_id) (tabulate [1; 4; 1]%nat offset_id)
    (PInt 1) valid (Some channels_first) (PInt 1) = Raise IndexError.
Proof. repeat split; reflexivity. Qed.

(** ** Categorical cross-entropy *)

(** C6: [categorical_crossentropy] raises a [ValueError] when the shapes of
    [target] and [output] differ or when their rank is below 1, and otherwise
    is minus the sum along [axis] of [target] times the log-probabilities:
    the native log-softmax of [output] for logits, else the log of [output]
    renormalised along [axis] and clamped into [epsilon, 1 - epsilon]. *)
Theorem categorical_crossentropy_contract {A : Type} (d : A) (E : engine A)
  (epsilon float_one : A) (float_sub : A -> A -> A)
  (target output : tensor A) (from_logits : bool) (axis : Z) :
  (shape target <> shape output ->
   categorical_crossentropy d E epsilon float_one float_sub target output
     from_logits axis = Raise (ValueError msg_same_shape)) /\
  (shape target = shape output -> (length (shape target) < 1)%nat ->
   categorical_crossentropy d E epsilon float_one float_sub target output
     from_logits axis = Raise (ValueError msg_rank)) /\
  (shape target = shape output -> (1 <= length (shape target))%nat ->
   categorical_crossentropy d E epsilon float_one float_sub target output
     from_logits axis =
     crossentropy_formula d E epsilon float_one float_sub target output
       from_logits axis).
Proof.
  unfold categorical_crossentropy, crossentropy_formula, log_probabilities.
  destruct (list_eq_dec Nat.eq_dec (shape target) (shape output)) as [Heq|Hne];
    cbn [negb]; (split; [|split]); intros; try contradiction; try reflexivity.
  - destruct (Z.ltb_spec (Z.of_nat (length (shape target))) 1);
      [reflexivity|lia].
  - destruct (Z.ltb_spec (Z.of_nat (length (shape target))) 1);
      [lia|reflexivity].
Qed.

Lemma categorical_crossentropy_contract_witness :
  categorical_crossentropy 0%Q rational_engine (1 # 10000000)%Q 1%Q Qminus
    (vector [1; 0]%Q) (vector [1; 2; 3]%Q) false (-1)
    = Raise (ValueError msg_same_shape) /\
  categorical_crossentropy 0%Q rational_engine (1 # 10000000)%Q 1%Q Qminus
    (scalar 1%Q) (scalar 2%Q) false (-1) = Raise (ValueError msg_rank) /\
  categorical_crossentropy 0%Q rational_engine (1 # 10000000)%Q 1%Q Qminus
    (vector [1; 0]%Q) (vector [3; 1]%Q) true (-1) =
    crossentropy_formula 0%Q rational_engine (1 # 10000000)%Q 1%Q Qminus
      (vector [1; 0]%Q) (vector [3; 1]%Q) true (-1).
Proof.
  split; [|split].
  - apply (proj1 (categorical_crossentropy_contract 0%Q rational_engine
                    (1 # 10000000)%Q 1%Q Qminus (vector [1; 0]%Q)
                    (vector [1; 2; 3]%Q) false (-1))).
    vm_compute. discriminate.
  - apply (proj1 (proj2 (categorical_crossentropy_contract 0%Q rational_engine
                           (1 # 10000000)%Q 1%Q Qminus (scalar 1%Q)
                           (scalar 2%Q) false (-1)))).
    + reflexivity.
    + vm_compute. lia.
  - apply (proj2 (proj2 (categorical_crossentropy_contract 0%Q rational_engine
                           (1 # 10000000)%Q 1%Q Qminus (vector [1; 0]%Q)
                           (vector [3; 1]%Q) true (-1)))).
    + reflexivity.
    + vm_compute. lia.
Defined.

(** * Further properties of the module *)

(** ** Padding length, further *)

Lemma halves_equal_iff (t : Z) : t / 2 = (t + 1) / 2 <-> Z.even t = true.
Proof.
  rewrite Z.even_spec. split.
  - intros H. exists (t / 2). Z.div_mod_to_equations. lia.
  - intros [k ->]. Z.div_mod_to_equations. lia.
Qed.

(** X1: for a stride other than zero, the two sides of the padding are equal
    exactly when the total [D*(K-1) - (L-1) mod S] is even, and otherwise the
    right side is the left side plus one. *)
Theorem compute_padding_length_symmetric (L K S D : Z) :
  S <> 0 ->
  exists left right,
    _compute_padding_length L K S D = Ok (left, right) /\
    (left = right <-> Z.even (D * (K - 1) - (L - 1) mod S) = true) /\
    (left <> right -> right = left + 1).
Proof.
  intros HS. unfold _compute_padding_length, py_mod.
  destruct (Z.eqb_spec S 0) as [|_]; [contradiction|]. cbn [bind].
  eexists _, _. split; [reflexivity|]. split.
  - apply halves_equal_iff.
  - intros Hne. Z.div_mod_to_equations. lia.
Qed.

Lemma compute_padding_length_symmetric_witness :
  exists left right,
    _compute_padding_length 7 4 2 1 = Ok (left, right) /\
    (left = right <-> Z.even (1 * (4 - 1) - (7 - 1) mod 2) = true) /\
    (left <> right -> right = left + 1).
Proof. apply (compute_padding_length_symmetric 7 4 2 1). lia. Defined.

(** X2: with stride 1 the padding does not depend on the input length: it is
    the two halves of [D*(K-1)], whatever the length. *)
Theorem compute_padding_length_unit_stride (L L' K D : Z) :
  _compute_padding_length L K 1 D = _compute_padding_length L' K 1 D /\
  _compute_padding_length L K 1 D =
    Ok (D * (K - 1) / 2, (D * (K - 1) + 1) / 2).
Proof.
  unfold _compute_padding_length, py_mod.
  change (1 =? 0) with false. cbn [bind]. rewrite !Z.mod_1_r, !Z.sub_0_r.
  split; reflexivity.
Qed.

(** ** Explicit same padding *)

Lemma computed_paddings_length (sp ks st range : list Z) (pads : list (Z * Z)) :
  computed_paddings sp ks st range = Ok pads -> length pads = length range.
Proof.
  revert pads. induction range as [|i rest IH]; intros pads; cbn [computed_paddings].
  - now intros [= <-].
  - destruct (py_index sp i) as [a|e]; [|discriminate]. cbn [bind].
    destruct (py_index ks i) as [k|e]; [|discriminate]. cbn [bind].
    destruct (py_index st i) as [s|e]; [|discriminate]. cbn [bind].
    destruct (_compute_padding_length a k s 1) as [p|e]; [|discriminate]. cbn [bind].
    destruct (computed_paddings sp ks st rest) as [others|e]; [|discriminate].
    cbn [bind]. intros [= <-]. cbn [length]. now rewrite (IH others).
Qed.

Lemma same_padding_loop_pooling (sp ks st : list Z) (n : Z) (dil : int_or_tuple)
  (range : list Z) :
  forall acc mode,
    same_padding_loop sp ks st pooling n range dil acc mode =
      (pads <- computed_paddings sp ks st range ;;
       Ok (rev pads ++ acc,
           match range with [] => mode | _ :: _ => "replicate"%string end)).
Proof.
  induction range as [|i rest IH]; intros acc mode; [reflexivity|].
  cbn [same_padding_loop computed_paddings].
  change (String.eqb pooling pooling) with true. cbv iota.
  destruct (py_index sp i) as [a|e]; [|reflexivity]. cbn [bind].
  destruct (py_index ks i) as [k|e]; [|reflexivity]. cbn [bind].
  destruct (py_index st i) as [s|e]; [|reflexivity]. cbn [bind].
  destruct (_compute_padding_length a k s 1) as [p|e]; [|reflexivity]. cbn [bind].
  rewrite IH.
  destruct (computed_paddings sp ks st rest) as [others|e]; [|reflexivity].
  cbn [bind rev]. rewrite <- app_assoc. cbn [app].
  destruct rest; reflexivity.
Qed.

Lemma forallb_rev {X : Type} (f : X -> bool) (l : list X) :
  forallb f (rev l) = forallb f l.
Proof.
  induction l as [|a l IH]; [reflexivity|].
  cbn [rev forallb]. rewrite forallb_app, IH. cbn [forallb].
  now rewrite andb_true_r, andb_comm.
Qed.

Lemma apply_same_padding_pooling_eq {A : Type} (E : engine A) (x : tensor A)
  (ks st : list Z) (dil : int_or_tuple) :
  _apply_same_padding E x ks st pooling dil =
    (pads <- computed_paddings (map Z.of_nat (skipn 2 (shape x))) ks st
               (py_range 0 (Z.of_nat (length (skipn 2 (shape x))))) ;;
     if forallb (fun lr => fst lr =? snd lr) pads
     then Ok (x, PadList (rev (map fst pads)))
     else
       padded <- call (tnn_pad E x (flat_map (fun lr => [fst lr; snd lr]) (rev pads))
                         "replicate") ;;
       Ok (padded, PadInt 0)).
Proof.
  unfold _apply_same_padding. rewrite length_map, same_padding_loop_pooling.
  destruct (computed_paddings _ ks st _) as [pads|e] eqn:Hp; [|reflexivity].
  cbn [bind]. rewrite app_nil_r, forallb_rev, map_rev.
  destruct (forallb (fun lr => fst lr =? snd lr) pads) eqn:Hsym; [reflexivity|].
  apply computed_paddings_length in Hp.
  destruct (py_range 0 (Z.of_nat (length (skipn 2 (shape x))))); [|reflexivity].
  destruct pads; [discriminate Hsym|discriminate Hp].
Qed.

(** X3: for pooling, [_apply_same_padding] computes one padding pair per
    spatial dimension and keeps them in reverse dimension order (each new
    pair goes to the front).  When every pair is symmetric it returns the
    input untouched with the left paddings in that reverse order; otherwise
    it pads the input itself through [tnn.pad] in replicate mode, handing it
    the flattened pairs, last dimension first, and returns the padding 0. *)
Theorem apply_same_padding_pooling {A : Type} (E : engine A) (x : tensor A)
  (ks st : list Z) (dil : int_or_tuple) (pads : list (Z * Z)) :
  computed_paddings (map Z.of_nat (skipn 2 (shape x))) ks st
    (py_range 0 (Z.of_nat (length (skipn 2 (shape x))))) = Ok pads ->
  (forallb (fun lr => fst lr =? snd lr) pads = true ->
   _apply_same_padding E x ks st pooling dil =
     Ok (x, PadList (rev (map fst pads)))) /\
  (forallb (fun lr => fst lr =? snd lr) pads = false ->
   _apply_same_padding E x ks st pooling dil =
     (padded <- call (tnn_pad E x
                        (flat_map (fun lr => [fst lr; snd lr]) (rev pads))
                        "replicate") ;;
      Ok (padded, PadInt 0))).
Proof.
  intros Hp. rewrite apply_same_padding_pooling_eq, Hp. cbn [bind].
  split; intros ->; reflexivity.
Qed.

Lemma apply_same_padding_pooling_witness :
  (forallb (fun lr => fst lr =? snd lr) [(1, 1); (2, 2)] = true ->
   _apply_same_padding (null_engine Z) (tabulate [1; 1; 5; 5]%nat offset_id)
     [3; 5] [1; 1] pooling (PInt 1) =
     Ok (tabulate [1; 1; 5; 5]%nat offset_id,
         PadList (rev (map fst [(1, 1); (2, 2)])))) /\
  (forallb (fun lr => fst lr =? snd lr) [(1, 1); (2, 2)] = false ->
   _apply_same_padding (null_engine Z) (tabulate [1; 1; 5; 5]%nat offset_id)
     [3; 5] [1; 1] pooling (PInt 1) =
     (padded <- call (tnn_pad (null_engine Z) (tabulate [1; 1; 5; 5]%nat offset_id)
                        (flat_map (fun lr => [fst lr; snd lr])
                           (rev [(1, 1); (2, 2)]))
                        "replicate") ;;
      Ok (padded, PadInt 0))).
Proof.
  apply (apply_same_padding_pooling (null_engine Z)
           (tabulate [1; 1; 5; 5]%nat offset_id) [3; 5] [1; 1] (PInt 1)
           [(1, 1); (2, 2)]).
  reflexivity.
Defined.

Lemma symmetric_not_uneven (pads : list (Z * Z)) :
  forallb (fun lr => fst lr =? snd lr) pads = true -> filter uneven pads = [].
Proof.
  induction pads as [|p pads IH]; [reflexivity|].
  cbn [forallb filter]. unfold uneven at 1.
  destruct (fst p =? snd p); [|discriminate]. exact IH.
Qed.

(** X7: on ranks 3 to 5, when "same" padding is symmetric in every spatial
    dimension, [max_pool] calls no [tnn.pad]: the kernel gets the
    channels-first input (a fresh empty tensor of its shape on the meta
    device) and the list of left paddings in reverse dimension order. *)
Theorem max_pool_same_symmetric {A : Type} (E : engine A) (cfg : config)
  (inputs x : tensor A) (pool_size : int_or_tuple)
  (strides : option int_or_tuple) (data_format : option string)
  (ps ss : list Z) (fmt : string) (pads : list (Z * Z)) :
  3 <= ndim inputs <= 5 ->
  standardize_tuple pool_size (ndim inputs - 2) "pool_size" = Ok ps ->
  standardize_strides ps strides (ndim inputs - 2) = Ok ss ->
  standardize_data_format cfg data_format = Ok fmt ->
  to_channels_first fmt inputs = Ok x ->
  computed_paddings (map Z.of_nat (skipn 2 (shape x))) ps ss
    (py_range 0 (ndim inputs - 2)) = Ok pads ->
  forallb (fun lr => fst lr =? snd lr) pads = true ->
  max_pool E cfg inputs pool_size strides same data_format =
    (outputs <- call (tnn_max_pool E (ndim inputs - 2)
                        (if String.eqb (device cfg) meta
                         then torch_empty E (shape x) else x)
                        ps ss (PadList (rev (map fst pads)))) ;;
     outputs <- call (tensor_to E outputs (device cfg)) ;;
     from_channels_first fmt outputs).
Proof.
  intros Hrank Hps Hss Hfmt Hx Hpads Hsym.
  unfold max_pool. rewrite Hps; cbn [bind]. rewrite Hss; cbn [bind].
  rewrite Hfmt; cbn [bind]. rewrite Hx; cbn [bind].
  change (String.eqb same same) with true. cbv iota.
  pose proof (to_channels_first_ndim _ _ _ Hx) as Hnd.
  rewrite apply_same_padding_pooling_eq.
  rewrite <- (length_map Z.of_nat), spatial_rank by lia. rewrite Hnd, Hpads.
  cbn [bind]. rewrite Hsym. cbn [bind].
  assert (ndim inputs - 2 = 1 \/ ndim inputs - 2 = 2 \/ ndim inputs - 2 = 3)
    as Hcases by lia.
  destruct Hcases as [-> | [-> | ->]]; reflexivity.
Qed.

(** X8: on ranks 3 to 5, when "same" padding is symmetric in every spatial
    dimension, [average_pool] calls no [tnn.pad]: the kernel gets the
    channels-first input unchanged, the left paddings in dimension order and
    [count_include_pad=False]. *)
Theorem average_pool_same_symmetric {A : Type} (E : engine A) (cfg : config)
  (inputs x : tensor A) (pool_size : int_or_tuple)
  (strides : option int_or_tuple) (data_format : option string)
  (ps ss : list Z) (fmt : string) (pads : list (Z * Z)) :
  3 <= ndim inputs <= 5 ->
  standardize_tuple pool_size (ndim inputs - 2) "pool_size" = Ok ps ->
  standardize_strides ps strides (ndim inputs - 2) = Ok ss ->
  standardize_data_format cfg data_format = Ok fmt ->
  to_channels_first fmt inputs = Ok x ->
  computed_paddings (map Z.of_nat (skipn 2 (shape x))) ps ss
    (py_range 0 (ndim inputs - 2)) = Ok pads ->
  forallb (fun lr => fst lr =? snd lr) pads = true ->
  average_pool E cfg inputs pool_size strides same data_format =
    (outputs <- call (tnn_avg_pool E (ndim inputs - 2) x ps ss
                        (PadList (map fst pads)) false) ;;
     from_channels_first fmt outputs).
Proof.
  intros Hrank Hps Hss Hfmt Hx Hpads Hsym.
  unfold average_pool. rewrite Hps; cbn [bind]. rewrite Hss; cbn [bind].
  rewrite Hfmt; cbn [bind]. rewrite Hx; cbn [bind].
  change (String.eqb same same) with true. cbv iota.
  pose proof (to_channels_first_ndim _ _ _ Hx) as Hnd.
  rewrite spatial_rank by lia. rewrite Hnd.
  rewrite average_pool_padding_loop_spec, Hpads. cbn [bind app].
  rewrite symmetric_not_uneven by assumption. cbn [flat_map app length bind].
  change (0 <? Z.of_nat 0) with false. cbv iota. cbn [bind].
  assert (ndim inputs - 2 = 1 \/ ndim inputs - 2 = 2 \/ ndim inputs - 2 = 3)
    as Hcases by lia.
  destruct Hcases as [-> | [-> | ->]]; reflexivity.
Qed.

Lemma max_pool_same_symmetric_witness :
  max_pool (null_engine Z) {| image_data_format := channels_last; device := "cpu" |}
    (tabulate [1; 1; 5; 5]%nat offset_id) (PTuple [3; 5]) (Some (PInt 1)) same
    (Some channels_first) =
    (outputs <- call (tnn_max_pool (null_engine Z)
                        (ndim (tabulate [1; 1; 5; 5]%nat offset_id) - 2)
                        (if String.eqb
                              (device {| image_data_format := channels_last;
                                         device := "cpu" |}) meta
                         then torch_empty (null_engine Z)
                                (shape (tabulate [1; 1; 5; 5]%nat offset_id))
                         else tabulate [1; 1; 5; 5]%nat offset_id)
                        [3; 5] [1; 1] (PadList (rev (map fst [(1, 1); (2, 2)])))) ;;
     outputs <- call (tensor_to (null_engine Z) outputs
                        (device {| image_data_format := channels_last;
                                   device := "cpu" |})) ;;
     from_channels_first channels_first outputs).
Proof.
  apply (max_pool_same_symmetric (null_engine Z)
           {| image_data_format := channels_last; device := "cpu" |}
           (tabulate [1; 1; 5; 5]%nat offset_id)
           (tabulate [1; 1; 5; 5]%nat offset_id)
           (PTuple [3; 5]) (Some (PInt 1)) (Some channels_first)
           [3; 5] [1; 1] channels_first [(1, 1); (2, 2)]);
    try reflexivity.
  vm_compute. split; discriminate.
Defined.

Lemma average_pool_same_symmetric_witness :
  average_pool echo_engine {| image_data_format := channels_last; device := "cpu" |}
    (tabulate [1; 1; 5; 5]%nat offset_id) (PTuple [3; 5]) (Some (PInt 1)) same
    (Some channels_first) =
    (outputs <- call (tnn_avg_pool echo_engine
                        (ndim (tabulate [1; 1; 5; 5]%nat offset_id) - 2)
                        (tabulate [1; 1; 5; 5]%nat offset_id)
                        [3; 5] [1; 1] (PadList (map fst [(1, 1); (2, 2)])) false) ;;
     from_channels_first channels_first outputs).
Proof.
  apply (average_pool_same_symmetric echo_engine
           {| image_data_format := channels_last; device := "cpu" |}
           (tabulate [1; 1; 5; 5]%nat offset_id)
           (tabulate [1; 1; 5; 5]%nat offset_id)
           (PTuple [3; 5]) (Some (PInt 1)) (Some channels_first)
           [3; 5] [1; 1] channels_first [(1, 1); (2, 2)]);
    try reflexivity.
  vm_compute. split; discriminate.
Defined.

(** ** Layout, further *)

Ltac by_dims t :=
  destruct t as [st ds];
  destruct ds as [|d0 [|d1 [|d2 [|d3 [|d4 [|d5 ds]]]]]];
  unfold ndim, shape in *; cbn [dims length map] in *.

(** X4: [_transpose_spatial_inputs] turns a channels-last tensor of shape
    [n, *spatial, c] with one to three spatial dimensions into one of shape
    [n, c, *spatial], whose entry at [i, j, *idx] is the entry of the input
    at [i, *idx, j]. *)
Theorem transpose_spatial_inputs_layout {A : Type} (d : A) (t : tensor A)
  (n c : nat) (sp : list nat) :
  shape t = n :: sp ++ [c] -> (1 <= length sp <= 3)%nat ->
  exists t',
    _transpose_spatial_inputs t = Ok t' /\
    shape t' = n :: c :: sp /\
    forall i j idx, length idx = length sp ->
      get d t' (i :: j :: idx) = get d t (i :: idx ++ [j]).
Proof.
  intros Hs Hl.
  destruct sp as [|s1 [|s2 [|s3 [|s4 sp]]]]; cbn [length] in Hl; try lia;
    by_dims t; try discriminate; cbn [app] in Hs; inversion Hs; subst;
    (eexists; split; [cbv; reflexivity|]; split; [reflexivity|]);
    intros i j idx Hidx.
  - destruct idx as [|a [|]]; try discriminate.
    destruct d0, d1, d2. unfold get; cbn. f_equal. lia.
  - destruct idx as [|a [|b [|]]]; try discriminate.
    destruct d0, d1, d2, d3. unfold get; cbn. f_equal. lia.
  - destruct idx as [|a [|b [|e [|]]]]; try discriminate.
    destruct d0, d1, d2, d3, d4. unfold get; cbn. f_equal. lia.
Qed.

Lemma transpose_spatial_inputs_layout_witness :
  exists t',
    _transpose_spatial_inputs (tabulate [2; 3; 4; 5]%nat offset_id) = Ok t' /\
    shape t' = [2; 5; 3; 4]%nat /\
    forall i j idx, length idx = length [3; 4]%nat ->
      get 0 t' (i :: j :: idx) =
        get 0 (tabulate [2; 3; 4; 5]%nat offset_id) (i :: idx ++ [j]).
Proof.
  apply (transpose_spatial_inputs_layout 0 (tabulate [2; 3; 4; 5]%nat offset_id)
           2 5 [3; 4]%nat).
  - reflexivity.
  - cbn. lia.
Defined.

(** X5: the round trip in the other direction: on ranks 3 to 5,
    [_transpose_spatial_outputs] succeeds, keeps the rank, and
    [_transpose_spatial_inputs] takes its result back to the argument. *)
Theorem transpose_spatial_outputs_inputs {A : Type} (t : tensor A) :
  3 <= ndim t <= 5 ->
  exists t',
    _transpose_spatial_outputs t = Ok t' /\ ndim t' = ndim t /\
    _transpose_spatial_inputs t' = Ok t.
Proof.
  intros Hr. by_dims t; try lia;
    (eexists; split; [reflexivity|split; reflexivity]).
Qed.

Lemma transpose_spatial_outputs_inputs_witness :
  exists t',
    _transpose_spatial_outputs (tabulate [2; 5; 3; 4]%nat offset_id) = Ok t' /\
    ndim t' = ndim (tabulate [2; 5; 3; 4]%nat offset_id) /\
    _transpose_spatial_inputs t' = Ok (tabulate [2; 5; 3; 4]%nat offset_id).
Proof.
  apply (transpose_spatial_outputs_inputs (tabulate [2; 5; 3; 4]%nat offset_id)).
  vm_compute. split; discriminate.
Defined.

Lemma transpose_conv_kernel_total {A : Type} (kernel : tensor A) :
  exists k, _transpose_conv_kernel kernel = Ok k /\ ndim k = ndim kernel /\
            storage k = storage kernel.
Proof.
  by_dims kernel; try (eexists; split; [reflexivity|split; reflexivity]).
  unfold _transpose_conv_kernel, shape; cbn [dims map length].
  off_rank. eexists; split; [reflexivity|split; reflexivity].
Qed.

Lemma transpose_conv_kernel_shape {A : Type} (d : A) (kernel : tensor A)
  (sp : list nat) (cin cout : nat) :
  shape kernel = sp ++ [cin; cout] -> (1 <= length sp <= 3)%nat ->
  exists k,
    _transpose_conv_kernel kernel = Ok k /\
    shape k = cout :: cin :: sp /\
    forall o i idx, length idx = length sp ->
      get d k (o :: i :: idx) = get d kernel (idx ++ [i; o]).
Proof.
  intros Hs Hl.
  destruct sp as [|s1 [|s2 [|s3 [|s4 sp]]]]; cbn [length] in Hl; try lia;
    by_dims kernel; try discriminate; cbn [app] in Hs; inversion Hs; subst;
    (eexists; split; [cbv; reflexivity|]; split; [reflexivity|]);
    intros o i idx Hidx.
  - destruct idx as [|a [|]]; try discriminate.
    destruct d0, d1, d2. unfold get; cbn. f_equal. lia.
  - destruct idx as [|a [|b [|]]]; try discriminate.
    destruct d0, d1, d2, d3. unfold get; cbn. f_equal. lia.
  - destruct idx as [|a [|b [|e [|]]]]; try discriminate.
    destruct d0, d1, d2, d3, d4. unfold get; cbn. f_equal. lia.
Qed.

(** X6: [_transpose_conv_kernel] never raises, keeps the rank and the
    storage, and returns its argument outside ranks 3 to 5; a kernel of shape
    [*spatial, in, out] with one to three spatial dimensions becomes one of
    shape [out, in, *spatial], whose entry at [o, i, *idx] is the entry of
    the argument at [*idx, i, o]. *)
Theorem transpose_conv_kernel_layout {A : Type} (d : A) (kernel : tensor A) :
  (exists k, _transpose_conv_kernel kernel = Ok k /\ ndim k = ndim kernel /\
             storage k = storage kernel) /\
  (~ 3 <= ndim kernel <= 5 -> _transpose_conv_kernel kernel = Ok kernel) /\
  (forall (sp : list nat) (cin cout : nat),
     shape kernel = sp ++ [cin; cout] -> (1 <= length sp <= 3)%nat ->
     exists k,
       _transpose_conv_kernel kernel = Ok k /\
       shape k = cout :: cin :: sp /\
       forall o i idx, length idx = length sp ->
         get d k (o :: i :: idx) = get d kernel (idx ++ [i; o])).
Proof.
  split; [apply transpose_conv_kernel_total|split].
  - intros Hr. by_dims kernel; try lia; try reflexivity.
    unfold _transpose_conv_kernel, shape; cbn [dims map length].
    off_rank. reflexivity.
  - intros sp cin cout. apply transpose_conv_kernel_shape.
Qed.

(** ** Dispatch, further *)

Lemma transpose_spatial_inputs_total {A : Type} (t : tensor A) :
  3 <= ndim t <= 5 ->
  exists t', _transpose_spatial_inputs t = Ok t' /\ ndim t' = ndim t.
Proof.
  intros Hr. by_dims t; try lia; (eexists; split; reflexivity).
Qed.

Ltac step_both :=
  cbv zeta;
  match goal with
  | |- bind ?m _ = _ => destruct m as [?|?]; cbn [bind]; [|reflexivity]
  end;
  repeat match goal with p : (_ * _)%type |- _ => destruct p end.

(** X9: on ranks 3 to 5 both pooling functions under [channels_last] are the
    same function under [channels_first] applied to the transposed input,
    followed by [_transpose_spatial_outputs]; errors included. *)
Theorem pool_channels_last {A : Type} (E : engine A) (cfg : config)
  (inputs : tensor A) (pool_size : int_or_tuple) (strides : option int_or_tuple)
  (padding : string) :
  3 <= ndim inputs <= 5 ->
  exists x,
    _transpose_spatial_inputs inputs = Ok x /\
    max_pool E cfg inputs pool_size strides padding (Some channels_last) =
      (outputs <- max_pool E cfg x pool_size strides padding (Some channels_first) ;;
       _transpose_spatial_outputs outputs) /\
    average_pool E cfg inputs pool_size strides padding (Some channels_last) =
      (outputs <- average_pool E cfg x pool_size strides padding
                    (Some channels_first) ;;
       _transpose_spatial_outputs outputs).
Proof.
  intros Hr. destruct (transpose_spatial_inputs_total inputs Hr) as (x & Hx & Hnd).
  exists x. split; [exact Hx|]. split.
  - unfold max_pool. rewrite Hnd.
    change (standardize_data_format cfg (Some channels_last)) with (Ok channels_last).
    change (standardize_data_format cfg (Some channels_first)) with (Ok channels_first).
    do 2 step_both. cbn [bind].
    change (to_channels_first channels_last inputs)
      with (_transpose_spatial_inputs inputs).
    rewrite Hx. change (to_channels_first channels_first x) with (Ok x).
    cbn [bind]. do 3 step_both.
    change (from_channels_first channels_first ?t) with (Ok t).
    reflexivity.
  - unfold average_pool. rewrite Hnd.
    change (standardize_data_format cfg (Some channels_last)) with (Ok channels_last).
    change (standardize_data_format cfg (Some channels_first)) with (Ok channels_first).
    do 2 step_both. cbn [bind].
    change (to_channels_first channels_last inputs)
      with (_transpose_spatial_inputs inputs).
    rewrite Hx. change (to_channels_first channels_first x) with (Ok x).
    cbn [bind]. do 2 step_both.
    reflexivity.
Qed.

Lemma pool_channels_last_witness :
  exists x,
    _transpose_spatial_inputs (tabulate [1; 4; 4; 2]%nat offset_id) = Ok x /\
    max_pool (null_engine Z) {| image_data_format := channels_first; device := "cpu" |}
      (tabulate [1; 4; 4; 2]%nat offset_id) (PInt 2) None valid (Some channels_last) =
      (outputs <- max_pool (null_engine Z)
                    {| image_data_format := channels_first; device := "cpu" |}
                    x (PInt 2) None valid (Some channels_first) ;;
       _transpose_spatial_outputs outputs) /\
    average_pool (null_engine Z)
      {| image_data_format := channels_first; device := "cpu" |}
      (tabulate [1; 4; 4; 2]%nat offset_id) (PInt 2) None valid (Some channels_last) =
      (outputs <- average_pool (null_engine Z)
                    {| image_data_format := channels_first; device := "cpu" |}
                    x (PInt 2) None valid (Some channels_first) ;;
       _transpose_spatial_outputs outputs).
Proof.
  apply (pool_channels_last (null_engine Z)
           {| image_data_format := channels_first; device := "cpu" |}
           (tabulate [1; 4; 4; 2]%nat offset_id) (PInt 2) None valid).
  vm_compute. split; discriminate.
Defined.

(** X11: on ranks 3 to 5 [conv] under [channels_last] is [conv] under
    [channels_first] on the transposed input, followed by
    [_transpose_spatial_outputs]; errors included. *)
Theorem conv_channels_last {A : Type} (E : engine A) (cfg : config)
  (inputs kernel : tensor A) (strides dilation_rate : int_or_tuple)
  (padding : string) :
  3 <= ndim inputs <= 5 ->
  exists x,
    _transpose_spatial_inputs inputs = Ok x /\
    conv E cfg inputs kernel strides padding (Some channels_last) dilation_rate =
      (outputs <- conv E cfg x kernel strides padding (Some channels_first)
                    dilation_rate ;;
       _transpose_spatial_outputs outputs).
Proof.
  intros Hr. destruct (transpose_spatial_inputs_total inputs Hr) as (x & Hx & Hnd).
  exists x. split; [exact Hx|].
  unfold conv. rewrite Hnd.
  change (standardize_data_format cfg (Some channels_last)) with (Ok channels_last).
  change (standardize_data_format cfg (Some channels_first)) with (Ok channels_first).
  step_both. cbn [bind].
  change (to_channels_first channels_last inputs)
    with (_transpose_spatial_inputs inputs).
  rewrite Hx. change (to_channels_first channels_first x) with (Ok x).
  cbn [bind]. do 5 step_both.
  destruct (0 <? a3); [reflexivity|].
  do 2 step_both.
  change (from_channels_first channels_first ?t) with (Ok t).
  reflexivity.
Qed.

Lemma conv_channels_last_witness :
  exists x,
    _transpose_spatial_inputs (tabulate [1; 5; 4]%nat offset_id) = Ok x /\
    conv (null_engine Z) {| image_data_format := channels_first; device := "cpu" |}
      (tabulate [1; 5; 4]%nat offset_id) (tabulate [3; 2; 6]%nat offset_id)
      (PInt 1) valid (Some channels_last) (PInt 1) =
      (outputs <- conv (null_engine Z)
                    {| image_data_format := channels_first; device := "cpu" |}
                    x (tabulate [3; 2; 6]%nat offset_id)
                    (PInt 1) valid (Some channels_first) (PInt 1) ;;
       _transpose_spatial_outputs outputs).
Proof.
  apply (conv_channels_last (null_engine Z)
           {| image_data_format := channels_first; device := "cpu" |}
           (tabulate [1; 5; 4]%nat offset_id) (tabulate [3; 2; 6]%nat offset_id)
           (PInt 1) (PInt 1) valid).
  vm_compute. split; discriminate.
Defined.

(** X15: when the shared padding helper returns, [conv_transpose] raises a
    [ValueError] on every input whose rank is outside 3 to 5, under either
    data format: it never reads [inputs.shape[1]]. *)
Theorem conv_transpose_rank_guard {A : Type} (E : engine A) (cfg : config)
  (helper : list nat -> list nat -> list Z -> string -> option int_or_tuple ->
            int_or_tuple -> result (list Z * list Z))
  (inputs kernel : tensor A) (strides dilation_rate : int_or_tuple)
  (padding : string) (output_padding : option int_or_tuple)
  (data_format : option string) :
  ~ 3 <= ndim inputs <= 5 ->
  (forall ss, exists p,
     helper (shape inputs) (shape kernel) ss padding output_padding
       dilation_rate = Ok p) ->
  exists msg,
    conv_transpose E cfg helper inputs kernel strides padding output_padding
      data_format dilation_rate = Raise (ValueError msg).
Proof.
  intros Hr Hhelper. unfold conv_transpose. do 2 step_value_error.
  destruct (Hhelper a) as [[tp top] ->]. cbn [bind].
  destruct (to_channels_first_outside a0 inputs Hr) as [[Hf ->] | [_ ->]];
    cbn [bind]; [|eexists; reflexivity].
  destruct (transpose_conv_kernel_total kernel) as (k & -> & _).
  cbn [bind]. off_rank. eexists; reflexivity.
Qed.

Lemma conv_transpose_rank_guard_witness :
  exists msg,
    conv_transpose (null_engine Z)
      {| image_data_format := channels_last; device := "cpu" |}
      (fun _ _ _ _ _ _ => Ok ([0], [0]))
      (tabulate [2; 3]%nat offset_id) (tabulate [3; 2; 6]%nat offset_id)
      (PInt 1) valid None (Some channels_first) (PInt 1) = Raise (ValueError msg).
Proof.
  apply (conv_transpose_rank_guard (null_engine Z)
           {| image_data_format := channels_last; device := "cpu" |}
           (fun _ _ _ _ _ _ => Ok ([0], [0]))
           (tabulate [2; 3]%nat offset_id) (tabulate [3; 2; 6]%nat offset_id)
           (PInt 1) (PInt 1) valid None (Some channels_first)).
  - vm_compute. intros [H _]. now apply H.
  - intros ss. eexists. reflexivity.
Defined.

(** What is left of [conv] once the steps before the channel check are
    known. *)
Lemma conv_from_channel_check {A : Type} (E : engine A) (cfg : config)
  (inputs kernel x k x' : tensor A) (strides dilation_rate : int_or_tuple)
  (padding : string) (data_format : option string)
  (ss : list Z) (fmt : string) (pad : padding_arg) (channels kin : nat) :
  3 <= ndim inputs <= 5 ->
  standardize_tuple strides (ndim inputs - 2) "strides" = Ok ss ->
  standardize_data_format cfg data_format = Ok fmt ->
  to_channels_first fmt inputs = Ok x ->
  _transpose_conv_kernel kernel = Ok k ->
  (if String.eqb padding same && existsb (fun s => negb (s =? 1)) ss
   then _apply_same_padding E x (map Z.of_nat (skipn 2 (shape k))) ss "conv"
          dilation_rate
   else Ok (x, PadStr padding)) = Ok (x', pad) ->
  py_index (shape x') 1 = Ok channels ->
  py_index (shape k) 1 = Ok kin ->
  conv E cfg inputs kernel strides padding data_format dilation_rate =
    (remainder <- py_mod (Z.of_nat channels) (Z.of_nat kin) ;;
     if 0 <? remainder then Raise (ValueError msg_channels)
     else
       groups <- py_floordiv (Z.of_nat channels) (Z.of_nat kin) ;;
       outputs <- call (tnn_conv E (ndim inputs - 2) x' k ss dilation_rate
                          groups pad) ;;
       from_channels_first fmt outputs).
Proof.
  intros Hrank Hss Hfmt Hx Hk Hpad Hch Hkin.
  unfold conv. rewrite Hss; cbn [bind]. rewrite Hfmt; cbn [bind].
  rewrite Hx; cbn [bind]. rewrite Hk; cbn [bind]. rewrite Hpad; cbn [bind].
  rewrite Hch; cbn [bind]. rewrite Hkin; cbn [bind].
  destruct (py_mod (Z.of_nat channels) (Z.of_nat kin)) as [r|e]; [|reflexivity].
  cbn [bind]. destruct (0 <? r); [reflexivity|].
  destruct (py_floordiv (Z.of_nat channels) (Z.of_nat kin)) as [g|e];
    [|reflexivity].
  cbn [bind].
  assert (ndim inputs - 2 = 1 \/ ndim inputs - 2 = 2 \/ ndim inputs - 2 = 3)
    as Hcases by lia.
  destruct Hcases as [-> | [-> | ->]]; reflexivity.
Qed.

(** X13: on ranks 3 to 5, when the steps before the channel check succeed
    ([tnn.pad] included, when "same" padding is applied explicitly), a kernel
    whose input-channel count [kernel.shape[1]] is zero makes [conv] raise
    [ZeroDivisionError], from [channels % kernel_in_channels]. *)
Theorem conv_zero_kernel_channels {A : Type} (E : engine A) (cfg : config)
  (inputs kernel x k x' : tensor A) (strides dilation_rate : int_or_tuple)
  (padding : string) (data_format : option string)
  (ss : list Z) (fmt : string) (pad : padding_arg) (channels : nat) :
  3 <= ndim inputs <= 5 ->
  standardize_tuple strides (ndim inputs - 2) "strides" = Ok ss ->
  standardize_data_format cfg data_format = Ok fmt ->
  to_channels_first fmt inputs = Ok x ->
  _transpose_conv_kernel kernel = Ok k ->
  (if String.eqb padding same && existsb (fun s => negb (s =? 1)) ss
   then _apply_same_padding E x (map Z.of_nat (skipn 2 (shape k))) ss "conv"
          dilation_rate
   else Ok (x, PadStr padding)) = Ok (x', pad) ->
  py_index (shape x') 1 = Ok channels ->
  py_index (shape k) 1 = Ok 0%nat ->
  conv E cfg inputs kernel strides padding data_format dilation_rate =
    Raise ZeroDivisionError.
Proof.
  intros Hrank Hss Hfmt Hx Hk Hpad Hch Hkin.
  now rewrite (conv_from_channel_check E cfg inputs kernel x k x' strides
                 dilation_rate padding data_format ss fmt pad channels 0).
Qed.

Lemma conv_zero_kernel_channels_witness :
  conv (null_engine Z) {| image_data_format := channels_last; device := "cpu" |}
    (tabulate [1; 4; 5]%nat offset_id) (tabulate [3; 0; 6]%nat offset_id)
    (PInt 1) valid (Some channels_first) (PInt 1) = Raise ZeroDivisionError.
Proof.
  apply (conv_zero_kernel_channels (null_engine Z)
           {| image_data_format := channels_last; device := "cpu" |}
           (tabulate [1; 4; 5]%nat offset_id) (tabulate [3; 0; 6]%nat offset_id)
           (tabulate [1; 4; 5]%nat offset_id)
           (mkTensor (storage (tabulate [3; 0; 6]%nat offset_id))
              [(6, 1); (0, 6); (3, 0)]%nat)
           (tabulate [1; 4; 5]%nat offset_id)
           (PInt 1) (PInt 1) valid (Some channels_first) [1] channels_first
           (PadStr valid) 4);
    try reflexivity.
  vm_compute. split; discriminate.
Defined.

Lemma numel_of_app (a b : list nat) :
  numel_of (a ++ b) = (numel_of a * numel_of b)%nat.
Proof.
  induction a as [|n a IH]; cbn [app numel_of fold_right].
  - fold (numel_of b). lia.
  - fold (numel_of (a ++ b)) (numel_of a). rewrite IH. lia.
Qed.

Lemma py_index_from_end {X : Type} (l : list X) (a b : X) :
  py_index (l ++ [a; b]) (-2) = Ok a /\ py_index (l ++ [a; b]) (-1) = Ok b.
Proof.
  unfold py_index. rewrite length_app. cbn [length].
  change (-2 <? 0) with true. change (-1 <? 0) with true. cbv iota.
  split.
  - destruct (Z.ltb_spec (-2 + Z.of_nat (length l + 2)) 0); [lia|].
    destruct (Z.leb_spec (Z.of_nat (length l + 2)) (-2 + Z.of_nat (length l + 2)));
      [lia|]. cbn [orb].
    replace (Z.to_nat (-2 + Z.of_nat (length l + 2))) with (length l + 0)%nat by lia.
    now rewrite nth_error_app2, Nat.add_comm, Nat.add_sub by lia.
  - destruct (Z.ltb_spec (-1 + Z.of_nat (length l + 2)) 0); [lia|].
    destruct (Z.leb_spec (Z.of_nat (length l + 2)) (-1 + Z.of_nat (length l + 2)));
      [lia|]. cbn [orb].
    replace (Z.to_nat (-1 + Z.of_nat (length l + 2))) with (length l + 1)%nat by lia.
    now rewrite nth_error_app2, Nat.add_comm, Nat.add_sub by lia.
Qed.

Lemma py_index_second {X : Type} (a b : X) (l : list X) :
  py_index (a :: b :: l) 1 = Ok b.
Proof.
  unfold py_index. cbn [length]. change (1 <? 0) with false. cbv iota.
  destruct (Z.leb_spec (Z.of_nat (S (S (length l)))) 1); [lia|reflexivity].
Qed.

(** X14: [depthwise_conv] reshapes a kernel of shape [*spatial, in, mult]
    (one to three spatial dimensions) so that the kernel handed to the engine
    has shape [in*mult, 1, *spatial]; the channel check of [conv] then always
    passes and the native convolution runs with [groups] equal to the number
    of input channels. *)
Theorem depthwise_conv_groups {A : Type} (d : A) (E : engine A) (cfg : config)
  (inputs kernel x x' : tensor A) (strides dilation_rate : int_or_tuple)
  (padding : string) (data_format : option string)
  (ss : list Z) (fmt : string) (pad : padding_arg) (channels : nat)
  (sp : list nat) (cin mult : nat) :
  shape kernel = sp ++ [cin; mult] -> (1 <= length sp <= 3)%nat ->
  3 <= ndim inputs <= 5 ->
  standardize_tuple strides (ndim inputs - 2) "strides" = Ok ss ->
  standardize_data_format cfg data_format = Ok fmt ->
  to_channels_first fmt inputs = Ok x ->
  (if String.eqb padding same && existsb (fun s => negb (s =? 1)) ss
   then _apply_same_padding E x (map Z.of_nat sp) ss "conv" dilation_rate
   else Ok (x, PadStr padding)) = Ok (x', pad) ->
  py_index (shape x') 1 = Ok channels ->
  exists k,
    shape k = (cin * mult)%nat :: 1%nat :: sp /\
    depthwise_conv d E cfg inputs kernel strides padding data_format
      dilation_rate =
      (outputs <- call (tnn_conv E (ndim inputs - 2) x' k ss dilation_rate
                          (Z.of_nat channels) pad) ;;
       from_channels_first fmt outputs).
Proof.
  intros Hs Hl Hrank Hss Hfmt Hx Hpad Hch.
  set (s' := sp ++ [1%nat; (cin * mult)%nat]).
  assert (reshape d kernel (map Z.of_nat s') =
          Ok (mkTensor (to_list d kernel) (contiguous s'))) as Hre.
  { unfold reshape. rewrite Hs.
    replace (numel_of (sp ++ [cin; mult])) with (numel_of s').
    - now rewrite infer_shape_exact.
    - unfold s'. rewrite !numel_of_app. cbn. lia. }
  destruct (transpose_conv_kernel_shape d
              (mkTensor (to_list d kernel) (contiguous s')) sp 1 (cin * mult))
    as (k & Hk & Hks & _).
  { unfold shape; cbn [dims]. apply shape_contiguous. }
  { exact Hl. }
  exists k. split; [exact Hks|].
  unfold depthwise_conv. rewrite Hs.
  destruct (py_index_from_end sp cin mult) as [-> ->]. cbn [bind].
  rewrite length_app. cbn [length].
  replace (length sp + 2 - 2)%nat with (length sp + 0)%nat by lia.
  rewrite firstn_app_2. cbn [firstn]. rewrite app_nil_r.
  fold s'. rewrite Hre. cbn [bind].
  rewrite (conv_from_channel_check E cfg inputs _ x k x' strides dilation_rate
             padding data_format ss fmt pad channels 1 Hrank Hss Hfmt Hx Hk).
  - unfold py_mod, py_floordiv. change (Z.of_nat 1 =? 0) with false. cbn [bind].
    rewrite Z.mod_1_r, Z.div_1_r. reflexivity.
  - rewrite Hks. cbn [skipn]. exact Hpad.
  - exact Hch.
  - rewrite Hks. apply py_index_second.
Qed.

Lemma depthwise_conv_groups_witness :
  exists k,
    shape k = (4 * 2)%nat :: 1%nat :: [3%nat] /\
    depthwise_conv 0 (null_engine Z)
      {| image_data_format := channels_last; device := "cpu" |}
      (tabulate [1; 4; 5]%nat offset_id) (tabulate [3; 4; 2]%nat offset_id)
      (PInt 1) valid (Some channels_first) (PInt 1) =
      (outputs <- call (tnn_conv (null_engine Z)
                          (ndim (tabulate [1; 4; 5]%nat offset_id) - 2)
                          (tabulate [1; 4; 5]%nat offset_id) k [1] (PInt 1)
                          (Z.of_nat 4) (PadStr valid)) ;;
       from_channels_first channels_first outputs).
Proof.
  apply (depthwise_conv_groups 0 (null_engine Z)
           {| image_data_format := channels_last; device := "cpu" |}
           (tabulate [1; 4; 5]%nat offset_id) (tabulate [3; 4; 2]%nat offset_id)
           (tabulate [1; 4; 5]%nat offset_id) (tabulate [1; 4; 5]%nat offset_id)
           (PInt 1) (PInt 1) valid (Some channels_first) [1] channels_first
           (PadStr valid) 4 [3%nat] 4 2);
    try reflexivity.
  - cbn. lia.
  - vm_compute. split; discriminate.
Defined.

(** ** One-hot encoding along an axis *)

Lemma py_range_from (a n : nat) :
  py_range (Z.of_nat a) (Z.of_nat (a + n)) = map Z.of_nat (seq a n).
Proof.
  unfold py_range.
  replace (Z.to_nat (Z.of_nat (a + n) - Z.of_nat a)) with n by lia.
  rewrite (seq_as_map a n), map_map. apply map_ext. intros k. lia.
Qed.

Lemma py_index_middle {X : Type} (pre post : list X) (t : X) :
  py_index (pre ++ t :: post) (Z.of_nat (length pre)) = Ok t.
Proof.
  unfold py_index. rewrite length_app. cbn [length].
  destruct (Z.ltb_spec (Z.of_nat (length pre)) 0); [lia|].
  destruct (Z.ltb_spec (Z.of_nat (length pre)) 0); [lia|].
  destruct (Z.leb_spec (Z.of_nat (length pre + S (length post)))
              (Z.of_nat (length pre))); [lia|].
  cbn [orb]. rewrite Nat2Z.id, nth_error_app2, Nat.sub_diag by lia.
  reflexivity.
Qed.

Lemma list_update_middle {X : Type} (pre post : list X) (t v : X) :
  list_update (pre ++ t :: post) (length pre) v = pre ++ v :: post.
Proof.
  induction pre as [|a pre IH]; [reflexivity|].
  cbn [app length list_update]. now rewrite IH.
Qed.

Lemma py_setitem_middle {X : Type} (pre post : list X) (t v : X) :
  py_setitem (pre ++ t :: post) (Z.of_nat (length pre)) v = Ok (pre ++ v :: post).
Proof.
  unfold py_setitem. rewrite length_app. cbn [length].
  destruct (Z.ltb_spec (Z.of_nat (length pre)) 0); [lia|].
  destruct (Z.ltb_spec (Z.of_nat (length pre)) 0); [lia|].
  destruct (Z.leb_spec (Z.of_nat (length pre + S (length post)))
              (Z.of_nat (length pre))); [lia|].
  cbn [orb]. now rewrite Nat2Z.id, list_update_middle.
Qed.

Lemma py_setitem_at {X : Type} (pre post : list X) (t v : X) (i : Z) :
  i = Z.of_nat (length pre) ->
  py_setitem (pre ++ t :: post) i v = Ok (pre ++ v :: post).
Proof. intros ->. apply py_setitem_middle. Qed.

(** The loop of lines 555-556 decrements the entries after [axis] and leaves
    the others. *)
Lemma shift_axes_tail (todo : list Z) :
  forall pre,
    shift_axes (pre ++ todo)
      (map Z.of_nat (seq (length pre) (length todo))) =
      Ok (pre ++ map (fun v => v - 1) todo).
Proof.
  induction todo as [|t todo IH]; intros pre.
  - cbn. reflexivity.
  - cbn [length seq map shift_axes].
    rewrite py_index_middle. cbn [bind].
    rewrite py_setitem_middle. cbn [bind].
    replace (pre ++ t - 1 :: todo) with ((pre ++ [t - 1]) ++ todo)
      by (now rewrite <- app_assoc).
    replace (S (length pre)) with (length (pre ++ [t - 1]))
      by (rewrite length_app; cbn; lia).
    rewrite IH, <- app_assoc. reflexivity.
Qed.

(** The axis order of lines 552-556 for an axis within the input rank: the
    class axis, written -1, at position [a], the axes before it in place and
    the axes after it moved up by one. *)
Lemma new_axes_order_spec (a r : nat) :
  (a <= r)%nat ->
  (order <- py_setitem (py_range 0 (Z.of_nat (r + 1))) (Z.of_nat a) (-1) ;;
   shift_axes order (py_range (Z.of_nat a + 1) (Z.of_nat (r + 1)))) =
    Ok (map Z.of_nat (seq 0 a) ++ -1 :: map Z.of_nat (seq a (r - a))).
Proof.
  intros Ha.
  change 0 with (Z.of_nat 0) at 1.
  change (Z.of_nat (r + 1)) with (Z.of_nat (0 + (r + 1))) at 1.
  rewrite py_range_from.
  replace (r + 1)%nat with (a + S (r - a))%nat at 1 by lia.
  rewrite seq_app, map_app. cbn [seq map Nat.add].
  rewrite (py_setitem_at (map Z.of_nat (seq 0 a)))
    by (now rewrite length_map, length_seq).
  cbn [bind].
  replace (Z.of_nat a + 1) with (Z.of_nat (S a)) by lia.
  replace (r + 1)%nat with (S a + (r - a))%nat by lia.
  rewrite py_range_from.
  replace (map Z.of_nat (seq 0 a) ++ -1 :: map Z.of_nat (seq (S a) (r - a)))
    with ((map Z.of_nat (seq 0 a) ++ [-1]) ++ map Z.of_nat (seq (S a) (r - a)))
    by (now rewrite <- app_assoc).
  replace (seq (S a) (r - a))
    with (seq (length (map Z.of_nat (seq 0 a) ++ [-1]))
            (length (map Z.of_nat (seq (S a) (r - a))))) at 2
    by (rewrite length_app, !length_map, !length_seq; cbn [length];
        f_equal; lia).
  rewrite shift_axes_tail, <- app_assoc. cbn [app]. do 3 f_equal.
  rewrite map_map, <- seq_shift, map_map. apply map_ext. intros k. lia.
Qed.

Lemma map_nth_range {X : Type} (d : X) (l : list X) :
  forall a k, (a + k <= length l)%nat ->
    map (fun i => nth i l d) (seq a k) = firstn k (skipn a l).
Proof.
  induction l as [|x l IH]; intros a k Hk.
  - cbn [length] in Hk. assert (k = 0%nat) as -> by lia.
    now rewrite firstn_O.
  - destruct a as [|a].
    + destruct k as [|k]; [reflexivity|].
      cbn [seq map nth skipn firstn]. f_equal.
      rewrite <- seq_shift, map_map. cbn [nth].
      rewrite (IH 0%nat k) by (cbn [length] in Hk; lia). reflexivity.
    + rewrite <- seq_shift, map_map. cbn [nth skipn].
      apply IH. cbn [length] in Hk. lia.
Qed.

Lemma normalize_dims_range (n a k : nat) :
  (a + k <= n)%nat -> normalize_dims n (map Z.of_nat (seq a k)) = Some (seq a k).
Proof.
  revert a. induction k as [|k IH]; intros a Hk; [reflexivity|].
  cbn [seq map normalize_dims]. rewrite IH by lia.
  unfold normalize_dim.
  destruct (Z.ltb_spec (Z.of_nat a) 0); [lia|].
  destruct (Z.leb_spec 0 (Z.of_nat a)); [|lia].
  destruct (Z.ltb_spec (Z.of_nat a) (Z.of_nat n)); [|lia].
  cbn [andb]. now rewrite Nat2Z.id.
Qed.

Lemma normalize_dims_app (n : nat) (p q : list Z) (p' q' : list nat) :
  normalize_dims n p = Some p' -> normalize_dims n q = Some q' ->
  normalize_dims n (p ++ q) = Some (p' ++ q').
Proof.
  revert p'. induction p as [|x p IH]; intros p' Hp Hq.
  - injection Hp as <-. exact Hq.
  - cbn [app normalize_dims] in *.
    destruct (normalize_dim n x) as [x'|]; [|discriminate].
    destruct (normalize_dims n p) as [r|]; [|discriminate].
    injection Hp as <-. now rewrite (IH r eq_refl Hq).
Qed.

(** Moving the last dimension to position [a] is a permutation torch
    accepts; the other dimensions keep their order. *)
Lemma permute_move_last {A : Type} (st : list A) (D0 : list (nat * nat))
  (p : nat * nat) (a : nat) :
  (a <= length D0)%nat ->
  permute (mkTensor st (D0 ++ [p]))
    (map Z.of_nat (seq 0 a) ++ -1 :: map Z.of_nat (seq a (length D0 - a))) =
    Ok (mkTensor st (firstn a D0 ++ p :: skipn a D0)).
Proof.
  intros Ha. unfold permute; cbn [dims storage].
  rewrite length_app. cbn [length].
  rewrite (normalize_dims_app _ _ (-1 :: map Z.of_nat (seq a (length D0 - a)))
             (seq 0 a) (length D0 :: seq a (length D0 - a))).
  - assert (is_permutation_of_range
              (seq 0 a ++ length D0 :: seq a (length D0 - a))
              (length D0 + 1) = true) as ->.
    { unfold is_permutation_of_range. apply andb_true_iff. split.
      - apply Nat.eqb_eq. rewrite length_app. cbn [length].
        rewrite !length_seq. lia.
      - apply forallb_forall. intros i Hi. apply in_seq in Hi.
        apply existsb_exists. exists i. split; [|apply Nat.eqb_refl].
        apply in_app_iff.
        destruct (Nat.lt_ge_cases i a) as [Hlt|Hge].
        + left. apply in_seq. lia.
        + right. destruct (Nat.eq_dec i (length D0)) as [->|Hne];
            [now left|right]. apply in_seq. lia. }
    f_equal. f_equal. rewrite map_app. cbn [map]. f_equal; [|f_equal].
    + rewrite (map_ext_in _ (fun i => nth i D0 (0, 0)%nat)).
      * rewrite map_nth_range by lia. cbn [skipn]. reflexivity.
      * intros i Hi. apply in_seq in Hi. apply app_nth1. lia.
    + rewrite app_nth2, Nat.sub_diag by lia. reflexivity.
    + rewrite (map_ext_in _ (fun i => nth i D0 (0, 0)%nat)).
      * rewrite map_nth_range by lia. apply firstn_all2.
        rewrite length_skipn. lia.
      * intros i Hi. apply in_seq in Hi. apply app_nth1. lia.
  - apply normalize_dims_range. lia.
  - cbn [normalize_dims]. rewrite normalize_dims_range by lia.
    unfold normalize_dim. change (-1 <? 0) with true. cbv iota.
    destruct (Z.leb_spec 0 (-1 + Z.of_nat (length D0 + 1))); [|lia].
    destruct (Z.ltb_spec (-1 + Z.of_nat (length D0 + 1))
                (Z.of_nat (length D0 + 1))); [|lia].
    cbn [andb]. do 2 f_equal. lia.
Qed.

Lemma contiguous_snoc (s : list nat) (C : nat) :
  contiguous (s ++ [C]) =
    map (fun q => (fst q, (snd q * C)%nat)) (contiguous s) ++ [(C, 1%nat)].
Proof.
  induction s as [|n s IH]; [reflexivity|].
  cbn [app contiguous map fst snd]. rewrite IH. f_equal. f_equal.
  rewrite numel_of_app. cbn. lia.
Qed.

Lemma offset_app (ds1 ds2 : list (nat * nat)) (i1 i2 : list nat) :
  length i1 = length ds1 ->
  offset (ds1 ++ ds2) (i1 ++ i2) = (offset ds1 i1 + offset ds2 i2)%nat.
Proof.
  revert i1. induction ds1 as [|[n st] ds1 IH]; intros [|i i1] Hlen;
    try discriminate; [reflexivity|].
  cbn [app offset]. cbn [length] in Hlen. rewrite IH by lia. lia.
Qed.

(** X16: for an axis [a] between 0 and the rank of [x], [one_hot] puts the
    class axis at position [a]: the result has shape
    [x.shape[:a] + (num_classes,) + x.shape[a:]], and its entry at
    [*pre, c, *post] (with [pre] of length [a]) is 1 when the entry of [x] at
    [*pre, *post] is [c], and 0 otherwise, negative entries included. *)
Theorem one_hot_axis (tnn_one_hot : tensor Z -> Z -> result (tensor Z))
  (x : tensor Z) (C a : nat) :
  one_hot_kernel tnn_one_hot ->
  well_formed x -> (0 < C)%nat ->
  (forall idx, in_bounds (shape x) idx -> get 0 x idx < Z.of_nat C) ->
  (a <= length (shape x))%nat ->
  exists out,
    one_hot tnn_one_hot x (Z.of_nat C) (Z.of_nat a) = Ok out /\
    shape out = firstn a (shape x) ++ C :: skipn a (shape x) /\
    forall pre post c,
      length pre = a -> in_bounds (shape x) (pre ++ post) -> (c < C)%nat ->
      get 0 out (pre ++ c :: post) =
        if (0 <=? get 0 x (pre ++ post)) && (get 0 x (pre ++ post) =? Z.of_nat c)
        then 1 else 0.
Proof.
  intros Hk Hwf HC Hlt Ha.
  assert (forall idx, get 0 (maximum x 0) idx = Z.max (get 0 x idx) 0) as Hmax
    by (intros idx; apply (get_tmap (fun v => Z.max v 0) 0)).
  destruct (Hk (maximum x 0) C HC) as (out0 & Hk0 & Hs0 & Hg0).
  { intros idx Hidx. rewrite Hmax. specialize (Hlt idx Hidx). lia. }
  destruct (where_nonnegative_rows x out0 C Hwf Hs0) as (out & Hw & Hs & Hd & Hg).
  set (D0 := map (fun q => (fst q, (snd q * C)%nat)) (contiguous (shape x))).
  assert (length D0 = length (shape x)) as HlenD.
  { unfold D0. rewrite length_map, <- (length_map fst), shape_contiguous.
    reflexivity. }
  assert (map fst D0 = shape x) as HfstD.
  { unfold D0. rewrite map_map. cbn [fst]. apply shape_contiguous. }
  destruct out as [st ds]. cbn [dims] in Hd. rewrite contiguous_snoc in Hd.
  fold D0 in Hd. subst ds.
  exists (mkTensor st (firstn a D0 ++ (C, 1%nat) :: skipn a D0)).
  split; [|split].
  - unfold one_hot. rewrite Hk0. cbn [bind].
    unfold bind in Hw. unfold bind at 1.
    destruct (expand_dims x (-1)) as [xe|e]; [|discriminate].
    rewrite Hw. cbn [bind]. unfold ndim; cbn [dims].
    rewrite length_app. cbn [length]. rewrite HlenD.
    destruct (Z.eqb_spec (Z.of_nat a) (-1)); [lia|].
    destruct (Z.eqb_spec (Z.of_nat a) (Z.of_nat (length (shape x) + 1))); [lia|].
    cbn [negb andb].
    pose proof (new_axes_order_spec a (length (shape x)) Ha) as Hord.
    destruct (py_setitem (py_range 0 (Z.of_nat (length (shape x) + 1)))
                (Z.of_nat a) (-1)) as [o|e]; [|discriminate].
    cbn [bind] in Hord |- *. rewrite Hord. cbn [bind].
    rewrite <- HlenD. now apply permute_move_last; rewrite HlenD.
  - rewrite <- HfstD. unfold shape; cbn [dims]. rewrite map_app. cbn [map fst].
    now rewrite firstn_map, skipn_map.
  - intros pre post c Hpre Hin Hc.
    assert (length (pre ++ post) = length D0) as Hlen.
    { apply in_bounds_length in Hin. now rewrite HlenD. }
    transitivity (get 0 (mkTensor st (D0 ++ [(C, 1%nat)])) ((pre ++ post) ++ [c])).
    + unfold get; cbn [dims storage]. f_equal.
      rewrite offset_snoc by exact Hlen.
      rewrite offset_app by (rewrite length_firstn; lia).
      cbn [offset].
      rewrite <- (firstn_skipn a D0) at 3.
      rewrite offset_app by (rewrite length_firstn; lia).
      lia.
    + rewrite Hg by assumption.
      destruct (Z.leb_spec 0 (get 0 x (pre ++ post))) as [Hpos|Hneg];
        [|reflexivity].
      change (shape x) with (shape (maximum x 0)) in Hin.
      rewrite Hg0, Hmax by assumption.
      rewrite Z.max_l by lia. reflexivity.
Qed.

Lemma one_hot_axis_witness :
  exists out,
    one_hot tnn_one_hot_cpu (tabulate [2; 3]%nat (fun idx => offset_id idx - 1))
      (Z.of_nat 13) (Z.of_nat 1) = Ok out /\
    shape out =
      firstn 1 (shape (tabulate [2; 3]%nat (fun idx => offset_id idx - 1)))
      ++ 13%nat
         :: skipn 1 (shape (tabulate [2; 3]%nat (fun idx => offset_id idx - 1))) /\
    forall pre post c,
      length pre = 1%nat ->
      in_bounds (shape (tabulate [2; 3]%nat (fun idx => offset_id idx - 1)))
        (pre ++ post) ->
      (c < 13)%nat ->
      get 0 out (pre ++ c :: post) =
        if (0 <=? get 0 (tabulate [2; 3]%nat (fun idx => offset_id idx - 1))
                    (pre ++ post))
           && (get 0 (tabulate [2; 3]%nat (fun idx => offset_id idx - 1))
                 (pre ++ post) =? Z.of_nat c)
        then 1 else 0.
Proof.
  apply (one_hot_axis tnn_one_hot_cpu
           (tabulate [2; 3]%nat (fun idx => offset_id idx - 1)) 13 1).
  - exact tnn_one_hot_cpu_kernel.
  - apply well_formed_tabulate.
  - lia.
  - intros idx Hidx. rewrite shape_tabulate in Hidx.
    rewrite get_tabulate by assumption.
    inversion Hidx as [|i n tl r Hi Htl]; subst.
    inversion Htl as [|j m tl' r' Hj Htl']; subst. inversion Htl'; subst.
    destruct i as [|[|i]]; destruct j as [|[|[|j]]]; cbn; lia.
  - cbn. lia.
Defined.

Lemma length_py_range (n : nat) : length (py_range 0 (Z.of_nat n)) = n.
Proof.
  unfold py_range. rewrite length_map, length_seq. lia.
Qed.

(** X17: an axis beyond the rank of the encoded output, or below minus that
    rank, makes [one_hot] raise [IndexError] (at [new_axes_order[axis] = -1]);
    an axis equal to that rank is let through by the test [axis != dims] and
    gives what [axis=-1] gives. *)
Theorem one_hot_axis_out_of_range
  (tnn_one_hot : tensor Z -> Z -> result (tensor Z)) (x : tensor Z) (C : nat) :
  one_hot_kernel tnn_one_hot ->
  well_formed x -> (0 < C)%nat ->
  (forall idx, in_bounds (shape x) idx -> get 0 x idx < Z.of_nat C) ->
  (forall axis,
     Z.of_nat (length (shape x)) + 1 < axis \/
     axis < - (Z.of_nat (length (shape x)) + 1) ->
     one_hot tnn_one_hot x (Z.of_nat C) axis = Raise IndexError) /\
  one_hot tnn_one_hot x (Z.of_nat C) (Z.of_nat (length (shape x)) + 1) =
    one_hot tnn_one_hot x (Z.of_nat C) (-1).
Proof.
  intros Hk Hwf HC Hlt.
  destruct (Hk (maximum x 0) C HC) as (out0 & Hk0 & Hs0 & _).
  { intros idx Hidx.
    assert (get 0 (maximum x 0) idx = Z.max (get 0 x idx) 0) as ->
      by apply (get_tmap (fun v => Z.max v 0) 0).
    specialize (Hlt idx Hidx). lia. }
  destruct (where_nonnegative_rows x out0 C Hwf Hs0) as (out & Hw & Hs & _ & _).
  assert (ndim out = Z.of_nat (length (shape x) + 1)) as Hnd.
  { unfold ndim. rewrite <- (length_map fst). fold (shape out).
    rewrite Hs, length_app. reflexivity. }
  assert (forall axis,
            one_hot tnn_one_hot x (Z.of_nat C) axis =
            if negb (axis =? -1) && negb (axis =? ndim out)
            then
              order <- py_setitem (py_range 0 (ndim out)) axis (-1) ;;
              order <- shift_axes order (py_range (axis + 1) (ndim out)) ;;
              permute out order
            else Ok out) as Hone.
  { intros axis. unfold one_hot. rewrite Hk0. cbn [bind].
    unfold bind in Hw. unfold bind at 1.
    destruct (expand_dims x (-1)) as [xe|e]; [|discriminate].
    rewrite Hw. reflexivity. }
  split.
  - intros axis Haxis. rewrite Hone, Hnd.
    destruct (Z.eqb_spec axis (-1)); [lia|].
    destruct (Z.eqb_spec axis (Z.of_nat (length (shape x) + 1))); [lia|].
    cbn [negb andb]. unfold py_setitem. rewrite length_py_range.
    destruct (Z.ltb_spec axis 0).
    + destruct (Z.ltb_spec (axis + Z.of_nat (length (shape x) + 1)) 0);
        [reflexivity|lia].
    + destruct (Z.ltb_spec axis 0); [lia|].
      destruct (Z.leb_spec (Z.of_nat (length (shape x) + 1)) axis);
        [reflexivity|lia].
  - rewrite !Hone, Hnd.
    replace (Z.of_nat (length (shape x)) + 1)
      with (Z.of_nat (length (shape x) + 1)) by lia.
    rewrite Z.eqb_refl. cbn [negb andb]. rewrite andb_false_r. reflexivity.
Qed.

Lemma one_hot_axis_out_of_range_witness :
  (forall axis,
     Z.of_nat (length (shape (vector [0; 2; -1]))) + 1 < axis \/
     axis < - (Z.of_nat (length (shape (vector [0; 2; -1]))) + 1) ->
     one_hot tnn_one_hot_cpu (vector [0; 2; -1]) (Z.of_nat 3) axis =
       Raise IndexError) /\
  one_hot tnn_one_hot_cpu (vector [0; 2; -1]) (Z.of_nat 3)
    (Z.of_nat (length (shape (vector [0; 2; -1]))) + 1) =
    one_hot tnn_one_hot_cpu (vector [0; 2; -1]) (Z.of_nat 3) (-1).
Proof.
  apply (one_hot_axis_out_of_range tnn_one_hot_cpu (vector [0; 2; -1]) 3).
  - exact tnn_one_hot_cpu_kernel.
  - apply well_formed_vector.
  - lia.
  - intros idx Hidx. inversion Hidx as [|i n tl r Hi Htl]; subst.
    inversion Htl; subst.
    destruct i as [|[|[|i]]]; cbn; lia.
Defined.

(** ** Sparse and binary cross-entropy *)

Lemma py_index_last {X : Type} (l : list X) (b : X) :
  py_index (l ++ [b]) (-1) = Ok b.
Proof.
  unfold py_index. rewrite length_app. cbn [length].
  change (-1 <? 0) with true. cbv iota.
  destruct (Z.ltb_spec (-1 + Z.of_nat (length l + 1)) 0); [lia|].
  destruct (Z.leb_spec (Z.of_nat (length l + 1)) (-1 + Z.of_nat (length l + 1)));
    [lia|]. cbn [orb].
  replace (Z.to_nat (-1 + Z.of_nat (length l + 1))) with (length l) by lia.
  now rewrite nth_error_app2, Nat.sub_diag by lia.
Qed.

Lemma length_removelast_lt {X : Type} (l : list X) :
  l <> [] -> S (length (removelast l)) = length l.
Proof.
  intros Hne. destruct l as [|x l]; [contradiction|].
  rewrite (app_removelast_last x Hne) at 2.
  rewrite length_app. cbn [length]. lia.
Qed.

(** A trailing dimension of size 1 is dropped by [squeeze(t, -1)]. *)
Lemma squeeze_last {A : Type} (t : tensor A) (st0 : list nat) :
  shape t = st0 ++ [1%nat] ->
  exists t', squeeze t (-1) = Ok t' /\ shape t' = st0 /\ storage t' = storage t.
Proof.
  unfold shape. destruct t as [st ds]; cbn [dims].
  destruct ds as [|x l] using rev_ind; [destruct st0; discriminate|].
  clear IHl. rewrite map_app. cbn [map]. intros H.
  apply app_inj_tail in H as [Hl Hx].
  exists (mkTensor st l). split; [|split; [exact Hl|reflexivity]].
  unfold squeeze, shape; cbn [dims storage].
  assert (normalize_dim (length (l ++ [x])) (-1) = Some (length l)) as Hn.
  { unfold normalize_dim. rewrite length_app. cbn [length].
    change (-1 <? 0) with true. cbv iota.
    destruct (Z.leb_spec 0 (-1 + Z.of_nat (length l + 1))); [|lia].
    destruct (Z.ltb_spec (-1 + Z.of_nat (length l + 1))
                (Z.of_nat (length l + 1))); [|lia].
    cbn [andb]. f_equal. lia. }
  destruct (l ++ [x]) as [|y r] eqn:Hlx; [destruct l; discriminate|].
  rewrite Hn, <- Hlx, map_app. cbn [map].
  rewrite app_nth2 by (rewrite length_map; lia).
  rewrite length_map, Nat.sub_diag. cbn [nth]. rewrite Hx. cbn [Nat.eqb].
  rewrite firstn_app, firstn_all, Nat.sub_diag. cbn [firstn].
  rewrite skipn_all2 by (rewrite length_app; cbn [length]; lia).
  now rewrite !app_nil_r.
Qed.

(** X20: the guards of [sparse_categorical_crossentropy].  Two scalars raise
    [IndexError] at [target.shape[-1]], before the rank guard; a scalar
    [output] with any other [target] raises the rank [ValueError]; and with
    [output] of rank at least 1 the shape [ValueError] is raised when the
    ranks differ and [target.shape] is not [output.shape[:-1]], and, when the
    ranks are equal, as soon as the last dimension of [target] is not 1 or
    the dimensions before it are not [output.shape[:-1]]. *)
Theorem sparse_categorical_crossentropy_guards {A : Type} (d : A) (E : engine A)
  (epsilon float_one : A) (float_sub : A -> A -> A)
  (tnn_one_hot : tensor Z -> Z -> result (tensor Z)) (of_long : Z -> A)
  (target : tensor Z) (output : tensor A) (from_logits : bool) (axis : Z) :
  (shape output = [] -> shape target = [] ->
   sparse_categorical_crossentropy d E epsilon float_one float_sub tnn_one_hot
     of_long target output from_logits axis = Raise IndexError) /\
  (shape output = [] -> shape target <> [] ->
   sparse_categorical_crossentropy d E epsilon float_one float_sub tnn_one_hot
     of_long target output from_logits axis = Raise (ValueError msg_output_rank)) /\
  (shape output <> [] ->
   length (shape target) <> length (shape output) ->
   shape target <> removelast (shape output) ->
   sparse_categorical_crossentropy d E epsilon float_one float_sub tnn_one_hot
     of_long target output from_logits axis =
     Raise (ValueError msg_same_shape_until_last)) /\
  (forall st0 z,
     length (shape target) = length (shape output) ->
     shape target = st0 ++ [z] ->
     z <> 1%nat \/ st0 <> removelast (shape output) ->
     sparse_categorical_crossentropy d E epsilon float_one float_sub tnn_one_hot
       of_long target output from_logits axis =
       Raise (ValueError msg_same_shape_until_last)).
Proof.
  unfold sparse_categorical_crossentropy. split; [|split; [|split]].
  - intros -> ->. reflexivity.
  - intros Ho Ht. rewrite Ho. destruct (shape target); [contradiction|].
    reflexivity.
  - intros Ho Hlen Hne.
    destruct (Nat.eqb_spec (length (shape target)) (length (shape output)));
      [contradiction|]. cbn [bind].
    destruct (shape output) as [|c0 so] eqn:Hso; [contradiction|].
    cbn [length]. destruct (Z.ltb_spec (Z.of_nat (S (length so))) 1); [lia|].
    unfold shape_differs.
    destruct (list_eq_dec Nat.eq_dec (shape target) (removelast (c0 :: so)));
      [contradiction|reflexivity].
  - intros st0 z Hlen Ht Hz.
    assert (shape output <> []) as Ho.
    { intros Ho. rewrite Ho, Ht, length_app in Hlen. cbn in Hlen. lia. }
    rewrite Hlen, Nat.eqb_refl, Ht, py_index_last. cbn [bind].
    assert ((Z.of_nat (length (shape output)) <? 1) = false) as Hrank.
    { destruct (shape output); [contradiction|]. cbn [length].
      destruct (Z.ltb_spec (Z.of_nat (S (length l))) 1); [lia|reflexivity]. }
    destruct (Nat.eqb_spec z 1) as [->|Hz1].
    + destruct Hz as [Hz|Hst]; [contradiction|].
      destruct (squeeze_last target st0 Ht) as (t' & -> & Hs' & _).
      cbn [bind]. rewrite Hrank, Hs'. unfold shape_differs.
      destruct (list_eq_dec Nat.eq_dec st0 (removelast (shape output)));
        [contradiction|reflexivity].
    + cbn [bind]. rewrite Hrank, Ht. unfold shape_differs.
      destruct (list_eq_dec Nat.eq_dec (st0 ++ [z]) (removelast (shape output)))
        as [Heq|]; [|reflexivity].
      apply (f_equal (@length nat)) in Heq.
      pose proof (length_removelast_lt (shape output) Ho) as Hl.
      rewrite <- Ht, Hlen in Heq. lia.
Qed.

(** X21: a [target] of the rank of [output] whose last dimension is 1 is
    squeezed first: the result is that of the call on the squeezed target,
    which has the same storage and the shape without the trailing 1. *)
Theorem sparse_categorical_crossentropy_squeezes {A : Type} (d : A)
  (E : engine A) (epsilon float_one : A) (float_sub : A -> A -> A)
  (tnn_one_hot : tensor Z -> Z -> result (tensor Z)) (of_long : Z -> A)
  (target : tensor Z) (output : tensor A) (from_logits : bool) (axis : Z)
  (st0 : list nat) :
  length (shape target) = length (shape output) ->
  shape target = st0 ++ [1%nat] ->
  exists t',
    squeeze target (-1) = Ok t' /\ shape t' = st0 /\
    storage t' = storage target /\
    sparse_categorical_crossentropy d E epsilon float_one float_sub tnn_one_hot
      of_long target output from_logits axis =
    sparse_categorical_crossentropy d E epsilon float_one float_sub tnn_one_hot
      of_long t' output from_logits axis.
Proof.
  intros Hlen Ht.
  destruct (squeeze_last target st0 Ht) as (t' & Hsq & Hs' & Hst).
  exists t'. split; [exact Hsq|]. split; [exact Hs'|]. split; [exact Hst|].
  unfold sparse_categorical_crossentropy.
  rewrite Hlen, Nat.eqb_refl, Ht, py_index_last. cbn [bind Nat.eqb].
  rewrite Hsq. cbn [bind].
  assert ((length (shape t') =? length (shape output))%nat = false) as ->.
  { apply Nat.eqb_neq. rewrite Hs', <- Hlen, Ht, length_app. cbn [length]. lia. }
  reflexivity.
Qed.

Lemma sparse_categorical_crossentropy_squeezes_witness :
  exists t',
    squeeze (tabulate [2; 1]%nat offset_id) (-1) = Ok t' /\ shape t' = [2%nat] /\
    storage t' = storage (tabulate [2; 1]%nat offset_id) /\
    sparse_categorical_crossentropy 0%Q rational_engine (1 # 10000000)%Q 1%Q
      Qminus tnn_one_hot_cpu inject_Z (tabulate [2; 1]%nat offset_id)
      (tabulate [2; 3]%nat (fun _ => 1%Q)) true (-1) =
    sparse_categorical_crossentropy 0%Q rational_engine (1 # 10000000)%Q 1%Q
      Qminus tnn_one_hot_cpu inject_Z t'
      (tabulate [2; 3]%nat (fun _ => 1%Q)) true (-1).
Proof.
  apply (sparse_categorical_crossentropy_squeezes 0%Q rational_engine
           (1 # 10000000)%Q 1%Q Qminus tnn_one_hot_cpu inject_Z
           (tabulate [2; 1]%nat offset_id) (tabulate [2; 3]%nat (fun _ => 1%Q))
           true (-1) [2%nat]); reflexivity.
Defined.

(** X22: [binary_crossentropy] raises a [ValueError] exactly when the shapes
    of [target] and [output] differ; on equal shapes it is the logits kernel
    on the unclipped [output], or else the probability kernel on [output]
    clipped into [epsilon, 1 - epsilon], both with [reduction="none"]. *)
Theorem binary_crossentropy_shape_guard {A : Type} (E : engine A)
  (epsilon float_one : A) (float_sub : A -> A -> A)
  (with_logits plain : tensor A -> tensor A -> string -> native (tensor A))
  (target output : tensor A) (from_logits : bool) :
  ((exists msg,
      binary_crossentropy E epsilon float_one float_sub with_logits plain
        target output from_logits = Raise (ValueError msg))
   <-> shape target <> shape output) /\
  (shape target <> shape output ->
   binary_crossentropy E epsilon float_one float_sub with_logits plain
     target output from_logits = Raise (ValueError msg_same_shape)) /\
  (shape target = shape output ->
   binary_crossentropy E epsilon float_one float_sub with_logits plain
     target output from_logits =
     if from_logits then call (with_logits output target "none"%string)
     else
       clipped <- call (torch_clip E output epsilon (float_sub float_one epsilon)) ;;
       call (plain clipped target "none"%string)).
Proof.
  unfold binary_crossentropy, shape_differs.
  destruct (list_eq_dec Nat.eq_dec (shape target) (shape output)) as [Heq|Hne].
  - split; [|split]; [|contradiction|reflexivity].
    split; [|contradiction]. intros [msg H]. exfalso.
    destruct from_logits.
    + apply call_not_value_error in H. discriminate.
    + destruct (call (torch_clip E output epsilon (float_sub float_one epsilon)))
        as [c|e] eqn:Hc; cbn [bind] in H.
      * apply call_not_value_error in H. discriminate.
      * injection H as ->. apply call_not_value_error in Hc. discriminate.
  - split; [|split]; [|reflexivity|contradiction].
    split; [intros _; exact Hne|]. intros _. eexists. reflexivity.
Qed.

(** ** Multi-hot encoding *)

Lemma wrap_int32_small (v : Z) :
  -2147483648 <= v < 2147483648 -> wrap_int32 v = v.
Proof.
  intros Hv. unfold wrap_int32.
  rewrite Z.mod_small by lia. lia.
Qed.

Lemma well_formed_tmap {X Y : Type} (f : X -> Y) (t : tensor X) :
  well_formed t -> well_formed (tmap f t).
Proof.
  intros Hwf idx Hidx. unfold tmap; cbn [dims storage].
  rewrite length_map. now apply Hwf.
Qed.

(** The 32-bit cast keeps a tensor whose entries fit in 32 bits. *)
Lemma cast_int32_keeps (x : tensor Z) :
  well_formed x ->
  (forall idx, in_bounds (shape x) idx ->
     -2147483648 <= get 0 x idx < 2147483648) ->
  cast_keeps cast_int32 x.
Proof.
  intros Hwf Hrange. split; [|split].
  - now apply well_formed_tmap.
  - reflexivity.
  - intros idx Hidx. unfold cast_int32.
    assert (get 0 (tmap wrap_int32 x) idx = wrap_int32 (get 0 x idx)) as ->
      by apply (get_tmap wrap_int32 0).
    now apply wrap_int32_small, Hrange.
Qed.

Lemma fold_max_indicator {X : Type} (p : X -> bool) (js : list X) (a : Z) :
  0 <= a <= 1 ->
  fold_right Z.max a (map (fun j => if p j then 1 else 0) js) =
    Z.max a (if existsb p js then 1 else 0).
Proof.
  intros Ha. induction js as [|j js IH]; cbn [map fold_right existsb].
  - lia.
  - rewrite IH. destruct (p j), (existsb p js); cbn [orb]; lia.
Qed.

Lemma list_max_indicator {X : Type} (p : X -> bool) (js : list X) :
  js <> [] ->
  list_max (map (fun j => if p j then 1 else 0) js) =
    if existsb p js then 1 else 0.
Proof.
  destruct js as [|j js]; [contradiction|]. intros _.
  cbn [map list_max existsb].
  rewrite fold_max_indicator by (destruct (p j); lia).
  destruct (p j), (existsb p js); cbn [orb]; lia.
Qed.

Lemma existsb_map {X Y : Type} (f : Y -> bool) (g : X -> Y) (l : list X) :
  existsb f (map g l) = existsb (fun x => f (g x)) l.
Proof. induction l as [|x l IH]; cbn; [|rewrite IH]; reflexivity. Qed.

Lemma existsb_ext_in {X : Type} (f g : X -> bool) (l : list X) :
  (forall x, In x l -> f x = g x) -> existsb f l = existsb g l.
Proof.
  induction l as [|x l IH]; intros H; [reflexivity|].
  cbn [existsb]. rewrite (H x) by now left.
  rewrite IH; [reflexivity|]. intros y Hy. apply H. now right.
Qed.

(** An indicator of a class that is not negative ignores the sign test. *)
Lemma indicator_nonnegative (v : Z) (c : nat) :
  (0 <=? v) && (v =? Z.of_nat c) = (v =? Z.of_nat c).
Proof.
  destruct (Z.eqb_spec v (Z.of_nat c)) as [->|]; [|apply andb_false_r].
  destruct (Z.leb_spec 0 (Z.of_nat c)); [reflexivity|lia].
Qed.

Lemma amax_along (t : tensor Z) (ax : nat) :
  (ax < length (shape t))%nat -> nth ax (shape t) 0%nat <> 0%nat ->
  amax t (Z.of_nat ax) =
    Ok (tabulate (remove_nth ax (shape t))
          (fun idx => list_max (fiber 0 t (insert_nth ax 0%nat idx) ax))).
Proof.
  intros Hax Hsize. unfold amax.
  assert (length (dims t) = length (shape t)) as Hlen
    by (unfold shape; now rewrite length_map).
  destruct (dims t) as [|d0 ds] eqn:Hd.
  - rewrite <- Hlen in Hax. cbn [length] in Hax. lia.
  - rewrite Hlen. unfold normalize_dim.
    destruct (Z.ltb_spec (Z.of_nat ax) 0); [lia|].
    destruct (Z.leb_spec 0 (Z.of_nat ax)); [|lia].
    destruct (Z.ltb_spec (Z.of_nat ax) (Z.of_nat (length (shape t)))); [|lia].
    cbn [andb]. rewrite Nat2Z.id.
    destruct (Nat.eqb_spec (nth ax (shape t) 0%nat) 0); [contradiction|].
    reflexivity.
Qed.

(** X18: on a non-empty one-dimensional [x] whose entries are below
    [num_classes] and are kept by the cast, [multi_hot] returns a vector of
    length [num_classes] whose entry [c] is 1 when [c] occurs in [x] and 0
    otherwise; negative entries set nothing. *)
Theorem multi_hot_vector (cast : tensor Z -> string -> tensor Z)
  (tnn_one_hot : tensor Z -> Z -> result (tensor Z))
  (x : tensor Z) (n C : nat) :
  one_hot_kernel tnn_one_hot -> cast_keeps cast x ->
  shape x = [n] -> (0 < n)%nat -> (0 < C)%nat ->
  (forall i, (i < n)%nat -> get 0 x [i] < Z.of_nat C) ->
  exists out,
    multi_hot cast tnn_one_hot x (Z.of_nat C) (-1) = Ok out /\
    shape out = [C] /\
    forall c, (c < C)%nat ->
      get 0 out [c] =
        if existsb (fun v => v =? Z.of_nat c) (to_list 0 x) then 1 else 0.
Proof.
  intros Hk (Hwf & Hcs & Hcast) Hs Hn HC Hrange.
  destruct (one_hot_rows tnn_one_hot Hk (cast x int32) C) as (enc & Henc & Hse & Hg).
  - exact Hwf.
  - exact HC.
  - intros idx Hidx. rewrite Hcs in Hidx. rewrite Hcast by assumption.
    rewrite Hs in Hidx. inversion Hidx as [|i m tl r Hi Htl]; subst.
    inversion Htl; subst. apply Hrange, Hi.
  - rewrite Hcs in Hse, Hg. rewrite Hs in Hse. cbn [app] in Hse.
    unfold multi_hot. rewrite Henc. cbn [bind]. rewrite Hs. cbn [length].
    change (1 <? Z.of_nat 1) with false. cbv iota.
    change 0 with (Z.of_nat 0) at 1.
    rewrite amax_along by (rewrite Hse; cbn [length nth]; lia).
    eexists. split; [reflexivity|]. split.
    { rewrite shape_tabulate, Hse. reflexivity. }
    intros c Hc. rewrite Hse. unfold remove_nth. cbn [firstn skipn app].
    rewrite get_tabulate by (constructor; [exact Hc|constructor]).
    unfold fiber, insert_nth. cbn [firstn skipn app]. rewrite Hse.
    cbn [nth list_update].
    rewrite (map_ext_in _
               (fun j => if (0 <=? get 0 x [j]) && (get 0 x [j] =? Z.of_nat c)
                         then 1 else 0)).
    + rewrite list_max_indicator by (destruct n; [lia|discriminate]).
      unfold to_list. rewrite Hs, indices_single, map_map, existsb_map.
      rewrite (existsb_ext_in _ (fun j => get 0 x [j] =? Z.of_nat c));
        [reflexivity|].
      intros j _. apply indicator_nonnegative.
    + intros j Hj. apply in_seq in Hj.
      assert (in_bounds (shape x) [j]) as Hin
        by (rewrite Hs; constructor; [lia|constructor]).
      change [j; c] with ([j] ++ [c]).
      rewrite (Hg [j] c Hin Hc), Hcast by exact Hin. reflexivity.
Qed.

Lemma multi_hot_vector_witness :
  exists out,
    multi_hot cast_int32 tnn_one_hot_cpu (vector [2; 0; 2; -1]) (Z.of_nat 4) (-1)
      = Ok out /\
    shape out = [4%nat] /\
    forall c, (c < 4)%nat ->
      get 0 out [c] =
        if existsb (fun v => v =? Z.of_nat c) (to_list 0 (vector [2; 0; 2; -1]))
        then 1 else 0.
Proof.
  apply (multi_hot_vector cast_int32 tnn_one_hot_cpu (vector [2; 0; 2; -1]) 4 4).
  - exact tnn_one_hot_cpu_kernel.
  - apply cast_int32_keeps; [apply well_formed_vector|].
    intros idx Hidx. inversion Hidx as [|i n tl r Hi Htl]; subst.
    inversion Htl; subst.
    destruct i as [|[|[|[|i]]]]; cbn; lia.
  - reflexivity.
  - lia.
  - lia.
  - intros i Hi. destruct i as [|[|[|[|i]]]]; cbn; lia.
Defined.

(** X19: on an input of shape [b, n, *rest] with [n > 0] whose entries are
    below [num_classes] and are kept by the cast, [multi_hot] reduces over
    axis 1: the result has shape [b, *rest, num_classes] and its entry at
    [i, *idx, c] is 1 when some [j] has [x[i, j, *idx] = c], and 0
    otherwise. *)
Theorem multi_hot_batch (cast : tensor Z -> string -> tensor Z)
  (tnn_one_hot : tensor Z -> Z -> result (tensor Z))
  (x : tensor Z) (b n : nat) (rest : list nat) (C : nat) :
  one_hot_kernel tnn_one_hot -> cast_keeps cast x ->
  shape x = b :: n :: rest -> (0 < n)%nat -> (0 < C)%nat ->
  (forall idx, in_bounds (shape x) idx -> get 0 x idx < Z.of_nat C) ->
  exists out,
    multi_hot cast tnn_one_hot x (Z.of_nat C) (-1) = Ok out /\
    shape out = b :: rest ++ [C] /\
    forall i idx c, (i < b)%nat -> in_bounds rest idx -> (c < C)%nat ->
      get 0 out (i :: idx ++ [c]) =
        if existsb (fun j => get 0 x (i :: j :: idx) =? Z.of_nat c) (seq 0 n)
        then 1 else 0.
Proof.
  intros Hk (Hwf & Hcs & Hcast) Hs Hn HC Hrange.
  destruct (one_hot_rows tnn_one_hot Hk (cast x int32) C) as (enc & Henc & Hse & Hg).
  - exact Hwf.
  - exact HC.
  - intros idx Hidx. rewrite Hcs in Hidx. rewrite Hcast by assumption.
    now apply Hrange.
  - rewrite Hcs in Hse, Hg. rewrite Hs in Hse. cbn [app] in Hse.
    unfold multi_hot. rewrite Henc. cbn [bind]. rewrite Hs. cbn [length].
    destruct (Z.ltb_spec 1 (Z.of_nat (S (S (length rest))))); [|lia].
    change 1 with (Z.of_nat 1).
    rewrite amax_along by (rewrite Hse; cbn [length nth]; lia).
    eexists. split; [reflexivity|]. split.
    { rewrite shape_tabulate, Hse. reflexivity. }
    intros i idx c Hi Hidx Hc. rewrite Hse.
    unfold remove_nth. cbn [firstn skipn app].
    rewrite get_tabulate
      by (constructor; [exact Hi|now apply in_bounds_snoc]).
    unfold fiber, insert_nth. cbn [firstn skipn app]. rewrite Hse.
    cbn [nth list_update].
    rewrite (map_ext_in _
               (fun j => if (0 <=? get 0 x (i :: j :: idx))
                            && (get 0 x (i :: j :: idx) =? Z.of_nat c)
                         then 1 else 0)).
    + rewrite list_max_indicator by (destruct n; [lia|discriminate]).
      rewrite (existsb_ext_in _ (fun j => get 0 x (i :: j :: idx) =? Z.of_nat c));
        [reflexivity|].
      intros j _. apply indicator_nonnegative.
    + intros j Hj. apply in_seq in Hj.
      assert (in_bounds (shape x) (i :: j :: idx)) as Hin.
      { rewrite Hs. constructor; [exact Hi|]. constructor; [lia|exact Hidx]. }
      change (i :: j :: idx ++ [c]) with ((i :: j :: idx) ++ [c]).
      rewrite (Hg _ c Hin Hc), Hcast by exact Hin. reflexivity.
Qed.

Lemma multi_hot_batch_witness :
  exists out,
    multi_hot cast_int32 tnn_one_hot_cpu
      (tabulate [2; 3]%nat (fun idx => offset_id idx - 1))
      (Z.of_nat 13) (-1) = Ok out /\
    shape out = 2%nat :: [] ++ [13%nat] /\
    forall i idx c, (i < 2)%nat -> in_bounds [] idx -> (c < 13)%nat ->
      get 0 out (i :: idx ++ [c]) =
        if existsb
             (fun j => get 0 (tabulate [2; 3]%nat (fun idx => offset_id idx - 1))
                         (i :: j :: idx) =? Z.of_nat c) (seq 0 3)
        then 1 else 0.
Proof.
  assert (forall idx,
            in_bounds (shape (tabulate [2; 3]%nat (fun idx => offset_id idx - 1))) idx ->
            -1 <= get 0 (tabulate [2; 3]%nat (fun idx => offset_id idx - 1)) idx
            < 13) as Hentries.
  { intros idx Hidx. rewrite shape_tabulate in Hidx.
    rewrite get_tabulate by assumption.
    inversion Hidx as [|i n tl r Hi Htl]; subst.
    inversion Htl as [|j m tl' r' Hj Htl']; subst. inversion Htl'; subst.
    destruct i as [|[|i]]; destruct j as [|[|[|j]]]; cbn; lia. }
  apply (multi_hot_batch cast_int32 tnn_one_hot_cpu
           (tabulate [2; 3]%nat (fun idx => offset_id idx - 1)) 2 3 [] 13).
  - exact tnn_one_hot_cpu_kernel.
  - apply cast_int32_keeps; [apply well_formed_tabulate|].
    intros idx Hidx. specialize (Hentries idx Hidx). lia.
  - reflexivity.
  - lia.
  - lia.
  - intros idx Hidx. specialize (Hentries idx Hidx). lia.
Defined.

(** ** The rank guards at work *)

Lemma pool_rank_guard_witness :
  (exists msg,
     max_pool (null_engine Z) {| image_data_format := channels_last; device := "cpu" |}
       (tabulate [2; 3]%nat offset_id) (PInt 2) None valid (Some channels_first) =
       Raise (ValueError msg)) /\
  (exists msg,
     average_pool (null_engine Z)
       {| image_data_format := channels_last; device := "cpu" |}
       (tabulate [2; 3]%nat offset_id) (PInt 2) None valid (Some channels_first) =
       Raise (ValueError msg)).
Proof.
  apply (pool_rank_guard (null_engine Z)
           {| image_data_format := channels_last; device := "cpu" |}
           (tabulate [2; 3]%nat offset_id) (PInt 2) None valid
           (Some channels_first)).
  - vm_compute. intros [H _]. now apply H.
  - reflexivity.
Defined.

Lemma conv_rank_guard_channels_last_witness :
  exists msg,
    conv (null_engine Z) {| image_data_format := channels_first; device := "cpu" |}
      (vector [1; 2; 3; 4]) (tabulate [3; 1; 1]%nat offset_id) (PInt 1) valid
      (Some channels_last) (PInt 1) = Raise (ValueError msg).
Proof.
  apply (conv_rank_guard_channels_last (null_engine Z)
           {| image_data_format := channels_first; device := "cpu" |}
           (vector [1; 2; 3; 4]) (tabulate [3; 1; 1]%nat offset_id)
           (PInt 1) (PInt 1) valid).
  vm_compute. intros [H _]. now apply H.
Defined.

(** ** Explicit same padding for convolutions *)

Lemma dilated_paddings_length (sp ks st dl range : list Z) (pads : list (Z * Z)) :
  dilated_paddings sp ks st dl range = Ok pads -> length pads = length range.
Proof.
  revert pads. induction range as [|i rest IH]; intros pads; cbn [dilated_paddings].
  - now intros [= <-].
  - destruct (py_index sp i) as [a|e]; [|discriminate]. cbn [bind].
    destruct (py_index ks i) as [k|e]; [|discriminate]. cbn [bind].
    destruct (py_index st i) as [s|e]; [|discriminate]. cbn [bind].
    destruct (py_index dl i) as [dv|e]; [|discriminate]. cbn [bind].
    destruct (_compute_padding_length a k s dv) as [p|e]; [|discriminate]. cbn [bind].
    destruct (dilated_paddings sp ks st dl rest) as [others|e]; [|discriminate].
    cbn [bind]. intros [= <-]. cbn [length]. now rewrite (IH others).
Qed.

(** A standardized tuple standardizes to itself. *)
Lemma standardize_tuple_again (v : int_or_tuple) (n : Z) (name name' : string)
  (t : list Z) :
  0 <= n -> standardize_tuple v n name = Ok t ->
  standardize_tuple (PTuple t) n name' = Ok t.
Proof.
  intros Hn. destruct v as [v|u]; cbn [standardize_tuple].
  - intros [= <-]. rewrite repeat_length, Z2Nat.id, Z.eqb_refl by lia.
    reflexivity.
  - destruct (Z.eqb_spec (Z.of_nat (length u)) n) as [Hlen|]; [|discriminate].
    intros [= <-]. rewrite Hlen, Z.eqb_refl. reflexivity.
Qed.

Lemma same_padding_loop_conv (sp ks st : list Z) (op : string) (n : Z)
  (dl : list Z) (range : list Z) :
  String.eqb op pooling = false -> 0 <= n ->
  forall dil acc mode,
    standardize_tuple dil n "dilation_rate" = Ok dl ->
    same_padding_loop sp ks st op n range dil acc mode =
      (pads <- dilated_paddings sp ks st dl range ;;
       Ok (rev pads ++ acc,
           match range with [] => mode | _ :: _ => "constant"%string end)).
Proof.
  intros Hop Hn. induction range as [|i rest IH]; intros dil acc mode Hdil;
    [reflexivity|].
  cbn [same_padding_loop dilated_paddings]. rewrite Hop, Hdil. cbn [bind].
  destruct (py_index sp i) as [a|e]; [|reflexivity]. cbn [bind].
  destruct (py_index ks i) as [k|e]; [|reflexivity]. cbn [bind].
  destruct (py_index st i) as [s|e]; [|reflexivity]. cbn [bind].
  destruct (py_index dl i) as [dv|e]; [|reflexivity]. cbn [bind].
  destruct (_compute_padding_length a k s dv) as [p|e]; [|reflexivity]. cbn [bind].
  rewrite (IH (PTuple dl))
    by (eapply standardize_tuple_again; [exact Hn|exact Hdil]).
  destruct (dilated_paddings sp ks st dl rest) as [others|e]; [|reflexivity].
  cbn [bind rev]. rewrite <- app_assoc. cbn [app].
  destruct rest; reflexivity.
Qed.

(** X23: for any operation other than pooling, [_apply_same_padding]
    standardizes [dilation_rate] against the number of spatial dimensions and
    computes one padding pair per dimension with the dilation of that
    dimension, in reverse dimension order.  When every pair is symmetric it
    returns the input untouched with the left paddings in that reverse order;
    otherwise it pads the input itself through [tnn.pad] in constant mode and
    returns the padding 0. *)
Theorem apply_same_padding_conv {A : Type} (E : engine A) (x : tensor A)
  (ks st : list Z) (op : string) (dil : int_or_tuple) (dl : list Z)
  (pads : list (Z * Z)) :
  String.eqb op pooling = false ->
  standardize_tuple dil (Z.of_nat (length (skipn 2 (shape x)))) "dilation_rate"
    = Ok dl ->
  dilated_paddings (map Z.of_nat (skipn 2 (shape x))) ks st dl
    (py_range 0 (Z.of_nat (length (skipn 2 (shape x))))) = Ok pads ->
  (forallb (fun lr => fst lr =? snd lr) pads = true ->
   _apply_same_padding E x ks st op dil =
     Ok (x, PadList (rev (map fst pads)))) /\
  (forallb (fun lr => fst lr =? snd lr) pads = false ->
   _apply_same_padding E x ks st op dil =
     (padded <- call (tnn_pad E x
                        (flat_map (fun lr => [fst lr; snd lr]) (rev pads))
                        "constant") ;;
      Ok (padded, PadInt 0))).
Proof.
  intros Hop Hdil Hp.
  assert (_apply_same_padding E x ks st op dil =
          if forallb (fun lr => fst lr =? snd lr) pads
          then Ok (x, PadList (rev (map fst pads)))
          else
            padded <- call (tnn_pad E x
                              (flat_map (fun lr => [fst lr; snd lr]) (rev pads))
                              "constant") ;;
            Ok (padded, PadInt 0)) as Heq.
  { unfold _apply_same_padding. rewrite length_map.
    rewrite (same_padding_loop_conv _ _ _ _ _ dl) by (assumption || lia).
    rewrite Hp. cbn [bind]. rewrite app_nil_r, forallb_rev, map_rev.
    destruct (forallb (fun lr => fst lr =? snd lr) pads) eqn:Hsym; [reflexivity|].
    apply dilated_paddings_length in Hp.
    destruct (py_range 0 (Z.of_nat (length (skipn 2 (shape x))))); [|reflexivity].
    destruct pads; [discriminate Hsym|discriminate Hp]. }
  rewrite Heq. split; intros ->; reflexivity.
Qed.

Lemma apply_same_padding_conv_witness :
  (forallb (fun lr => fst lr =? snd lr) [(1, 2); (1, 2)] = true ->
   _apply_same_padding (null_engine Z) (tabulate [1; 1; 6; 6]%nat offset_id)
     [3; 3] [2; 2] "conv" (PTuple [2; 2]) =
     Ok (tabulate [1; 1; 6; 6]%nat offset_id,
         PadList (rev (map fst [(1, 2); (1, 2)])))) /\
  (forallb (fun lr => fst lr =? snd lr) [(1, 2); (1, 2)] = false ->
   _apply_same_padding (null_engine Z) (tabulate [1; 1; 6; 6]%nat offset_id)
     [3; 3] [2; 2] "conv" (PTuple [2; 2]) =
     (padded <- call (tnn_pad (null_engine Z) (tabulate [1; 1; 6; 6]%nat offset_id)
                        (flat_map (fun lr => [fst lr; snd lr])
                           (rev [(1, 2); (1, 2)]))
                        "constant") ;;
      Ok (padded, PadInt 0))).
Proof.
  apply (apply_same_padding_conv (null_engine Z)
           (tabulate [1; 1; 6; 6]%nat offset_id) [3; 3] [2; 2] "conv"
           (PTuple [2; 2]) [2; 2] [(1, 2); (1, 2)]); reflexivity.
Defined.

(** ** One-hot encoding of a vector along axis -2 *)

(** X24: on a one-dimensional [x], [axis=-2] leaves the class axis last: the
    axis order the loop of lines 555-556 reaches is [-2, -1], the identity,
    so [one_hot] returns what [axis=-1] returns, of shape [n, num_classes]. *)
Theorem one_hot_vector_axis_minus_two
  (tnn_one_hot : tensor Z -> Z -> result (tensor Z)) (x : tensor Z) (n C : nat) :
  one_hot_kernel tnn_one_hot ->
  well_formed x -> shape x = [n] -> (0 < C)%nat ->
  (forall i, (i < n)%nat -> get 0 x [i] < Z.of_nat C) ->
  exists out,
    one_hot tnn_one_hot x (Z.of_nat C) (-2) = Ok out /\
    one_hot tnn_one_hot x (Z.of_nat C) (-1) = Ok out /\
    shape out = [n; C].
Proof.
  intros Hk Hwf Hs HC Hlt.
  destruct (Hk (maximum x 0) C HC) as (out0 & Hk0 & Hs0 & _).
  { intros idx Hidx.
    assert (get 0 (maximum x 0) idx = Z.max (get 0 x idx) 0) as ->
      by apply (get_tmap (fun v => Z.max v 0) 0).
    change (shape (maximum x 0)) with (shape x) in Hidx. rewrite Hs in Hidx.
    inversion Hidx as [|i m tl r Hi Htl]; subst. inversion Htl; subst.
    specialize (Hlt i Hi). lia. }
  destruct (where_nonnegative_rows x out0 C Hwf Hs0) as (out & Hw & Hso & Hd & _).
  exists out. rewrite Hs in Hso, Hd. cbn [app] in Hso, Hd.
  assert (forall axis,
            one_hot tnn_one_hot x (Z.of_nat C) axis =
            if negb (axis =? -1) && negb (axis =? ndim out)
            then
              order <- py_setitem (py_range 0 (ndim out)) axis (-1) ;;
              order <- shift_axes order (py_range (axis + 1) (ndim out)) ;;
              permute out order
            else Ok out) as Hone.
  { intros axis. unfold one_hot. rewrite Hk0. cbn [bind].
    unfold bind in Hw. unfold bind at 1.
    destruct (expand_dims x (-1)) as [xe|e]; [|discriminate].
    rewrite Hw. reflexivity. }
  split; [|split; [|exact Hso]].
  - rewrite Hone. destruct out as [st ds]. cbn [dims] in Hd. subst ds.
    reflexivity.
  - rewrite Hone. reflexivity.
Qed.

Lemma one_hot_vector_axis_minus_two_witness :
  exists out,
    one_hot tnn_one_hot_cpu (vector [0; 2; -1]) (Z.of_nat 3) (-2) = Ok out /\
    one_hot tnn_one_hot_cpu (vector [0; 2; -1]) (Z.of_nat 3) (-1) = Ok out /\
    shape out = [3; 3]%nat.
Proof.
  apply (one_hot_vector_axis_minus_two tnn_one_hot_cpu (vector [0; 2; -1]) 3 3).
  - exact tnn_one_hot_cpu_kernel.
  - apply well_formed_vector.
  - reflexivity.
  - lia.
  - intros i Hi. destruct i as [|[|[|i]]]; cbn; lia.
Defined.

(** ** Softmax of a vector *)

Lemma vector_kernel {A : Type} (d : A) (f : list A -> list A) (l : list A) :
  length (f l) = length l ->
  along_axis d f (vector l) (-1) = Ok (vector (f l)) /\
  (output <- reshape d (vector l) [-1] ;;
   output <- along_axis d f output (-1) ;;
   reshape d output (map Z.of_nat (shape (vector l)))) = Ok (vector (f l)).
Proof.
  intros Hlen.
  assert (along_axis d f (vector l) (-1) = Ok (vector (f l))) as Hax.
  { unfold vector. rewrite Hlen. now apply along_axis_vector. }
  assert (to_list d (vector l) = l) as Hto
    by (apply to_list_contiguous; now rewrite numel_of_single).
  split; [exact Hax|].
  rewrite reshape_flat, Hto. cbn [bind]. fold (vector l). rewrite Hax.
  cbn [bind]. unfold reshape.
  assert (shape (vector (f l)) = [length l]) as ->
    by (unfold vector, shape; cbn [dims]; now rewrite shape_contiguous, Hlen).
  assert (shape (vector l) = [length l]) as ->
    by (unfold vector, shape; cbn [dims]; now rewrite shape_contiguous).
  rewrite infer_shape_exact.
  assert (to_list d (vector (f l)) = f l) as ->
    by (apply to_list_contiguous; now rewrite numel_of_single).
  unfold vector. now rewrite Hlen.
Qed.

(** X25: on a vector, [softmax] and [log_softmax] give the same result with
    [axis=None] as with [axis=-1]: the vector kernel applied to the
    elements. *)
Theorem softmax_vector {A : Type} (d : A) (E : engine A) (l : list A) :
  length (softmax1d E l) = length l ->
  length (log_softmax1d E l) = length l ->
  softmax d E (vector l) None = Ok (vector (softmax1d E l)) /\
  softmax d E (vector l) (Some (-1)) = Ok (vector (softmax1d E l)) /\
  log_softmax d E (vector l) None = Ok (vector (log_softmax1d E l)) /\
  log_softmax d E (vector l) (Some (-1)) = Ok (vector (log_softmax1d E l)).
Proof.
  intros Hs Hl.
  destruct (vector_kernel d (softmax1d E) l Hs) as [Hs1 Hs2].
  destruct (vector_kernel d (log_softmax1d E) l Hl) as [Hl1 Hl2].
  repeat split; assumption.
Qed.

Lemma softmax_vector_witness :
  softmax 0%Q rational_engine (vector [1; 1; 2]%Q) None =
    Ok (vector (softmax1d rational_engine [1; 1; 2]%Q)) /\
  softmax 0%Q rational_engine (vector [1; 1; 2]%Q) (Some (-1)) =
    Ok (vector (softmax1d rational_engine [1; 1; 2]%Q)) /\
  log_softmax 0%Q rational_engine (vector [1; 1; 2]%Q) None =
    Ok (vector (log_softmax1d rational_engine [1; 1; 2]%Q)) /\
  log_softmax 0%Q rational_engine (vector [1; 1; 2]%Q) (Some (-1)) =
    Ok (vector (log_softmax1d rational_engine [1; 1; 2]%Q)).
Proof.
  apply (softmax_vector 0%Q rational_engine [1; 1; 2]%Q); reflexivity.
Defined.

(** ** Depthwise kernels of low rank *)

(** X26: a depthwise kernel of rank below 2 makes [depthwise_conv], and
    [separable_conv] through it, raise [IndexError] at [kernel.shape[-2]],
    whatever the input and the other arguments are. *)
Theorem depthwise_conv_kernel_rank {A : Type} (d : A) (E : engine A)
  (cfg : config) (inputs kernel pointwise_kernel : tensor A)
  (strides dilation_rate : int_or_tuple) (padding : string)
  (data_format : option string) :
  ndim kernel < 2 ->
  depthwise_conv d E cfg inputs kernel strides padding data_format dilation_rate
    = Raise IndexError /\
  separable_conv d E cfg inputs kernel pointwise_kernel strides padding
    data_format dilation_rate = Raise IndexError.
Proof.
  intros Hr.
  assert (depthwise_conv d E cfg inputs kernel strides padding data_format
            dilation_rate = Raise IndexError) as Hd.
  { unfold depthwise_conv, ndim, shape in *.
    destruct (dims kernel) as [|d0 [|d1 ds]]; cbn [length] in Hr;
      try reflexivity; lia. }
  split; [exact Hd|]. unfold separable_conv. now rewrite Hd.
Qed.

Lemma depthwise_conv_kernel_rank_witness :
  depthwise_conv 0 (null_engine Z)
    {| image_data_format := channels_last; device := "cpu" |}
    (tabulate [1; 4; 5]%nat offset_id) (vector [1; 2; 3]) (PInt 1) valid
    (Some channels_first) (PInt 1) = Raise IndexError /\
  separable_conv 0 (null_engine Z)
    {| image_data_format := channels_last; device := "cpu" |}
    (tabulate [1; 4; 5]%nat offset_id) (vector [1; 2; 3])
    (tabulate [1; 4; 2]%nat offset_id) (PInt 1) valid
    (Some channels_first) (PInt 1) = Raise IndexError.
Proof.
  apply (depthwise_conv_kernel_rank 0 (null_engine Z)
           {| image_data_format := channels_last; device := "cpu" |}
           (tabulate [1; 4; 5]%nat offset_id) (vector [1; 2; 3])
           (tabulate [1; 4; 2]%nat offset_id) (PInt 1) (PInt 1) valid
           (Some channels_first)).
  reflexivity.
Defined.

(** ** Average pooling with asymmetric padding *)

Lemma pad_pairs_trailing (k : nat) :
  pad_pairs (flat_map (fun _ : Z * Z => [0; 1]) (repeat (0, 0) k)) =
    Some (repeat (0, 1) k).
Proof.
  induction k as [|k IH]; [reflexivity|].
  cbn [repeat flat_map app pad_pairs]. now rewrite IH.
Qed.

Lemma flat_map_constant {X Y : Type} (c : list Y) (l l' : list X) :
  length l = length l' ->
  flat_map (fun _ => c) l = flat_map (fun _ => c) l'.
Proof.
  revert l'. induction l as [|a l IH]; intros [|b l'] H; try discriminate.
  - reflexivity.
  - cbn [flat_map]. f_equal. apply IH. now injection H.
Qed.

Lemma rev_repeat {X : Type} (v : X) (k : nat) : rev (repeat v k) = repeat v k.
Proof.
  induction k as [|k IH]; [reflexivity|].
  cbn [repeat rev]. rewrite IH. symmetry. apply repeat_cons.
Qed.

(** The pairs [0, 1], one per dimension with unequal sides, reach the last
    [k] dimensions. *)
Lemma dimension_pads_trailing (n : nat) (odd : list (Z * Z)) :
  (length odd <= n)%nat ->
  dimension_pads n (flat_map (fun _ => [0; 1]) odd) =
    Some (repeat (0, 0) (n - length odd) ++ repeat (0, 1) (length odd)).
Proof.
  intros Hk. unfold dimension_pads.
  rewrite (flat_map_constant [0; 1] odd (repeat (0, 0) (length odd)))
    by now rewrite repeat_length.
  rewrite pad_pairs_trailing, repeat_length.
  apply Nat.leb_le in Hk. rewrite Hk. now rewrite rev_repeat.
Qed.

Lemma filter_none {X : Type} (p : X -> bool) (l : list X) :
  existsb p l = false -> filter p l = [].
Proof.
  induction l as [|a l IH]; [reflexivity|].
  cbn [existsb filter]. destruct (p a); [discriminate|exact IH].
Qed.

Lemma filter_all {X : Type} (p : X -> bool) (l : list X) :
  forallb p l = true -> filter p l = l.
Proof.
  induction l as [|a l IH]; [reflexivity|].
  cbn [forallb filter]. destruct (p a); [|discriminate].
  cbn [andb]. intros H. now rewrite IH.
Qed.

Lemma source_index_trailing (s : list nat) (ps : list (Z * Z)) :
  Forall trailing_only ps ->
  length ps = length s ->
  forall idx,
    (in_bounds s idx -> source_index s ps idx = Some idx) /\
    (forall j, source_index s ps idx = Some j -> in_bounds s idx).
Proof.
  intros Hps. revert s. induction Hps as [|p ps [Hp _] _ IH]; intros s Hlen idx.
  - destruct s; [|discriminate]. split.
    + intros H. inversion H. reflexivity.
    + intros j. destruct idx; [constructor|discriminate].
  - destruct s as [|n s]; [discriminate|]. injection Hlen as Hlen.
    specialize (IH s Hlen). split.
    + intros H. inversion H as [|i n' idx' s' Hi Hrest]; subst.
      cbn [source_index]. rewrite Hp, Z.sub_0_r.
      replace ((0 <=? Z.of_nat i) && (Z.of_nat i <? Z.of_nat n)) with true
        by (symmetry; apply andb_true_iff; split;
            [apply Z.leb_le|apply Z.ltb_lt]; lia).
      rewrite (proj1 (IH idx') Hrest). cbn [option_map].
      now rewrite Nat2Z.id.
    + intros j. destruct idx as [|i idx']; [discriminate|].
      cbn [source_index]. rewrite Hp, Z.sub_0_r.
      destruct ((0 <=? Z.of_nat i) && (Z.of_nat i <? Z.of_nat n)) eqn:Hi;
        [|discriminate].
      destruct (source_index s ps idx') as [j'|] eqn:Hj; [|discriminate].
      intros _. apply andb_true_iff in Hi as [_ Hi]. apply Z.ltb_lt in Hi.
      constructor; [lia|]. exact (proj2 (IH idx') j' Hj).
Qed.

Lemma padded_sizes_trailing (s1 s2 : list nat) :
  map (fun np : nat * (Z * Z) => padded_size (fst np) (snd np))
    (combine (s1 ++ s2)
       (repeat (0, 0) (length s1) ++ repeat (0, 1) (length s2))) =
  map Z.of_nat (s1 ++ map S s2).
Proof.
  induction s1 as [|n s1 IH].
  - cbn [length repeat app]. induction s2 as [|n s2 IH2]; [reflexivity|].
    cbn [length repeat combine map]. rewrite IH2. f_equal.
    unfold padded_size. cbn [fst snd]. lia.
  - cbn [length repeat app combine map]. rewrite IH. f_equal.
    unfold padded_size. cbn [fst snd]. lia.
Qed.

Lemma forallb_nonnegative (l : list nat) :
  forallb (fun n => 0 <=? n) (map Z.of_nat l) = true.
Proof.
  induction l as [|n l IH]; [reflexivity|].
  cbn [map forallb]. rewrite IH, andb_true_r. apply Z.leb_le. lia.
Qed.

Lemma map_to_nat_of_nat (l : list nat) : map Z.to_nat (map Z.of_nat l) = l.
Proof.
  induction l as [|n l IH]; [reflexivity|].
  cbn [map]. now rewrite Nat2Z.id, IH.
Qed.

Lemma trailing_only_pads (a k : nat) :
  Forall trailing_only (repeat (0, 0) a ++ repeat (0, 1) k).
Proof.
  apply Forall_app. split; apply Forall_forall; intros p Hp;
    apply repeat_spec in Hp; subst; split; cbn; lia.
Qed.

Lemma in_bounds_trailing (s1 s2 idx : list nat) :
  in_bounds (s1 ++ s2) idx -> in_bounds (s1 ++ map S s2) idx.
Proof.
  revert idx. induction s1 as [|n s1 IH]; intros idx H.
  - cbn [app] in *. revert idx H.
    induction s2 as [|n s2 IH2]; intros idx H; inversion H; subst;
      constructor; [lia|now apply IH2].
  - inversion H; subst. constructor; [assumption|now apply IH].
Qed.

Lemma constant_pad_split {A : Type} (d value : A) (x : tensor A)
  (odd : list (Z * Z)) (s1 s2 : list nat) :
  shape x = s1 ++ s2 ->
  length s2 = length odd ->
  exists r,
    constant_pad d value x (flat_map (fun _ => [0; 1]) odd) = inr r /\
    shape r = s1 ++ map S s2 /\
    (forall idx, in_bounds (shape x) idx -> get d r idx = get d x idx) /\
    (forall idx, in_bounds (shape r) idx -> ~ in_bounds (shape x) idx ->
       get d r idx = value).
Proof.
  intros Hs H2.
  assert (length (shape x) = (length s1 + length s2)%nat) as Hl
    by now rewrite Hs, length_app.
  unfold constant_pad.
  replace (length (dims x)) with (length (shape x))
    by (unfold shape; apply length_map).
  rewrite dimension_pads_trailing by lia.
  replace (repeat (0, 0) (length (shape x) - length odd) ++
           repeat (0, 1) (length odd))
    with (repeat (0, 0) (length s1) ++ repeat (0, 1) (length s2))
    by (rewrite <- H2; f_equal; f_equal; lia).
  assert (length (repeat (0, 0) (length s1) ++ repeat (0, 1) (length s2)) =
          length (shape x)) as Hlen
    by (rewrite length_app, !repeat_length; lia).
  pose proof (source_index_trailing (shape x) _
                (trailing_only_pads _ _) Hlen) as Hsrc.
  rewrite Hs in *. rewrite padded_sizes_trailing.
  rewrite forallb_nonnegative, map_to_nat_of_nat.
  eexists. split; [reflexivity|]. rewrite shape_tabulate.
  split; [reflexivity|]. split.
  - intros idx Hidx. rewrite get_tabulate by now apply in_bounds_trailing.
    now rewrite (proj1 (Hsrc idx) Hidx).
  - intros idx Hidx Hout. rewrite get_tabulate by assumption.
    destruct (source_index (s1 ++ s2) _ idx) as [j|] eqn:Hj; [|reflexivity].
    exfalso. apply Hout. exact (proj2 (Hsrc idx) j Hj).
Qed.

(** Constant padding by the pairs [0, 1] of [k] dimensions: the last [k]
    sizes grow by one, the cells of the input keep their values and the new
    cells hold the fill value. *)
Lemma constant_pad_trailing {A : Type} (d value : A) (x : tensor A)
  (odd : list (Z * Z)) :
  (length odd <= length (shape x))%nat ->
  exists r,
    constant_pad d value x (flat_map (fun _ => [0; 1]) odd) = inr r /\
    shape r = firstn (length (shape x) - length odd) (shape x) ++
              map S (skipn (length (shape x) - length odd) (shape x)) /\
    (forall idx, in_bounds (shape x) idx -> in_bounds (shape r) idx) /\
    (forall idx, in_bounds (shape x) idx -> get d r idx = get d x idx) /\
    (forall idx, in_bounds (shape r) idx -> ~ in_bounds (shape x) idx ->
       get d r idx = value).
Proof.
  intros Hk.
  destruct (constant_pad_split d value x odd
              (firstn (length (shape x) - length odd) (shape x))
              (skipn (length (shape x) - length odd) (shape x)))
    as (r & Hr & Hsr & Hkeep & Hfill).
  - symmetry. apply firstn_skipn.
  - rewrite length_skipn. lia.
  - exists r. repeat split; try assumption.
    intros idx Hidx. rewrite Hsr. apply in_bounds_trailing.
    now rewrite firstn_skipn.
Qed.

Lemma zero_fill_engine_pads : zero_fill_kernel 0 0 (tnn_pad zero_fill_engine).
Proof.
  intros x pad r Hr. exists r. cbn. rewrite Hr. now repeat split.
Qed.

(** C3, as the code has it, where the spatial dimensions with unequal
    computed sides are the last ones ([even] holds the pairs of the leading
    dimensions, all with equal sides, [odd] those of the trailing ones, all
    with unequal sides): for a [tnn.pad] that zero-fills as torch documents,
    the input handed to the pooling kernel has one more cell at the end of
    each of those dimensions, the cells of the input keep their values and
    the new ones hold zero; the kernel is given the list of left (shorter)
    paddings of all spatial dimensions, not a zero amount. *)
Theorem average_pool_same_asymmetric {A : Type} (d zero : A) (E : engine A)
  (cfg : config) (inputs x : tensor A) (pool_size : int_or_tuple)
  (strides : option int_or_tuple) (data_format : option string)
  (ps ss : list Z) (fmt : string) (even odd : list (Z * Z)) :
  3 <= ndim inputs <= 5 ->
  standardize_tuple pool_size (ndim inputs - 2) "pool_size" = Ok ps ->
  standardize_strides ps strides (ndim inputs - 2) = Ok ss ->
  standardize_data_format cfg data_format = Ok fmt ->
  to_channels_first fmt inputs = Ok x ->
  computed_paddings (map Z.of_nat (skipn 2 (shape x))) ps ss
    (py_range 0 (ndim inputs - 2)) = Ok (even ++ odd) ->
  existsb uneven even = false ->
  forallb uneven odd = true ->
  odd <> [] ->
  zero_fill_kernel d zero (tnn_pad E) ->
  exists padded,
    shape padded = firstn (2 + length even) (shape x) ++
                   map S (skipn (2 + length even) (shape x)) /\
    (forall idx, in_bounds (shape x) idx -> get d padded idx = get d x idx) /\
    (forall idx, in_bounds (shape padded) idx -> ~ in_bounds (shape x) idx ->
       get d padded idx = zero) /\
    average_pool E cfg inputs pool_size strides same data_format =
      (outputs <- call (tnn_avg_pool E (ndim inputs - 2) padded ps ss
                          (PadList (map fst (even ++ odd))) false) ;;
       from_channels_first fmt outputs).
Proof.
  intros Hrank Hps Hss Hfmt Hx Hpads Heven Hodd Hne Hpad.
  pose proof (to_channels_first_ndim _ _ _ Hx) as Hnd.
  assert (length (even ++ odd) = Z.to_nat (ndim inputs - 2)) as Hlen.
  { rewrite (computed_paddings_length _ _ _ _ _ Hpads).
    replace (ndim inputs - 2) with (Z.of_nat (Z.to_nat (ndim inputs - 2)))
      at 1 by lia.
    apply length_py_range. }
  assert (length (shape x) = Z.to_nat (ndim inputs)) as Hshape.
  { rewrite <- Hnd. unfold ndim, shape. rewrite length_map. lia. }
  rewrite length_app in Hlen.
  assert ((length (shape x) - length odd = 2 + length even)%nat) as Hsplit
    by lia.
  destruct (constant_pad_trailing d zero x odd ltac:(lia))
    as (r & Hr & Hsr & Hinr & Hkeep & Hfill).
  destruct (Hpad _ _ _ Hr) as (padded & Hcall & Hsp & Hget).
  rewrite Hsplit in Hsr.
  exists padded. split; [now rewrite Hsp|]. split; [|split].
  - intros idx Hidx. rewrite Hget by now apply Hinr. now apply Hkeep.
  - intros idx Hidx Hout. rewrite Hsp in Hidx.
    rewrite Hget by assumption. now apply Hfill.
  - unfold average_pool. rewrite Hps; cbn [bind]. rewrite Hss; cbn [bind].
    rewrite Hfmt; cbn [bind]. rewrite Hx; cbn [bind].
    change (String.eqb same same) with true. cbv iota.
    rewrite spatial_rank by lia. rewrite Hnd.
    rewrite average_pool_padding_loop_spec, Hpads. cbn [bind app].
    rewrite app_nil_r, filter_app, (filter_none _ _ Heven),
      (filter_all _ _ Hodd).
    cbn [app].
    replace (0 <? Z.of_nat (length (flat_map (fun _ : Z * Z => [0; 1]) odd)))
      with true
      by (destruct odd; [congruence|reflexivity]).
    rewrite Hcall. cbn [call bind].
    assert (ndim inputs - 2 = 1 \/ ndim inputs - 2 = 2 \/ ndim inputs - 2 = 3)
      as Hcases by lia.
    destruct Hcases as [-> | [-> | ->]]; reflexivity.
Qed.

Lemma average_pool_same_asymmetric_witness :
  exists padded,
    shape padded =
      firstn (2 + length [(1, 1)])
        (shape (tabulate [1; 1; 5; 4]%nat offset_id)) ++
      map S (skipn (2 + length [(1, 1)])
               (shape (tabulate [1; 1; 5; 4]%nat offset_id))) /\
    (forall idx, in_bounds (shape (tabulate [1; 1; 5; 4]%nat offset_id)) idx ->
       get 0 padded idx = get 0 (tabulate [1; 1; 5; 4]%nat offset_id) idx) /\
    (forall idx, in_bounds (shape padded) idx ->
       ~ in_bounds (shape (tabulate [1; 1; 5; 4]%nat offset_id)) idx ->
       get 0 padded idx = 0) /\
    average_pool zero_fill_engine
      {| image_data_format := channels_last; device := "cpu" |}
      (tabulate [1; 1; 5; 4]%nat offset_id) (PTuple [3; 4]) (Some (PInt 1))
      same (Some channels_first) =
      (outputs <- call (tnn_avg_pool zero_fill_engine
                          (ndim (tabulate [1; 1; 5; 4]%nat offset_id) - 2)
                          padded [3; 4] [1; 1]
                          (PadList (map fst ([(1, 1)] ++ [(1, 2)]))) false) ;;
       from_channels_first channels_first outputs).
Proof.
  apply (average_pool_same_asymmetric 0 0 zero_fill_engine
           {| image_data_format := channels_last; device := "cpu" |}
           (tabulate [1; 1; 5; 4]%nat offset_id)
           (tabulate [1; 1; 5; 4]%nat offset_id)
           (PTuple [3; 4]) (Some (PInt 1)) (Some channels_first) [3; 4] [1; 1]
           channels_first [(1, 1)] [(1, 2)]);
    try reflexivity.
  - vm_compute. split; discriminate.
  - discriminate.
  - exact zero_fill_engine_pads.
Defined.

(** Where the dimension with unequal sides is not the last one, the pair
    [0, 1] still reaches the last dimension: on a 4 x 5 image with pool size
    (4, 3) and stride 1 the computed paddings are (1, 2) for the height and
    (1, 1) for the width, and the tensor handed to the pooling kernel is
    4 x 6, with the new column holding zeros. *)
Lemma average_pool_pads_last_dimension :
  computed_paddings [4; 5] [4; 3] [1; 1] (py_range 0 2) =
    Ok [(1, 2); (1, 1)] /\
  exists padded,
    average_pool zero_fill_engine
      {| image_data_format := channels_last; device := "cpu" |}
      (tabulate [1; 1; 4; 5]%nat offset_id) (PTuple [4; 3]) (Some (PInt 1))
      same (Some channels_first) = Ok padded /\
    shape padded = [1; 1; 4; 6]%nat /\
    get 0 padded [0; 0; 3; 5]%nat = 0 /\
    get 0 padded [0; 0; 3; 4]%nat =
      get 0 (tabulate [1; 1; 4; 5]%nat offset_id) [0; 0; 3; 4]%nat.
Proof.
  split; [reflexivity|]. eexists. split; [vm_compute; reflexivity|].
  repeat split.
Qed.

(** ** Moments *)

(** *** Sums and means of rationals *)

Lemma fold_left_Qplus (l : list Q) (a : Q) :
  (fold_left Qplus l a == a + fold_left Qplus l 0)%Q.
Proof.
  revert a. induction l as [|v l IH]; intros a; cbn [fold_left].
  - ring.
  - rewrite (IH (a + v)%Q), (IH (0 + v)%Q). ring.
Qed.

Lemma count_succ (n : nat) :
  (inject_Z (Z.of_nat (S n)) == inject_Z (Z.of_nat n) + 1)%Q.
Proof. rewrite Nat2Z.inj_succ. unfold Z.succ. now rewrite inject_Z_plus. Qed.

Lemma count_positive (n : nat) : (0 < n)%nat -> (0 < inject_Z (Z.of_nat n))%Q.
Proof.
  intros H. change 0%Q with (inject_Z 0). rewrite <- Zlt_Qlt. lia.
Qed.

Lemma square_nonneg (x : Q) : (0 <= x * x)%Q.
Proof. nra. Qed.

(** The sum of the squared deviations from any [a], expanded. *)
Lemma squared_deviations_nonneg (a : Q) (l : list Q) :
  (0 <= fold_left Qplus (map (fun v => v * v) l) 0
        - 2 * a * fold_left Qplus l 0
        + inject_Z (Z.of_nat (length l)) * (a * a))%Q.
Proof.
  induction l as [|v l IH].
  - cbn [map fold_left length]. change (inject_Z (Z.of_nat 0)) with 0%Q. nra.
  - cbn [map fold_left length].
    rewrite (fold_left_Qplus _ (0 + v * v)%Q), (fold_left_Qplus _ (0 + v)%Q).
    rewrite count_succ.
    pose proof (square_nonneg (v - a)) as Hsq.
    nra.
Qed.

Lemma mean_of_exact (l : list Q) :
  mean_of rationals l =
    (fold_left Qplus l 0 / inject_Z (Z.of_nat (length l)))%Q.
Proof. reflexivity. Qed.

(** In exact arithmetic the mean of the squares is at least the square of the
    mean. *)
Lemma exact_variance_nonneg (l : list Q) :
  l <> [] ->
  (0 <= mean_of rationals (map (fun v => v * v) l)
        - mean_of rationals l * mean_of rationals l)%Q.
Proof.
  intros Hne. rewrite !mean_of_exact, length_map.
  set (N := inject_Z (Z.of_nat (length l))).
  assert (0 < N)%Q as HN
    by (apply count_positive; destruct l; [congruence|cbn; lia]).
  set (S1 := fold_left Qplus l 0%Q). set (S2 := fold_left Qplus _ 0%Q).
  set (m := (S1 / N)%Q).
  assert (S1 == m * N)%Q as H1 by (unfold m; field; lra).
  pose proof (squared_deviations_nonneg m l) as Hd.
  fold S1 S2 N in Hd.
  assert (m * m * N <= S2)%Q as Hle.
  { rewrite H1 in Hd. nra. }
  assert (m * m <= S2 / N)%Q by now apply Qle_shift_div_l.
  lra.
Qed.

Lemma sum_of_equal (c : Q) (l : list Q) :
  Forall (fun v => v == c)%Q l ->
  (fold_left Qplus l 0 == inject_Z (Z.of_nat (length l)) * c)%Q.
Proof.
  induction 1 as [|v l Hv _ IH].
  - cbn. ring.
  - cbn [fold_left length]. rewrite fold_left_Qplus, IH, count_succ, Hv. ring.
Qed.

(** In exact arithmetic the two agree on a list that holds one value. *)
Lemma exact_variance_constant (l : list Q) :
  (forall v w, In v l -> In w l -> v == w)%Q ->
  (mean_of rationals (map (fun v => v * v) l)
   - mean_of rationals l * mean_of rationals l == 0)%Q.
Proof.
  intros Hc. destruct l as [|c l']; [reflexivity|].
  set (l := c :: l') in *.
  assert (Forall (fun v => v == c)%Q l) as Hall.
  { apply Forall_forall. intros v Hv. apply Hc; [exact Hv|now left]. }
  assert (Forall (fun v => v == c * c)%Q (map (fun v => v * v)%Q l)) as Hsq.
  { apply Forall_forall. intros v Hv. apply in_map_iff in Hv as (w & <- & Hw).
    rewrite Forall_forall in Hall. now rewrite (Hall w Hw). }
  rewrite !mean_of_exact, length_map.
  rewrite (sum_of_equal _ _ Hall), (sum_of_equal _ _ Hsq), length_map.
  assert (0 < inject_Z (Z.of_nat (length l)))%Q as HN
    by (apply count_positive; cbn; lia).
  field. lra.
Qed.

Lemma sum_compatible (l l' : list Q) :
  Forall2 Qeq l l' -> (fold_left Qplus l 0 == fold_left Qplus l' 0)%Q.
Proof.
  induction 1 as [|v w l l' Hv _ IH]; [reflexivity|].
  cbn [fold_left].
  rewrite (fold_left_Qplus l), (fold_left_Qplus l'), IH, Hv. reflexivity.
Qed.

Lemma mean_compatible (l l' : list Q) :
  Forall2 Qeq l l' -> (mean_of rationals l == mean_of rationals l')%Q.
Proof.
  intros H. rewrite !mean_of_exact.
  rewrite (sum_compatible _ _ H), (Forall2_length H). reflexivity.
Qed.

Lemma map_compatible {X : Type} (f g : X -> Q) (l : list X) :
  (forall j, In j l -> f j == g j)%Q -> Forall2 Qeq (map f l) (map g l).
Proof.
  induction l as [|j l IH]; intros H; cbn [map]; constructor.
  - apply H. now left.
  - apply IH. intros j' Hj'. apply H. now right.
Qed.

(** *** Cells of a reduction *)

Lemma length_reduced_shape (s axs : list nat) :
  length (reduced_shape s axs) = length s.
Proof. unfold reduced_shape. now rewrite length_map, length_seq. Qed.

Lemma nth_map_seq {X : Type} (f : nat -> X) (n k : nat) (d : X) :
  (k < n)%nat -> nth k (map f (seq 0 n)) d = f k.
Proof.
  intros Hk. rewrite (nth_indep _ d (f 0%nat))
    by now rewrite length_map, length_seq.
  now rewrite map_nth, seq_nth.
Qed.

Lemma nth_reduced_shape (s axs : list nat) (k : nat) :
  (k < length s)%nat ->
  nth k (reduced_shape s axs) 0%nat =
    if reduced axs k then 1%nat else nth k s 0%nat.
Proof.
  intros Hk. unfold reduced_shape.
  now rewrite (nth_map_seq
                 (fun k => if reduced axs k then 1%nat else nth k s 0%nat)).
Qed.

Lemma Forall2_pointwise {X Y : Type} (R : X -> Y -> Prop) (dx : X) (dy : Y)
  (l : list X) (l' : list Y) :
  length l = length l' ->
  (forall k, (k < length l)%nat -> R (nth k l dx) (nth k l' dy)) ->
  Forall2 R l l'.
Proof.
  revert l'. induction l as [|a l IH]; intros [|b l'] Hlen H;
    try discriminate; constructor.
  - apply (H 0%nat). cbn. lia.
  - apply IH; [now injection Hlen|].
    intros k Hk. apply (H (S k)). cbn. lia.
Qed.

Lemma in_bounds_nth (s idx : list nat) (k : nat) :
  in_bounds s idx -> (k < length s)%nat ->
  (nth k idx 0 < nth k s 0)%nat.
Proof.
  intros H. revert k. induction H as [|i n idx s Hi _ IH]; intros k Hk.
  - cbn in Hk. lia.
  - destruct k as [|k]; cbn [nth]; [exact Hi|]. apply IH. cbn in Hk. lia.
Qed.

(** Where no dimension of [x] is empty, every cell of a reduction gathers at
    least one entry. *)
Lemma fiber_over_nonempty {A : Type} (d : A) (x : tensor A) (axs idx : list nat) :
  Forall (fun n => 0 < n)%nat (shape x) ->
  in_bounds (reduced_shape (shape x) axs) idx ->
  fiber_over d x axs idx <> [].
Proof.
  intros Hpos Hidx.
  set (s := shape x) in *.
  set (j := map (fun k => if reduced axs k then 0%nat else nth k idx 0%nat)
              (seq 0 (length s))).
  assert (length j = length s) as Hlj
    by (unfold j; now rewrite length_map, length_seq).
  assert (forall k, (k < length s)%nat ->
            nth k j 0%nat = if reduced axs k then 0%nat else nth k idx 0%nat)
    as Hnj.
  { intros k Hk. unfold j.
    now rewrite (nth_map_seq
                   (fun k => if reduced axs k then 0%nat else nth k idx 0%nat)). }
  assert (in_bounds s j) as Hj.
  { apply (Forall2_pointwise lt 0%nat 0%nat); [exact Hlj|].
    intros k Hk. rewrite Hlj in Hk. rewrite Hnj by assumption.
    destruct (reduced axs k) eqn:Hr.
    - rewrite Forall_forall in Hpos. apply Hpos, nth_In, Hk.
    - pose proof (in_bounds_nth _ _ k Hidx) as Hlt.
      rewrite length_reduced_shape, nth_reduced_shape, Hr in Hlt
        by assumption.
      now apply Hlt. }
  assert (agrees_off axs idx j = true) as Hag.
  { unfold agrees_off. apply forallb_forall. intros k Hk.
    apply in_seq in Hk. rewrite Hlj in Hk.
    rewrite Hnj by lia. destruct (reduced axs k); [reflexivity|].
    cbn [orb]. apply Nat.eqb_refl. }
  subst s. unfold fiber_over. intros Hnil. apply map_eq_nil in Hnil.
  assert (In j (filter (agrees_off axs idx) (indices (shape x)))) as Hin
    by (apply filter_In; split; [now apply in_indices|exact Hag]).
  rewrite Hnil in Hin. exact Hin.
Qed.

Lemma same_rank {A B : Type} (a : tensor A) (b : tensor B) :
  shape a = shape b -> length (dims a) = length (dims b).
Proof.
  intros H. apply (f_equal (@length nat)) in H. unfold shape in H.
  now rewrite !length_map in H.
Qed.

(** *** The reference kernels are exact over the rationals *)

Lemma distinct_no_duplicates (l : list nat) :
  NoDup l -> has_duplicates l = false.
Proof.
  induction 1 as [|a l Ha _ IH]; [reflexivity|].
  cbn [has_duplicates]. rewrite IH, orb_false_r.
  destruct (existsb (Nat.eqb a) l) eqn:He; [|reflexivity].
  apply existsb_exists in He as (b & Hb & Hab).
  apply Nat.eqb_eq in Hab. now subst b.
Qed.

Lemma named_axes_distinct (n : nat) (dim : list Z) (axs : list nat) :
  normalize_dims n dim = Some axs -> NoDup axs -> named_axes n dim = inr axs.
Proof.
  intros Hn Hd. unfold named_axes. now rewrite Hn, distinct_no_duplicates.
Qed.

Lemma mean_over_exact : exact_mean (mean_over rationals 0%Q).
Proof.
  intros x dim axs Hne Hn Hd. unfold mean_over.
  rewrite (named_axes_distinct _ _ _ Hn Hd).
  destruct dim as [|a dim]; [congruence|].
  eexists. split; [reflexivity|]. rewrite shape_tabulate.
  split; [reflexivity|]. intros idx Hidx _.
  now rewrite get_tabulate by assumption.
Qed.

Lemma square_exact : exact_square (square rationals).
Proof.
  intros x. exists (tmap (fun v => v * v)%Q x).
  split; [reflexivity|]. split; [reflexivity|].
  intros idx _.
  assert (get 0%Q (tmap (fun v => v * v)%Q x) idx =
          (get 0 x idx * get 0 x idx)%Q) as ->
    by apply (get_tmap (fun v => v * v)%Q 0%Q).
  reflexivity.
Qed.

Lemma shape_differs_same (s : list nat) : shape_differs s s = false.
Proof.
  unfold shape_differs. destruct (list_eq_dec Nat.eq_dec s s); congruence.
Qed.

Lemma subtract_exact : exact_sub (subtract rationals 0%Q).
Proof.
  intros a b Hs. unfold subtract. rewrite Hs, shape_differs_same.
  eexists. split; [reflexivity|]. rewrite shape_tabulate.
  split; [reflexivity|]. intros idx Hidx.
  rewrite get_tabulate by assumption. reflexivity.
Qed.

Lemma numel_squeezed (axs : list nat) (l : list (nat * nat)) :
  numel_of
    (map snd
       (filter (fun kn => negb (reduced axs (fst kn) && (snd kn =? 1)%nat)) l))
  = numel_of (map snd l).
Proof.
  induction l as [|[k n] l IH]; [reflexivity|].
  cbn [filter map fst snd].
  destruct (reduced axs k && (n =? 1)%nat) eqn:Hk; cbn [negb].
  - apply andb_true_iff in Hk as [_ Hn]. apply Nat.eqb_eq in Hn. subst n.
    rewrite IH. unfold numel_of. cbn [fold_right]. lia.
  - cbn [map snd]. unfold numel_of in *. cbn [fold_right]. now rewrite IH.
Qed.

Lemma snd_combine_seq (a : nat) (s : list nat) :
  map snd (combine (seq a (length s)) s) = s.
Proof.
  revert a. induction s as [|n s IH]; intros a; [reflexivity|].
  cbn [length seq combine map snd]. now rewrite IH.
Qed.

Lemma squeeze_dims_keeps {A : Type} (d : A) : keeps_entries d (squeeze_dims d).
Proof.
  intros t dim axs Hn Hd. unfold squeeze_dims.
  rewrite (named_axes_distinct _ _ _ Hn Hd).
  eexists. split; [reflexivity|].
  apply to_list_contiguous.
  rewrite length_to_list. unfold squeezed_shape.
  now rewrite numel_squeezed, snd_combine_seq.
Qed.

Lemma rank_of_shape {A : Type} (t : tensor A) :
  length (dims t) = length (shape t).
Proof. unfold shape. now rewrite length_map. Qed.

(** *** The variance *)

(** C9, in exact arithmetic: with kernels over the rationals that compute
    the mean, the square and the difference exactly and a squeeze that keeps
    the entries, on an input with no empty dimension whose dtype is not
    float16 and a non-empty list of distinct axes, [moments] returns a
    variance whose entries are, cell by cell, the mean of the squares minus
    the square of the mean of what the cell gathers; they are all >= 0, and
    all 0 when [x] is constant along the reduction axes. *)
Theorem moments_variance_exact
  (torch_mean : tensor Q -> list Z -> bool -> native (tensor Q))
  (torch_square : tensor Q -> native (tensor Q))
  (torch_sub : tensor Q -> tensor Q -> native (tensor Q))
  (torch_squeeze : tensor Q -> list Z -> native (tensor Q))
  (E : engine Q) (float16_min float16_max : Q)
  (cast : tensor Q -> string -> tensor Q)
  (standardize_dtype : string -> string)
  (x : tensor Q) (x_dtype : string) (axes : list Z) (axs : list nat)
  (keepdims : bool) :
  exact_mean torch_mean ->
  exact_square torch_square ->
  exact_sub torch_sub ->
  keeps_entries 0%Q torch_squeeze ->
  String.eqb (standardize_dtype x_dtype) float16 = false ->
  axes <> [] ->
  normalize_dims (length (dims x)) axes = Some axs ->
  NoDup axs ->
  Forall (fun n => 0 < n)%nat (shape x) ->
  exists mean variance,
    moments torch_mean torch_square torch_sub torch_squeeze E
      float16_min float16_max cast standardize_dtype
      x x_dtype axes keepdims false = Ok (mean, variance) /\
    Forall2 Qeq (to_list 0%Q variance)
      (map (fun idx =>
              mean_of rationals
                (map (fun a => a * a) (fiber_over 0 x axs idx))
              - mean_of rationals (fiber_over 0 x axs idx)
                * mean_of rationals (fiber_over 0 x axs idx))%Q
         (indices (reduced_shape (shape x) axs))) /\
    Forall (fun v => 0 <= v)%Q (to_list 0%Q variance) /\
    (constant_along Qeq 0%Q x axs ->
     Forall (fun v => v == 0)%Q (to_list 0%Q variance)).
Proof.
  intros Hmean Hsquare Hsub Hsqueeze Hdt Hne Hn Hd Hpos.
  unfold moments. cbv zeta. rewrite Hdt.
  destruct (Hmean x axes axs Hne Hn Hd) as (m & Hm & Hsm & Hgm).
  rewrite Hm. cbn [call bind].
  destruct (Hsquare x) as (q & Hq & Hsq & Hgq).
  rewrite Hq. cbn [call bind].
  assert (normalize_dims (length (dims q)) axes = Some axs) as Hnq
    by (rewrite (same_rank q x Hsq); exact Hn).
  destruct (Hmean q axes axs Hne Hnq Hd) as (ms & Hms & Hsms & Hgms).
  rewrite Hms. cbn [call bind].
  destruct (Hsquare m) as (sm & Hsm' & Hssm & Hgsm).
  rewrite Hsm'. cbn [call bind].
  rewrite Hsq in Hsms.
  assert (shape ms = shape sm) as Hsame by now rewrite Hsms, Hssm, Hsm.
  destruct (Hsub ms sm Hsame) as (v & Hv & Hsv & Hgv).
  rewrite Hv. cbn [call bind].
  assert (forall idx, in_bounds (shape v) idx ->
            (get 0 v idx ==
             mean_of rationals (map (fun a => a * a) (fiber_over 0 x axs idx))
             - mean_of rationals (fiber_over 0 x axs idx)
               * mean_of rationals (fiber_over 0 x axs idx))%Q) as Hentry.
  { intros idx Hidx. rewrite Hsv in Hidx.
    rewrite (Hgv idx Hidx).
    assert (in_bounds (reduced_shape (shape x) axs) idx) as Hr
      by now rewrite <- Hsms.
    rewrite (Hgsm idx) by now rewrite Hsm.
    rewrite (Hgm idx) by (rewrite ?Hsm; auto using fiber_over_nonempty).
    rewrite (Hgms idx Hidx)
      by (apply fiber_over_nonempty; rewrite Hsq; assumption).
    assert (Forall2 Qeq (fiber_over 0%Q q axs idx)
              (map (fun a => a * a)%Q (fiber_over 0%Q x axs idx))) as Hf.
    { unfold fiber_over. rewrite Hsq, map_map. apply map_compatible.
      intros j Hj. apply filter_In in Hj as [Hj _].
      apply Hgq. now apply in_indices. }
    rewrite (mean_compatible _ _ Hf). reflexivity. }
  assert (shape v = reduced_shape (shape x) axs) as Hshape
    by now rewrite Hsv.
  assert (Forall2 Qeq (to_list 0%Q v)
            (map (fun idx =>
                    mean_of rationals
                      (map (fun a => a * a) (fiber_over 0 x axs idx))
                    - mean_of rationals (fiber_over 0 x axs idx)
                      * mean_of rationals (fiber_over 0 x axs idx))%Q
               (indices (reduced_shape (shape x) axs)))) as Hformula.
  { unfold to_list. rewrite Hshape. apply map_compatible.
    intros idx Hidx. apply Hentry. rewrite Hshape. now apply in_indices. }
  assert (Forall (fun a => 0 <= a)%Q (to_list 0%Q v)) as Hall.
  { unfold to_list. apply Forall_forall. intros a Ha.
    apply in_map_iff in Ha as (idx & <- & Hidx). apply in_indices in Hidx.
    rewrite (Hentry idx Hidx). apply exact_variance_nonneg.
    apply fiber_over_nonempty; [assumption|now rewrite <- Hshape]. }
  assert (constant_along Qeq 0%Q x axs ->
          Forall (fun a => a == 0)%Q (to_list 0%Q v)) as Hconst.
  { intros Hc. unfold to_list. apply Forall_forall. intros a Ha.
    apply in_map_iff in Ha as (idx & <- & Hidx). apply in_indices in Hidx.
    rewrite (Hentry idx Hidx). apply exact_variance_constant.
    apply Hc. now rewrite <- Hshape. }
  destruct keepdims; cbn [negb bind].
  - exists m, v. now repeat split.
  - assert (length (dims m) = length (dims x)) as Hrm
      by now rewrite !rank_of_shape, Hsm, length_reduced_shape.
    assert (length (dims v) = length (dims x)) as Hrv
      by now rewrite !rank_of_shape, Hshape, length_reduced_shape.
    rewrite <- Hrm in Hn.
    destruct (Hsqueeze m axes axs Hn Hd) as (m' & Hm' & _).
    rewrite Hrm, <- Hrv in Hn.
    destruct (Hsqueeze v axes axs Hn Hd) as (v' & Hv' & Hlv).
    rewrite Hm', Hv'. cbn [call bind].
    exists m', v'. rewrite Hlv. now repeat split.
Qed.

Lemma moments_variance_exact_witness :
  exists mean variance,
    moments (mean_over rationals 0%Q) (square rationals) (subtract rationals 0%Q)
      (squeeze_dims 0%Q) (null_engine Q) (-65504 # 1) (65504 # 1)
      (fun t _ => t) (fun dtype => dtype)
      (tabulate [2; 3]%nat (fun idx => inject_Z (offset_id idx)))
      float32 [-1] false false = Ok (mean, variance) /\
    Forall2 Qeq (to_list 0%Q variance)
      (map (fun idx =>
              mean_of rationals
                (map (fun a => a * a)
                   (fiber_over 0
                      (tabulate [2; 3]%nat (fun idx => inject_Z (offset_id idx)))
                      [1%nat] idx))
              - mean_of rationals
                  (fiber_over 0
                     (tabulate [2; 3]%nat (fun idx => inject_Z (offset_id idx)))
                     [1%nat] idx)
                * mean_of rationals
                    (fiber_over 0
                       (tabulate [2; 3]%nat (fun idx => inject_Z (offset_id idx)))
                       [1%nat] idx))%Q
         (indices
            (reduced_shape
               (shape (tabulate [2; 3]%nat (fun idx => inject_Z (offset_id idx))))
               [1%nat]))) /\
    Forall (fun v => 0 <= v)%Q (to_list 0%Q variance) /\
    (constant_along Qeq 0%Q
       (tabulate [2; 3]%nat (fun idx => inject_Z (offset_id idx))) [1%nat] ->
     Forall (fun v => v == 0)%Q (to_list 0%Q variance)).
Proof.
  apply (moments_variance_exact (mean_over rationals 0%Q) (square rationals)
           (subtract rationals 0%Q) (squeeze_dims 0%Q) (null_engine Q)
           (-65504 # 1) (65504 # 1) (fun t _ => t) (fun dtype => dtype)
           (tabulate [2; 3]%nat (fun idx => inject_Z (offset_id idx)))
           float32 [-1] [1%nat] false).
  - exact mean_over_exact.
  - exact square_exact.
  - exact subtract_exact.
  - exact (squeeze_dims_keeps 0%Q).
  - reflexivity.
  - discriminate.
  - reflexivity.
  - repeat constructor. intros [].
  - cbn. repeat constructor.
Defined.

(** C9 as stated fails in floating point.  With reference kernels in IEEE 754
    arithmetic (the sum of a mean accumulated from left to right), seven
    float32 entries equal to the float32 nearest to 0.1 give the variance
    -8388608 * 2^-53 = -2^-30, and three such binary64 entries give
    -2^-59: the input is constant along the reduction axis, and the variance
    is neither 0 nor >= 0. *)
Lemma moments_variance_negative :
  moments (mean_over binary32 S754_nan) (square binary32)
    (subtract binary32 S754_nan) (squeeze_dims S754_nan)
    (null_engine spec_float)
    (S754_finite true 2047 5) (S754_finite false 2047 5)
    (fun t _ => t) (fun dtype => dtype)
    (vector (repeat tenth32 7)) float32 [0] false false =
    Ok (scalar (S754_finite false 13421774 (-27)),
        scalar (S754_finite true 8388608 (-53))) /\
  SFltb (S754_finite true 8388608 (-53)) (S754_zero false) = true /\
  moments (mean_over binary64 S754_nan) (square binary64)
    (subtract binary64 S754_nan) (squeeze_dims S754_nan)
    (null_engine spec_float)
    (S754_finite true 2047 5) (S754_finite false 2047 5)
    (fun t _ => t) (fun dtype => dtype)
    (vector (repeat tenth64 3)) "float64" [0] false false =
    Ok (scalar (S754_finite false 7205759403792795 (-56)),
        scalar (S754_finite true 4503599627370496 (-111))) /\
  SFltb (S754_finite true 4503599627370496 (-111)) (S754_zero false) = true.
Proof. repeat split; vm_compute; reflexivity. Qed.
